(** * biomech_simlab: load-stepped hyperelasticity notebook

    A shallow embedding of the code cells of [biomech_simlab.ipynb] that
    drive the FEniCS/dolfin nonlinear solver: the point samplers
    [get_stress] and [get_disp] (cell 4), the neo-Hookean load-stepping
    cell (cell 29), the cardiac benchmark cells (cells 41 and 43) and
    [refine_benchmark] (cell 45).

    The finite-element framework itself (mesh and DOF numbering, the
    L2 projection, the Newton solver) is an external collaborator and is
    taken as a parameter, see [Dolfin].  Python floats are taken through
    the interface [PyFloat], with two instances: IEEE binary64
    ([binary64], executable) and the real numbers ([exact], the
    idealisation that the computed values are compared with). *)

From Stdlib Require Import ZArith List Reals Lra Lia String.
From Stdlib Require Import Floats.SpecFloat.
From stdpp Require Import base list.
Import ListNotations.

Set Implicit Arguments.

(** ** Exceptions and results *)

Inductive exn : Type :=
| ZeroDivisionError          (* float division by zero *)
| OverflowError              (* int too large to convert to float *)
| RuntimeError               (* dolfin: Newton solver did not converge *)
| ValueError                 (* numpy: empty argmin, impossible reshape *)
| IndexError                 (* numpy: index out of bounds *)
| NameError (name : string). (* unbound global variable *)

Inductive result (A : Type) : Type :=
| Ok (a : A)
| Raise (e : exn).
Arguments Ok {A} a.
Arguments Raise {A} e.

Definition rbind {A B} (x : result A) (k : A -> result B) : result B :=
  match x with
  | Ok a => k a
  | Raise e => Raise e
  end.

Declare Scope result_scope.
Delimit Scope result_scope with result.
Notation "x <- e ;; k" := (rbind e (fun x => k))
  (at level 100, e at next level, right associativity) : result_scope.

(** ** Python floats *)

(** The operations on [float] that the notebook uses.  [of_int] is the
    coercion of an [int] operand (round to nearest), [int_fits] tells
    whether that coercion succeeds; [fgeb x y] is [x >= y]. *)
Class PyFloat (F : Type) : Type := {
  of_int : Z -> F;
  int_fits : Z -> bool;
  fadd : F -> F -> F;
  fsub : F -> F -> F;
  fmul : F -> F -> F;
  fdiv : F -> F -> F;
  fsqrt : F -> F;
  fgeb : F -> F -> bool;
  is_zero : F -> bool;
  is_nan : F -> bool
}.

Module Binary64.
Definition prec : Z := 53.
Definition emax : Z := 1024.

Definition of_Z (k : Z) : spec_float := binary_normalize prec emax k 0 false.

Definition finite (x : spec_float) : bool :=
  match x with
  | S754_zero _ | S754_finite _ _ _ => true
  | _ => false
  end.

Definition nan (x : spec_float) : bool :=
  match x with
  | S754_nan => true
  | _ => false
  end.

Definition geb (x y : spec_float) : bool := SFleb y x.

Definition zero (x : spec_float) : bool :=
  match x with
  | S754_zero _ => true
  | _ => false
  end.
End Binary64.

#[export] Instance binary64 : PyFloat spec_float := {|
  of_int := Binary64.of_Z;
  int_fits := fun k => Binary64.finite (Binary64.of_Z k);
  fadd := SFadd Binary64.prec Binary64.emax;
  fsub := SFsub Binary64.prec Binary64.emax;
  fmul := SFmul Binary64.prec Binary64.emax;
  fdiv := SFdiv Binary64.prec Binary64.emax;
  fsqrt := SFsqrt Binary64.prec Binary64.emax;
  fgeb := Binary64.geb;
  is_zero := Binary64.zero;
  is_nan := Binary64.nan
|}.

Module Exact.
Definition geb (x y : R) : bool := if Rle_dec y x then true else false.
Definition zero (x : R) : bool := if Req_dec_T x 0%R then true else false.
End Exact.

#[export] Instance exact : PyFloat R := {|
  of_int := IZR;
  int_fits := fun _ => true;
  fadd := Rplus;
  fsub := Rminus;
  fmul := Rmult;
  fdiv := Rdiv;
  fsqrt := sqrt;
  fgeb := Exact.geb;
  is_zero := Exact.zero;
  is_nan := fun _ => false
|}.

Section PythonArithmetic.
Context {F : Type} `{PyFloat F}.
Local Open Scope result_scope.

(** [float(k)] as applied implicitly to an [int] operand. *)
Definition py_float (k : Z) : result F :=
  if int_fits k then Ok (of_int k) else Raise OverflowError.

(** [x / k] for a float [x] and an int [k]. *)
Definition py_truediv (x : F) (k : Z) : result F :=
  y <- py_float k ;;
  if is_zero y then Raise ZeroDivisionError else Ok (fdiv x y).

(** [x * k] for a float [x] and an int [k]. *)
Definition py_mul (x : F) (k : Z) : result F :=
  y <- py_float k ;;
  Ok (fmul x y).

(** The float literal written [p/q] in decimal, e.g. [0.004]. *)
Definition flit (p q : Z) : F := fdiv (of_int p) (of_int q).
End PythonArithmetic.

(** ** numpy arrays as lists *)

Section Numpy.
Context {F : Type} `{PyFloat F}.
Local Open Scope result_scope.

(** A row of a coordinate table, and a 3-vector such as a query
    position or the value of a vector [Constant]. *)
Definition point : Type := F * F * F.

(** [a[::k]] for [k >= 1]: the rows at indices 0, k, 2k, ... *)
Fixpoint stride_from {A} (k skip : nat) (a : list A) : list A :=
  match a with
  | [] => []
  | x :: a' =>
      match skip with
      | O => x :: stride_from k (k - 1) a'
      | S s => stride_from k s a'
      end
  end.

Definition stride {A} (k : nat) (a : list A) : list A := stride_from k 0 a.

Fixpoint rows_of {A} (k n : nat) (a : list A) : list (list A) :=
  match n with
  | O => []
  | S n' => take k a :: rows_of k n' (drop k a)
  end.

(** [a.reshape((-1,k))] for [k >= 1]. *)
Definition reshape {A} (k : nat) (a : list A) : result (list (list A)) :=
  if (length a mod k =? 0)%nat
  then Ok (rows_of k (length a / k) a)
  else Raise ValueError.

(** [a[i]] with numpy's wrap-around of negative indices. *)
Definition np_index {A} (a : list A) (i : Z) : result A :=
  let n := Z.of_nat (length a) in
  let j := if (i <? 0)%Z then (i + n)%Z else i in
  if ((0 <=? j) && (j <? n))%Z%bool
  then match a !! Z.to_nat j with
       | Some x => Ok x
       | None => Raise IndexError
       end
  else Raise IndexError.

(** [a[i, j]] on a two-dimensional array. *)
Definition np_index2 {A} (a : list (list A)) (i j : Z) : result A :=
  row <- np_index a i ;;
  np_index row j.

(** [np.linalg.norm(c - pos)] for one row [c]: the square root of the
    sum of the squared differences. *)
Definition row_norm (pos c : point) : F :=
  let '(cx, cy, cz) := c in
  let '(x, y, z) := pos in
  let dx := fsub cx x in
  let dy := fsub cy y in
  let dz := fsub cz z in
  fsqrt (fadd (fadd (fmul dx dx) (fmul dy dy)) (fmul dz dz)).

(** [np.linalg.norm(coords - pos, axis = 1)]. *)
Definition norms (coords : list point) (pos : point) : list F :=
  map (row_norm pos) coords.

(** The scan of [np.argmin]: [best] is the least value seen so far,
    at index [bi]; [i] is the index of the head of [a].  A value
    replaces [best] when it is not [>= best]; a NaN is minimal and
    ends the scan. *)
Fixpoint argmin_scan (best : F) (bi i : nat) (a : list F) : nat :=
  match a with
  | [] => bi
  | x :: a' =>
      if is_nan best then bi
      else if fgeb x best then argmin_scan best bi (S i) a'
      else argmin_scan x i (S i) a'
  end.

(** [np.argmin(a)] on a one-dimensional array. *)
Definition np_argmin (a : list F) : result nat :=
  match a with
  | [] => Raise ValueError
  | x :: a' => Ok (argmin_scan x 0 1 a')
  end.
End Numpy.
Arguments point F : clear implicits.

(** ** The finite-element framework (dolfin) *)

(** [BoxMesh.create([Point(0,0,0), Point(10,1,1)], [nx,ny,nz], hexahedron)]:
    the beam is fixed, a mesh is known by its numbers of divisions. *)
Record Mesh : Type := BoxMesh { mesh_nx : Z; mesh_ny : Z; mesh_nz : Z }.

Inductive rank : Type := Vector | Tensor.

Record FunctionSpace : Type := {
  fs_mesh : Mesh;
  fs_rank : rank;
  fs_family : string;
  fs_degree : Z
}.

Definition VectorFunctionSpace (mesh : Mesh) (family : string) (degree : Z) :=
  {| fs_mesh := mesh; fs_rank := Vector; fs_family := family; fs_degree := degree |}.

Definition TensorFunctionSpace (mesh : Mesh) (family : string) (degree : Z) :=
  {| fs_mesh := mesh; fs_rank := Tensor; fs_family := family; fs_degree := degree |}.

(** The boundary predicates of cell 16. *)
Module Boundary.
Inductive t : Type := left | right.
End Boundary.

Section Forms.
Variable F : Type.

(** The strain-energy functions of the notebook (their bodies are
    blanks left to the student), with the material parameters. *)
Inductive energy : Type :=
| W_neohook (mu lmbda : F)
| W_guccione
| W_HO.

Record DirichletBC : Type := {
  bc_space : FunctionSpace;
  bc_value : point F;
  bc_where : Boundary.t
}.

(** What [solve(G == 0, u, bcs, J=dG)] is given, apart from the initial
    guess held by [u]: the residual [G] (the energy it derives from and
    the current value of the follower pressure when [Gext] is part of
    it) and the boundary conditions with the current values of their
    [Constant]s. *)
Record problem : Type := {
  pb_V : FunctionSpace;
  pb_W : energy;
  pb_pressure : option F;
  pb_bcs : list DirichletBC
}.

(** The residual [G]: the energy of the potential it derives from,
    and whether the follower-pressure term [Gext] of cell 41 is added. *)
Record residual : Type := {
  res_W : energy;
  res_Gext : bool
}.

(** The solver overwrites [u] in place and either returns or raises a
    [RuntimeError]; in both cases [u] holds its last iterate. *)
Inductive outcome : Type :=
| Converged (u : list F)
| Diverged (u : list F).

Definition iterate (o : outcome) : list F :=
  match o with
  | Converged u => u
  | Diverged u => u
  end.
End Forms.
Arguments W_guccione {F}.
Arguments W_HO {F}.

(** The capabilities of the framework that the notebook calls.
    [project P Z u] is the DOF vector of [project(P,Z)] when the stress
    expression [P] derives from the given energy and the displacement
    function it refers to currently holds [u]. *)
Class Dolfin (F : Type) : Type := {
  tabulate_dof_coordinates : FunctionSpace -> list (point F);
  project : energy F -> FunctionSpace -> list F -> list F;
  newton : problem F -> list F -> outcome F
}.

(** ** The point samplers (cell 4) *)

Section Samplers.
Context {F : Type} `{PyFloat F} `{Dolfin F}.
Local Open Scope result_scope.

Definition get_stress (Z : FunctionSpace) (P : energy F) (u : list F)
    (pos : point F) (component : BinNums.Z) : result F :=
  let coords := stride 9 (tabulate_dof_coordinates Z) in
  dof_ind <- np_argmin (norms coords pos) ;;
  let P_project := project P Z u in
  P_nodes <- reshape 9 P_project ;;
  np_index2 P_nodes (Z.of_nat dof_ind) component.

Definition get_disp (V : FunctionSpace) (u : list F)
    (pos : point F) (component : BinNums.Z) : result F :=
  let coords := stride 3 (tabulate_dof_coordinates V) in
  dof_ind <- np_argmin (norms coords pos) ;;
  disp <- reshape 3 u ;;
  np_index2 disp (Z.of_nat dof_ind) component.

(** The default arguments [pos = [5.,0.5,0.5], component = 0] and
    [pos = [10.,0.5,1.0], component = 2]. *)
Definition get_stress_pos : point F := (of_int 5, flit 1 2, flit 1 2).
Definition get_stress_component : BinNums.Z := 0.
Definition get_disp_pos : point F := (of_int 10, flit 1 2, of_int 1).
Definition get_disp_component : BinNums.Z := 2.
End Samplers.

(** ** The arrays of [plot_beam] (cell 4) *)

Section PlotBeam.
Context {F : Type} `{PyFloat F} `{Dolfin F}.
Local Open Scope result_scope.

(** [np.where(mask)[0]]: the indices at which [mask] is true, [i]
    being the index of the head of [mask]. *)
Fixpoint where_from (i : nat) (mask : list bool) : list nat :=
  match mask with
  | [] => []
  | b :: mask' =>
      if b then i :: where_from (S i) mask' else where_from (S i) mask'
  end.

(** [np.where(mask)[0]]. *)
Definition np_where (mask : list bool) : list nat := where_from 0 mask.

(** [a + b] on two-dimensional arrays with as many columns: row by
    row when they have as many rows, an array of one row being added
    to every row of the other. *)
Definition np_add (a b : list (list F)) : result (list (list F)) :=
  if (length a =? length b)%nat then Ok (zip_with (zip_with fadd) a b)
  else match a, b with
       | [ra], _ => Ok (map (zip_with fadd ra) b)
       | _, [rb] => Ok (map (fun r => zip_with fadd r rb) a)
       | _, _ => Raise ValueError
       end.

(** [a[idx, col]] for an array [idx] of row indices. *)
Fixpoint np_take (a : list (list F)) (idx : list nat) (col : Z)
    : result (list F) :=
  match idx with
  | [] => Ok []
  | i :: idx' =>
      x <- np_index2 a (Z.of_nat i) col ;;
      xs <- np_take a idx' col ;;
      Ok (x :: xs)
  end.

(** A row of the coordinate table as a row of an array. *)
Definition row_of (c : point F) : list F :=
  let '(x, y, z) := c in [x; y; z].

(** The arrays that [plot_beam(V, u)] hands to its two calls of
    [plt.scatter], lines 59 to 67 with [Z] and [P] left at [None]:
    the x and z coordinates of the nodes of the face [y == 0.0],
    before and after the displacement. *)
Definition plot_beam_arrays (V : FunctionSpace) (u : list F)
    : result ((list F * list F) * (list F * list F)) :=
  let coords := stride 3 (tabulate_dof_coordinates V) in
  let face_ind := np_where (map (fun c => is_zero (snd (fst c))) coords) in
  disp <- reshape 3 u ;;
  up_coords <- np_add (map row_of coords) disp ;;
  x0 <- np_take (map row_of coords) face_ind 0 ;;
  z0 <- np_take (map row_of coords) face_ind 2 ;;
  x1 <- np_take up_coords face_ind 0 ;;
  z1 <- np_take up_coords face_ind 2 ;;
  Ok ((x0, z0), (x1, z1)).
End PlotBeam.

(** ** The notebook's global namespace *)

(** A Python number held in a list: the lists of recorded points start
    with the int [0] and are appended floats. *)
Inductive number (F : Type) : Type :=
| Int (k : Z)
| Float (x : F).
Arguments Int {F} k.
Arguments Float {F} x.

(** The boundary conditions [bcl = DirichletBC(V, c, left)] and
    [bcr = DirichletBC(V, r, right)] hold their [Constant] by reference. *)
Inductive bc_name : Type := bcl | bcr.

Section Notebook.
Context {F : Type} `{PyFloat F} `{Dolfin F}.

(** The global variables that the modelled cells read or write.  [Pi]
    and [P] are known by the energy they derive from; [u], [r], [c]
    and [pressure] by the values they currently hold;
    [nb_total_force] is unbound until cell 43 has run. *)
Record notebook : Type := {
  nb_mesh : Mesh;
  nb_V : FunctionSpace;
  nb_Z : FunctionSpace;
  nb_Pi : energy F;
  nb_P : energy F;
  nb_G : residual F;
  nb_bcs : list bc_name;
  nb_c : point F;
  nb_r : point F;
  nb_pressure : F;
  nb_u : list F;
  nb_disp_neo : list (number F);
  nb_stress_neo : list (number F);
  nb_total_force : option F
}.

Definition with_r (v : point F) (nb : notebook) : notebook :=
  {| nb_mesh := nb_mesh nb; nb_V := nb_V nb;
     nb_Z := nb_Z nb; nb_Pi := nb_Pi nb;
     nb_P := nb_P nb; nb_G := nb_G nb;
     nb_bcs := nb_bcs nb; nb_c := nb_c nb;
     nb_r := v; nb_pressure := nb_pressure nb;
     nb_u := nb_u nb; nb_disp_neo := nb_disp_neo nb;
     nb_stress_neo := nb_stress_neo nb; nb_total_force := nb_total_force nb |}.

Definition with_u (v : list F) (nb : notebook) : notebook :=
  {| nb_mesh := nb_mesh nb; nb_V := nb_V nb;
     nb_Z := nb_Z nb; nb_Pi := nb_Pi nb;
     nb_P := nb_P nb; nb_G := nb_G nb;
     nb_bcs := nb_bcs nb; nb_c := nb_c nb;
     nb_r := nb_r nb; nb_pressure := nb_pressure nb;
     nb_u := v; nb_disp_neo := nb_disp_neo nb;
     nb_stress_neo := nb_stress_neo nb; nb_total_force := nb_total_force nb |}.

Definition with_disp_neo (v : list (number F)) (nb : notebook) : notebook :=
  {| nb_mesh := nb_mesh nb; nb_V := nb_V nb;
     nb_Z := nb_Z nb; nb_Pi := nb_Pi nb;
     nb_P := nb_P nb; nb_G := nb_G nb;
     nb_bcs := nb_bcs nb; nb_c := nb_c nb;
     nb_r := nb_r nb; nb_pressure := nb_pressure nb;
     nb_u := nb_u nb; nb_disp_neo := v;
     nb_stress_neo := nb_stress_neo nb; nb_total_force := nb_total_force nb |}.

Definition with_stress_neo (v : list (number F)) (nb : notebook) : notebook :=
  {| nb_mesh := nb_mesh nb; nb_V := nb_V nb;
     nb_Z := nb_Z nb; nb_Pi := nb_Pi nb;
     nb_P := nb_P nb; nb_G := nb_G nb;
     nb_bcs := nb_bcs nb; nb_c := nb_c nb;
     nb_r := nb_r nb; nb_pressure := nb_pressure nb;
     nb_u := nb_u nb; nb_disp_neo := nb_disp_neo nb;
     nb_stress_neo := v; nb_total_force := nb_total_force nb |}.

Definition with_pressure (v : F) (nb : notebook) : notebook :=
  {| nb_mesh := nb_mesh nb; nb_V := nb_V nb;
     nb_Z := nb_Z nb; nb_Pi := nb_Pi nb;
     nb_P := nb_P nb; nb_G := nb_G nb;
     nb_bcs := nb_bcs nb; nb_c := nb_c nb;
     nb_r := nb_r nb; nb_pressure := v;
     nb_u := nb_u nb; nb_disp_neo := nb_disp_neo nb;
     nb_stress_neo := nb_stress_neo nb; nb_total_force := nb_total_force nb |}.

Definition with_G (v : residual F) (nb : notebook) : notebook :=
  {| nb_mesh := nb_mesh nb; nb_V := nb_V nb;
     nb_Z := nb_Z nb; nb_Pi := nb_Pi nb;
     nb_P := nb_P nb; nb_G := v;
     nb_bcs := nb_bcs nb; nb_c := nb_c nb;
     nb_r := nb_r nb; nb_pressure := nb_pressure nb;
     nb_u := nb_u nb; nb_disp_neo := nb_disp_neo nb;
     nb_stress_neo := nb_stress_neo nb; nb_total_force := nb_total_force nb |}.

Definition with_bcs (v : list bc_name) (nb : notebook) : notebook :=
  {| nb_mesh := nb_mesh nb; nb_V := nb_V nb;
     nb_Z := nb_Z nb; nb_Pi := nb_Pi nb;
     nb_P := nb_P nb; nb_G := nb_G nb;
     nb_bcs := v; nb_c := nb_c nb;
     nb_r := nb_r nb; nb_pressure := nb_pressure nb;
     nb_u := nb_u nb; nb_disp_neo := nb_disp_neo nb;
     nb_stress_neo := nb_stress_neo nb; nb_total_force := nb_total_force nb |}.

Definition with_total_force (v : F) (nb : notebook) : notebook :=
  {| nb_mesh := nb_mesh nb; nb_V := nb_V nb;
     nb_Z := nb_Z nb; nb_Pi := nb_Pi nb;
     nb_P := nb_P nb; nb_G := nb_G nb;
     nb_bcs := nb_bcs nb; nb_c := nb_c nb;
     nb_r := nb_r nb; nb_pressure := nb_pressure nb;
     nb_u := nb_u nb; nb_disp_neo := nb_disp_neo nb;
     nb_stress_neo := nb_stress_neo nb; nb_total_force := Some v |}.

(** The boundary condition a name stands for, with the current value
    of its [Constant]. *)
Definition resolve_bc (nb : notebook) (b : bc_name) : DirichletBC F :=
  match b with
  | bcl => {| bc_space := nb_V nb; bc_value := nb_c nb;
              bc_where := Boundary.left |}
  | bcr => {| bc_space := nb_V nb; bc_value := nb_r nb;
              bc_where := Boundary.right |}
  end.

(** The problem that [solve(G == 0, u, bcs, J=dG)] reads off the
    namespace. *)
Definition problem_of (nb : notebook) : problem F :=
  {| pb_V := nb_V nb;
     pb_W := res_W (nb_G nb);
     pb_pressure :=
       if res_Gext (nb_G nb) then Some (nb_pressure nb) else None;
     pb_bcs := map (resolve_bc nb) (nb_bcs nb) |}.

(** ** Observable events and the execution monad *)

Inductive event : Type :=
| Print (i n : Z) (x : F)                       (* a progress line *)
| Solve (pb : problem F) (guess : list F) (out : outcome F)
| Plot (V : FunctionSpace) (u : list F).        (* plot_beam(V,u) *)

(** The namespace and the events so far, oldest first. *)
Record world : Type := World { nb : notebook; trace : list event }.

(** A statement runs from a world to a world and returns or raises;
    what it did before raising stays done. *)
Definition M (A : Type) : Type := world -> result A * world.

Definition ret {A} (a : A) : M A := fun w => (Ok a, w).

Definition bind {A B} (m : M A) (k : A -> M B) : M B :=
  fun w =>
    match m w with
    | (Ok a, w') => k a w'
    | (Raise e, w') => (Raise e, w')
    end.

Definition lift {A} (x : result A) : M A := fun w => (x, w).

Definition gets {A} (f : notebook -> A) : M A := fun w => (Ok (f (nb w)), w).

Definition modify (f : notebook -> notebook) : M unit :=
  fun w => (Ok tt, World (f (nb w)) (trace w)).

Definition emit (e : event) : M unit :=
  fun w => (Ok tt, World (nb w) (trace w ++ [e])).
End Notebook.
Arguments notebook F : clear implicits.
Arguments event F : clear implicits.
Arguments world F : clear implicits.
Arguments M F A : clear implicits.

Declare Scope cell_scope.
Delimit Scope cell_scope with cell.
Notation "x <- e ;; k" := (bind e (fun x => k))
  (at level 100, e at next level, right associativity) : cell_scope.
Notation "e ;; k" := (bind e (fun _ => k))
  (at level 100, right associativity) : cell_scope.

(** ** The cells *)

Section Cells.
Context {F : Type} `{PyFloat F} `{Dolfin F}.
Local Open Scope cell_scope.

(** [range(n)]; empty when [n <= 0]. *)
Definition range (n : Z) : list Z := map Z.of_nat (seq 0 (Z.to_nat n)).

(** [for i in l: body], the loop-carried local variables in [s]. *)
Fixpoint for_each {L} (l : list Z) (body : Z -> L -> M F L) (s : L) : M F L :=
  match l with
  | [] => ret s
  | i :: l' => s' <- body i s ;; for_each l' body s'
  end.

(** [zeros = np.zeros_like(u.vector().get_local());
     u.vector().set_local(zeros)] *)
Definition reset_solution : M F unit :=
  zeros <- gets (fun nb => map (fun _ => of_int 0) (nb_u nb)) ;;
  modify (with_u zeros).

(** The call of the Newton solver on [pb] from [guess]. *)
Definition run_newton (pb : problem F) (guess : list F) : M F (outcome F) :=
  let out := newton pb guess in
  emit (Solve pb guess out) ;;
  ret out.

(** [solve(G == 0, u, bcs, J=dG)] on the global [u]. *)
Definition solve : M F unit :=
  pb <- gets problem_of ;;
  guess <- gets nb_u ;;
  out <- run_newton pb guess ;;
  modify (with_u (iterate out)) ;;
  match out with
  | Converged _ => ret tt
  | Diverged _ => lift (Raise RuntimeError)
  end.

(** [plot_beam(V,u)]: an exception of its arrays (reshaping, addition,
    indexing) is the call's; the event records a call that drew its
    markers and returned. *)
Definition plot_beam (V : FunctionSpace) (u : list F) : M F unit :=
  lift (plot_beam_arrays V u) ;;
  emit (Plot V u).

(** The value of the global [total_force]. *)
Definition read_total_force : M F F :=
  tf <- gets nb_total_force ;;
  match tf with
  | Some x => ret x
  | None => lift (Raise (NameError "total_force"))
  end.

(** *** Cell 29: the neo-Hookean traction test by load stepping *)

(** One pass through the body of the loop, lines 378 to 382. *)
Definition load_step (n_steps : Z) (increment : F) (i : Z) (_ : unit)
    : M F unit :=
  x <- lift (py_mul increment (i + 1)) ;;
  emit (Print (i + 1) n_steps x) ;;
  x <- lift (py_mul increment (i + 1)) ;;
  modify (with_r (x, of_int 0, of_int 0)) ;;
  solve ;;
  x <- lift (py_mul increment (i + 1)) ;;
  disp_neo <- gets nb_disp_neo ;;
  modify (with_disp_neo (disp_neo ++ [Float x])) ;;
  Z <- gets nb_Z ;;
  P <- gets nb_P ;;
  u <- gets nb_u ;;
  s <- lift (get_stress Z P u get_stress_pos get_stress_component) ;;
  stress_neo <- gets nb_stress_neo ;;
  modify (with_stress_neo (stress_neo ++ [Float s])).

(** The loop, lines 377 to 382. *)
Definition load_stepping (n_steps : Z) (increment : F) : M F unit :=
  for_each (range n_steps) (load_step n_steps increment) tt.

(** The cell, with [n_steps] and [max_disp] for the values that lines
    370 and 371 assign ([10] and [10.0] in the notebook). *)
Definition cell29 (n_steps : Z) (max_disp : F) : M F unit :=
  reset_solution ;;
  increment <- lift (py_truediv max_disp n_steps) ;;
  modify (with_disp_neo [Int 0]) ;;
  modify (with_stress_neo [Int 0]) ;;
  load_stepping n_steps increment ;;
  V <- gets nb_V ;;
  u <- gets nb_u ;;
  plot_beam V u.

(** *** Cells 41 and 43: the cardiac benchmark *)

(** Cell 41: [pressure = Constant(0.0)], the residual with the
    follower pressure, [bcs = [bcl]]. *)
Definition cell41 : M F unit :=
  modify (with_pressure (of_int 0)) ;;
  Pi <- gets nb_Pi ;;
  modify (with_G {| res_W := Pi; res_Gext := true |}) ;;
  modify (with_bcs [bcl]).

(** One pass through the body of the loop of cell 43, lines 602 to
    604; the statement [None] of line 603 does nothing. *)
Definition pressure_step (steps : Z) (i : Z) (_ : unit) : M F unit :=
  total_force <- read_total_force ;;
  q <- lift (py_truediv total_force steps) ;;
  x <- lift (py_mul q (i + 1)) ;;
  emit (Print (i + 1) steps x) ;;
  ret tt ;;
  solve.

Definition cell43 : M F unit :=
  reset_solution ;;
  modify (with_total_force (flit 4 1000)) ;;
  let steps := 10%Z in
  for_each (range steps) (pressure_step steps) tt ;;
  V <- gets nb_V ;;
  u <- gets nb_u ;;
  plot_beam V u.

(** *** Cell 45: mesh refinement *)

(** The local variables that the loop of [refine_benchmark] updates. *)
Record bench_locals : Type := {
  l_pressure : F;
  l_u : list F;
  l_pressures : list (number F);
  l_disp : list (number F)
}.

(** The problem that [solve] reads off the local variables:
    Guccione energy, follower pressure, left end clamped. *)
Definition bench_problem (V : FunctionSpace) (pressure : F) : problem F :=
  {| pb_V := V;
     pb_W := W_guccione;
     pb_pressure := Some pressure;
     pb_bcs := [ {| bc_space := V;
                    bc_value := (of_int 0, of_int 0, of_int 0);
                    bc_where := Boundary.left |} ] |}.

(** One pass through the body of the loop, lines 658 to 662. *)
Definition bench_step (V : FunctionSpace) (steps : Z) (i : Z)
    (l : bench_locals) : M F bench_locals :=
  total_force <- read_total_force ;;
  q <- lift (py_truediv total_force steps) ;;
  current_pressure <- lift (py_mul q (i + 1)) ;;
  out <- run_newton (bench_problem V current_pressure) (l_u l) ;;
  match out with
  | Diverged _ => lift (Raise RuntimeError)
  | Converged u =>
      d <- lift (get_disp V u get_disp_pos get_disp_component) ;;
      ret {| l_pressure := current_pressure;
             l_u := u;
             l_pressures := l_pressures l ++ [Float current_pressure];
             l_disp := l_disp l ++ [Float d] |}
  end.

(** [refine_benchmark(nx,ny,nz)], with [total_pressure] for the value
    that line 653 assigns to the local variable of that name. *)
Definition refine_benchmark_with (total_pressure : F) (nx ny nz : Z)
    : M F (list (number F) * list (number F)) :=
  let mesh := BoxMesh nx ny nz in
  let V := VectorFunctionSpace mesh "Lagrange" 1 in
  let Z := TensorFunctionSpace mesh "P" 1 in
  let u := map (fun _ => of_int 0) (tabulate_dof_coordinates V) in
  let pressure := of_int 0 in
  let total_pressure := total_pressure in
  let steps := 10%Z in
  let pressures := [Int 0] in
  let disp := [Int 0] in
  l <- for_each (range steps) (bench_step V steps)
         {| l_pressure := pressure; l_u := u;
            l_pressures := pressures; l_disp := disp |} ;;
  plot_beam V (l_u l) ;;
  ret (l_disp l, l_pressures l).

Definition refine_benchmark (nx ny nz : Z)
    : M F (list (number F) * list (number F)) :=
  refine_benchmark_with (flit 4 1000) nx ny nz.
End Cells.

(** ** Observing a run *)

Section Observations.
Context {F : Type}.

(** The solver calls of a trace: problem, initial guess, outcome. *)
Definition solves (t : list (event F))
    : list (problem F * list F * outcome F) :=
  omap (fun e => match e with
                 | Solve pb guess out => Some (pb, guess, out)
                 | _ => None
                 end) t.

(** The values reported by the progress lines of a trace. *)
Definition printed (t : list (event F)) : list F :=
  omap (fun e => match e with
                 | Print _ _ x => Some x
                 | _ => None
                 end) t.

(** The axial displacement that a problem imposes on the right end. *)
Definition right_load (pb : problem F) : option F :=
  head (omap (fun b => match bc_where b with
                       | Boundary.right => Some (fst (fst (bc_value b)))
                       | Boundary.left => None
                       end) (pb_bcs pb)).

(** The loads at which a trace called the solver, in order. *)
Definition visited_loads (t : list (event F)) : list F :=
  omap (fun s => right_load (fst (fst s))) (solves t).

(** Every solver call of [ss] starts from what the previous one left,
    the first from [u0], and only the last may have failed. *)
Fixpoint warm_chain (u0 : list F)
    (ss : list (problem F * list F * outcome F)) : Prop :=
  match ss with
  | [] => True
  | (_, guess, out) :: ss' =>
      guess = u0 /\
      (ss' = [] \/ out = Converged (iterate out)) /\
      warm_chain (iterate out) ss'
  end.

(** The field that a sequence of solver calls leaves in [u]. *)
Definition last_iterate (u0 : list F)
    (ss : list (problem F * list F * outcome F)) : list F :=
  match last ss with
  | Some (_, _, out) => iterate out
  | None => u0
  end.

(** The part of the namespace that is set up before the loops and
    that no loop assigns. *)
Definition same_setup (a b : notebook F) : Prop :=
  nb_mesh a = nb_mesh b /\ nb_V a = nb_V b /\ nb_Z a = nb_Z b /\
  nb_Pi a = nb_Pi b /\ nb_P a = nb_P b /\ nb_G a = nb_G b /\
  nb_bcs a = nb_bcs b /\ nb_c a = nb_c b /\
  nb_pressure a = nb_pressure b /\ nb_total_force a = nb_total_force b.
End Observations.

Section Outcomes.
Context {F : Type} `{PyFloat F} `{Dolfin F}.

(** What one pass through the body of the loop of cell 29 does. *)
Definition load_step_outcome (n_steps : Z) (increment : F) (i : Z)
    (w : world F) : result unit * world F :=
  match py_mul increment (i + 1) with
  | Raise e => (Raise e, w)
  | Ok x =>
      let nb1 := with_r (x, of_int 0, of_int 0) (nb w) in
      let guess := nb_u (nb w) in
      let out := newton (problem_of nb1) guess in
      let t := trace w ++ [Print (i + 1) n_steps x;
                           Solve (problem_of nb1) guess out] in
      let nb2 := with_u (iterate out) nb1 in
      match out with
      | Diverged _ => (Raise RuntimeError, World nb2 t)
      | Converged u =>
          let nb3 := with_disp_neo (nb_disp_neo nb2 ++ [Float x]) nb2 in
          match get_stress (nb_Z nb3) (nb_P nb3) u
                  get_stress_pos get_stress_component with
          | Raise e => (Raise e, World nb3 t)
          | Ok s =>
              (Ok tt,
               World (with_stress_neo (nb_stress_neo nb3 ++ [Float s]) nb3) t)
          end
      end
  end.

(** The three ways a pass can end. *)
Variant step_case (n_steps : Z) (increment : F) (i : Z) (w : world F)
    : result unit -> world F -> Prop :=
| step_done x u s :
    py_mul increment (i + 1) = Ok x ->
    let nb1 := with_r (x, of_int 0, of_int 0) (nb w) in
    newton (problem_of nb1) (nb_u (nb w)) = Converged u ->
    get_stress (nb_Z (nb w)) (nb_P (nb w)) u
      get_stress_pos get_stress_component = Ok s ->
    step_case n_steps increment i w (Ok tt)
      (World (with_stress_neo (nb_stress_neo (nb w) ++ [Float s])
               (with_disp_neo (nb_disp_neo (nb w) ++ [Float x])
                 (with_u u nb1)))
             (trace w ++ [Print (i + 1) n_steps x;
                          Solve (problem_of nb1) (nb_u (nb w)) (Converged u)]))
| step_overflow e :
    py_mul increment (i + 1) = Raise e ->
    step_case n_steps increment i w (Raise e) w
| step_diverged x u :
    py_mul increment (i + 1) = Ok x ->
    let nb1 := with_r (x, of_int 0, of_int 0) (nb w) in
    newton (problem_of nb1) (nb_u (nb w)) = Diverged u ->
    step_case n_steps increment i w (Raise RuntimeError)
      (World (with_u u nb1)
             (trace w ++ [Print (i + 1) n_steps x;
                          Solve (problem_of nb1) (nb_u (nb w)) (Diverged u)]))
| step_unsampled x u e :
    py_mul increment (i + 1) = Ok x ->
    let nb1 := with_r (x, of_int 0, of_int 0) (nb w) in
    newton (problem_of nb1) (nb_u (nb w)) = Converged u ->
    get_stress (nb_Z (nb w)) (nb_P (nb w)) u
      get_stress_pos get_stress_component = Raise e ->
    step_case n_steps increment i w (Raise e)
      (World (with_disp_neo (nb_disp_neo (nb w) ++ [Float x]) (with_u u nb1))
             (trace w ++ [Print (i + 1) n_steps x;
                          Solve (problem_of nb1) (nb_u (nb w)) (Converged u)])).

(** The loop of cell 29 over the indices [l]. *)
Definition steps (n_steps : Z) (increment : F) (l : list Z) : M F unit :=
  for_each l (load_step n_steps increment) tt.
End Outcomes.

Section CellOutcomes.
Context {F : Type} `{PyFloat F} `{Dolfin F}.

(** Two namespaces that differ at most in the value of [r]. *)
Definition same_but_r (a b : notebook F) : Prop :=
  forall v, with_r v a = with_r v b.

(** The events that running [m] from [w] adds to the trace. *)
Definition events_of {A} (m : M F A) (w : world F) : list (event F) :=
  drop (length (trace w)) (trace (snd (m w))).

(** The namespace after lines 366 to 368 of cell 29, and after lines
    374 and 375. *)
Definition after_reset (w : world F) : world F :=
  World (with_u (map (fun _ => of_int 0) (nb_u (nb w))) (nb w)) (trace w).

Definition before_loop (w : world F) : world F :=
  World (with_stress_neo [Int 0] (with_disp_neo [Int 0] (nb (after_reset w))))
        (trace w).

(** The four ways cell 29 can end: the increment cannot be computed,
    the loop completes and the beam is plotted, a pass raises, or the
    loop completes and [plot_beam] raises. *)
Variant cell29_case (n_steps : Z) (max_disp : F) (w : world F)
    : result unit -> world F -> list (event F) -> Prop :=
| cell29_no_increment e :
    py_truediv max_disp n_steps = Raise e ->
    cell29_case n_steps max_disp w (Raise e) (after_reset w) []
| cell29_completed increment w2 evs arrays :
    py_truediv max_disp n_steps = Ok increment ->
    steps n_steps increment (range n_steps) (before_loop w) = (Ok tt, w2) ->
    trace w2 = trace w ++ evs ->
    plot_beam_arrays (nb_V (nb w2)) (nb_u (nb w2)) = Ok arrays ->
    cell29_case n_steps max_disp w (Ok tt)
      (World (nb w2) (trace w2 ++ [Plot (nb_V (nb w2)) (nb_u (nb w2))]))
      (evs ++ [Plot (nb_V (nb w2)) (nb_u (nb w2))])
| cell29_aborted increment e w2 evs :
    py_truediv max_disp n_steps = Ok increment ->
    steps n_steps increment (range n_steps) (before_loop w) = (Raise e, w2) ->
    trace w2 = trace w ++ evs ->
    cell29_case n_steps max_disp w (Raise e) w2 evs
| cell29_unplotted increment e w2 evs :
    py_truediv max_disp n_steps = Ok increment ->
    steps n_steps increment (range n_steps) (before_loop w) = (Ok tt, w2) ->
    trace w2 = trace w ++ evs ->
    plot_beam_arrays (nb_V (nb w2)) (nb_u (nb w2)) = Raise e ->
    cell29_case n_steps max_disp w (Raise e) w2 evs.
End CellOutcomes.

(** ** Well-formed frameworks *)

Section WellFormed.
Context {F : Type} `{PyFloat F} `{Dolfin F}.

(** The solver converges from every guess and keeps the size of the
    field. *)
Definition always_converges : Prop :=
  forall pb guess, exists u,
    newton pb guess = Converged u /\ length u = length guess.

(** The stress can be sampled on [Z] from fields of [size] DOFs. *)
Definition stress_samplable (P : energy F) (Z : FunctionSpace)
    (size : nat) : Prop :=
  let coords := stride 9 (tabulate_dof_coordinates Z) in
  (0 < length coords)%nat /\
  forall u, length u = size ->
    length (project P Z u) = (9 * length coords)%nat.
End WellFormed.

(** ** Nearest node *)

Section Nearest.
Context {F : Type} `{PyFloat F} `{Dolfin F}.

(** The node coordinates that the samplers search: one row per node,
    out of the [k] rows that the DOF table has for each node. *)
Definition node_coordinates (k : nat) (S : FunctionSpace) : list (point F) :=
  stride k (tabulate_dof_coordinates S).

(** [a] holds [k] values for each of the nodes of [S], of which there
    is at least one. *)
Definition nodal_values (k : nat) (S : FunctionSpace) (a : list F) : Prop :=
  (0 < length (node_coordinates k S))%nat /\
  length a = (k * length (node_coordinates k S))%nat.
End Nearest.

(** The Euclidean distance between two points. *)
Definition euclid (p q : point R) : R :=
  let '(px, py, pz) := p in
  let '(qx, qy, qz) := q in
  sqrt ((qx - px) * (qx - px) + (qy - py) * (qy - py) + (qz - pz) * (qz - pz)).

(** Node [i] is the first of [coords] among those nearest to [pos]. *)
Definition first_nearest (coords : list (point R)) (pos : point R) (i : nat)
    : Prop :=
  exists c, coords !! i = Some c /\
    (forall j c', coords !! j = Some c' -> (euclid pos c <= euclid pos c')%R) /\
    (forall j c', (j < i)%nat -> coords !! j = Some c' ->
                  (euclid pos c < euclid pos c')%R).

(** Entry [i] of the computed distances [ds] is the first of the least
    ones, in the order of binary64. *)
Definition first_least (ds : list spec_float) (i : nat) : Prop :=
  exists d, ds !! i = Some d /\
    (forall j d', ds !! j = Some d' -> SFleb d d' = true) /\
    (forall j d', (j < i)%nat -> ds !! j = Some d' -> SFltb d d' = true).

(** Entry [i] of [ds] is its first NaN. *)
Definition first_nan (ds : list spec_float) (i : nat) : Prop :=
  ds !! i = Some S754_nan /\
  forall j d, (j < i)%nat -> ds !! j = Some d -> Binary64.nan d = false.

(** ** The benchmark loops *)

Section BenchmarkOutcomes.
Context {F : Type} `{PyFloat F} `{Dolfin F}.

(** What one pass through the body of the loop of cell 43 does. *)
Definition pressure_step_outcome (steps i : Z) (w : world F)
    : result unit * world F :=
  match nb_total_force (nb w) with
  | None => (Raise (NameError "total_force"), w)
  | Some total_force =>
      match py_truediv total_force steps with
      | Raise e => (Raise e, w)
      | Ok q =>
          match py_mul q (i + 1) with
          | Raise e => (Raise e, w)
          | Ok x =>
              let pb := problem_of (nb w) in
              let guess := nb_u (nb w) in
              let out := newton pb guess in
              (match out with
               | Converged _ => Ok tt
               | Diverged _ => Raise RuntimeError
               end,
               World (with_u (iterate out) (nb w))
                     (trace w ++ [Print (i + 1) steps x; Solve pb guess out]))
          end
      end
  end.

(** What one pass through the body of the loop of
    [refine_benchmark] does. *)
Definition bench_step_outcome (V : FunctionSpace) (steps i : Z)
    (l : bench_locals) (w : world F) : result bench_locals * world F :=
  match nb_total_force (nb w) with
  | None => (Raise (NameError "total_force"), w)
  | Some total_force =>
      match py_truediv total_force steps with
      | Raise e => (Raise e, w)
      | Ok q =>
          match py_mul q (i + 1) with
          | Raise e => (Raise e, w)
          | Ok current_pressure =>
              let pb := bench_problem V current_pressure in
              let out := newton pb (l_u l) in
              let w' := World (nb w) (trace w ++ [Solve pb (l_u l) out]) in
              match out with
              | Diverged _ => (Raise RuntimeError, w')
              | Converged u =>
                  match get_disp V u get_disp_pos get_disp_component with
                  | Raise e => (Raise e, w')
                  | Ok d =>
                      (Ok {| l_pressure := current_pressure;
                             l_u := u;
                             l_pressures :=
                               l_pressures l ++ [Float current_pressure];
                             l_disp := l_disp l ++ [Float d] |}, w')
                  end
              end
          end
      end
  end.

(** The pressures at which a trace called the solver, in order. *)
Definition applied_pressures (t : list (event F)) : list (option F) :=
  map (fun s => pb_pressure (fst (fst s))) (solves t).
End BenchmarkOutcomes.

(** Every entry of [l] is less than every later one. *)
Fixpoint increasing_b64 (l : list spec_float) : bool :=
  match l with
  | [] => true
  | x :: l' => forallb (SFltb x) l' && increasing_b64 l'
  end.

(** ** A small framework to run the cells on *)

Module Demo.
Section Demo.
Context {F : Type} `{PyFloat F}.

(** Three nodes on the axis of the beam. *)
Definition nodes : list (point F) :=
  [ (of_int 0, flit 1 2, flit 1 2);
    (of_int 5, flit 1 2, flit 1 2);
    (of_int 10, flit 1 2, of_int 1) ].

(** Three query positions, each the same number in binary64 and in
    the reals: [7.575, 0.5625, 0.0] as Python reads it (the double
    [8528691794332877 / 2^50], inside the beam), [1e18, 0.5, 1.0] and
    [2.0**600, 0.5, 1.0]. *)
Definition inside : point F :=
  (flit 8528691794332877 1125899906842624, flit 9 16, of_int 0).
Definition far : point F := (of_int 1000000000000000000, flit 1 2, of_int 1).
Definition huge : point F := (of_int (2 ^ 600), flit 1 2, of_int 1).

Definition value_size (S : FunctionSpace) : nat :=
  match fs_rank S with
  | Vector => 3
  | Tensor => 9
  end.

Definition tabulate (S : FunctionSpace) : list (point F) :=
  flat_map (fun c => repeat c (value_size S)) nodes.

(** The imposed load of a problem: the pressure, plus the axial
    displacement of every boundary condition. *)
Definition load (pb : problem F) : F :=
  fold_right (fun b acc => fadd (fst (fst (bc_value b))) acc)
    (match pb_pressure pb with Some p => p | None => of_int 0 end)
    (pb_bcs pb).

Definition stress (P : energy F) (Z : FunctionSpace) (u : list F) : list F :=
  flat_map (fun x => repeat x 3) u.

(** A solver that always converges, moving every DOF by the load. *)
Definition robust : Dolfin F := {|
  tabulate_dof_coordinates := tabulate;
  project := stress;
  newton := fun pb guess => Converged (map (fun x => fadd x (load pb)) guess)
|}.

(** A solver that gives up, after one iteration, on loads of [limit]
    or more. *)
Definition brittle (limit : Z) : Dolfin F := {|
  tabulate_dof_coordinates := tabulate;
  project := stress;
  newton := fun pb guess =>
    let u := map (fun x => fadd x (load pb)) guess in
    if fgeb (load pb) (of_int limit) then Diverged u else Converged u
|}.

(** The namespace after cell 24: traction test, neo-Hookean bar, one
    solve at 1 mm done. *)
Definition notebook0 (u : list F) : notebook F :=
  let mesh := BoxMesh 20%Z 2%Z 2%Z in
  let W := W_neohook (of_int 1) (of_int 10) in
  {| nb_mesh := mesh;
     nb_V := VectorFunctionSpace mesh "Lagrange" 1;
     nb_Z := TensorFunctionSpace mesh "Lagrange" 1;
     nb_Pi := W; nb_P := W;
     nb_G := {| res_W := W; res_Gext := false |};
     nb_bcs := [bcl; bcr];
     nb_c := (of_int 0, of_int 0, of_int 0);
     nb_r := (of_int 1, of_int 0, of_int 0);
     nb_pressure := of_int 0;
     nb_u := u;
     nb_disp_neo := []; nb_stress_neo := [];
     nb_total_force := None |}.

Definition world0 (u : list F) : world F := World (notebook0 u) [].

(** A field on the three nodes. *)
Definition field (ux : Z * Z * Z) : list F :=
  let '(a, b, c) := ux in
  map of_int [a; 0; 0; b; 0; 0; c; 0; 0]%Z.

(** The same problem with other leftovers: another field in [u],
    another load in [r], points already recorded, events already
    traced. *)
Definition world1 (u : list F) : world F :=
  World (with_r (of_int 10, of_int 0, of_int 0)
          (with_disp_neo [Int 0; Float (of_int 7)]
            (with_stress_neo [Int 0; Float (of_int 3)] (notebook0 u))))
        [Plot (VectorFunctionSpace (BoxMesh 20 2 2) "Lagrange" 1) u].
End Demo.
End Demo.

(** * Further observations and models *)

(** ** More observations *)

(** A position with a NaN among its coordinates. *)
Definition has_nan (pos : point spec_float) : bool :=
  let '(x, y, z) := pos in
  Binary64.nan x || Binary64.nan y || Binary64.nan z.

Section MoreObservations.
Context {F : Type} `{PyFloat F} `{Dolfin F}.

(** Whether a solver call converged. *)
Definition converged (out : outcome F) : bool :=
  match out with
  | Converged _ => true
  | Diverged _ => false
  end.

(** The number of solver calls of a trace that converged. *)
Definition converged_solves (t : list (event F)) : nat :=
  length (List.filter (fun s => converged (snd s)) (solves t)).

(** The solver returns a field of the size of its initial guess,
    converged or not. *)
Definition keeps_size : Prop :=
  forall pb guess, length (iterate (newton pb guess)) = length guess.
End MoreObservations.

Section BenchmarkObservations.
Context {F : Type} `{PyFloat F} `{Dolfin F}.

(** [s] is a solve of the Guccione beam on [V], clamped on the left
    and loaded by some pressure, that converged to a field of which
    [get_disp] returns [d]. *)
Definition bench_sample (V : FunctionSpace)
    (s : problem F * list F * outcome F) (d : F) : Prop :=
  snd s = Converged (iterate (snd s)) /\
  get_disp V (iterate (snd s)) get_disp_pos get_disp_component = Ok d.

(** How a failed run of the loop of [refine_benchmark] ended. *)
Definition bench_failure (V : FunctionSpace) (steps : Z) (l : list Z)
    (w : world F) (evs : list (event F)) (e : exn) : Prop :=
  match nb_total_force (nb w) with
  | None => e = NameError "total_force" /\ evs = []
  | Some tf =>
      (exists i, In i l /\
         (e = OverflowError \/ e = ZeroDivisionError) /\
         (py_truediv tf steps = Raise e \/
          exists q, py_truediv tf steps = Ok q /\
                    py_mul q (i + 1) = Raise e)) \/
      exists evs0 pb g out,
        evs = evs0 ++ [Solve pb g out] /\
        match out with
        | Diverged _ => e = RuntimeError
        | Converged u =>
            (e = ValueError \/ e = IndexError) /\
            get_disp V u get_disp_pos get_disp_component = Raise e
        end
  end.
End BenchmarkObservations.

Section PressureObservations.
Context {F : Type} `{PyFloat F} `{Dolfin F}.

(** How a failed run of the loop of cell 43 ended. *)
Definition pressure_failure (steps : Z) (l : list Z)
    (w : world F) (evs : list (event F)) (e : exn) : Prop :=
  match nb_total_force (nb w) with
  | None => e = NameError "total_force" /\ evs = []
  | Some tf =>
      (exists i, In i l /\
         (e = OverflowError \/ e = ZeroDivisionError) /\
         (py_truediv tf steps = Raise e \/
          exists q, py_truediv tf steps = Ok q /\
                    py_mul q (i + 1) = Raise e)) \/
      (e = RuntimeError /\
       exists evs0 pb g u, evs = evs0 ++ [Solve pb g (Diverged u)])
  end.
End PressureObservations.

(** ** The stress branch of [plot_beam] *)

Section PlotBeamStress.
Context {F : Type} `{PyFloat F} `{Dolfin F}.
Local Open Scope result_scope.

(** The arrays of [plot_beam(V, u, Z, P, component)], lines 59 to 71
    with [Z] and [P] given: those of [plot_beam_arrays] and the
    colours of the second set of markers. *)
Definition plot_beam_stress (V : FunctionSpace) (u : list F)
    (Z : FunctionSpace) (P : energy F) (component : BinNums.Z)
    : result ((list F * list F) * (list F * list F) * list F) :=
  let coords := stride 3 (tabulate_dof_coordinates V) in
  let face_ind := np_where (map (fun c => is_zero (snd (fst c))) coords) in
  disp <- reshape 3 u ;;
  up_coords <- np_add (map row_of coords) disp ;;
  x0 <- np_take (map row_of coords) face_ind 0 ;;
  z0 <- np_take (map row_of coords) face_ind 2 ;;
  let P_project := project P Z u in
  P_nodes <- reshape 9 P_project ;;
  x1 <- np_take up_coords face_ind 0 ;;
  z1 <- np_take up_coords face_ind 2 ;;
  colours <- np_take P_nodes face_ind component ;;
  Ok ((x0, z0), (x1, z1), colours).
End PlotBeamStress.

(** ** Two more demonstration frameworks *)

Module Hollow.
Section Hollow.
Context {F : Type} `{PyFloat F}.

(** A framework whose function spaces have no DOF at all. *)
Definition framework : Dolfin F := {|
  tabulate_dof_coordinates := fun _ => [];
  project := fun _ _ u => u;
  newton := fun _ guess => Converged guess
|}.
End Hollow.
End Hollow.

Module Slab.
Section Slab.
Context {F : Type} `{PyFloat F}.

(** Four nodes, the first three on the face [y = 0]. *)
Definition nodes : list (point F) :=
  [ (of_int 0, of_int 0, of_int 0);
    (of_int 5, of_int 0, of_int 0);
    (of_int 10, of_int 0, of_int 1);
    (of_int 10, flit 1 2, of_int 1) ].

(** One row of the DOF table for each value at a node. *)
Definition tabulate (S : FunctionSpace) : list (point F) :=
  flat_map (fun c => repeat c (Demo.value_size S)) nodes.

(** A solver that always converges, as [Demo.robust], on these nodes. *)
Definition framework : Dolfin F := {|
  tabulate_dof_coordinates := tabulate;
  project := Demo.stress;
  newton := fun pb guess =>
    Converged (map (fun x => fadd x (Demo.load pb)) guess)
|}.

(** A field on the four nodes: node [k] moved by [k + 1] along x,
    by 7 along y and by [-(k + 1)] along z. *)
Definition field : list F :=
  map of_int [1; 7; -1; 2; 7; -2; 3; 7; -3; 4; 7; -4]%Z.
End Slab.
End Slab.

(** ** Facts about the numpy operations *)

Section NumpyFacts.
Context {F : Type} `{PyFloat F}.

Lemma argmin_scan_bound (a : list F) (best : F) (bi i : nat) :
  (bi < i)%nat -> (argmin_scan best bi i a < i + length a)%nat.
Proof.
  revert best bi i.
  induction a as [|x a IH]; intros best bi i Hlt; simpl.
  - lia.
  - destruct (is_nan best); [lia|].
    destruct (fgeb x best).
    + specialize (IH best bi (S i)). lia.
    + specialize (IH x i (S i)). lia.
Qed.

Lemma np_argmin_ok (a : list F) :
  (0 < length a)%nat ->
  exists j, np_argmin a = Ok j /\ (j < length a)%nat.
Proof.
  destruct a as [|x a]; simpl; [lia|].
  intros _. eexists. split; [reflexivity|].
  pose proof (@argmin_scan_bound a x 0%nat 1%nat). lia.
Qed.

Lemma rows_of_length {A} (k n : nat) (a : list A) :
  length (rows_of k n a) = n.
Proof.
  revert a. induction n as [|n IH]; intros a; simpl; [reflexivity|].
  now rewrite IH.
Qed.

Lemma rows_of_lookup {A} (k n i : nat) (a : list A) :
  (i < n)%nat ->
  rows_of k n a !! i = Some (take k (drop (i * k) a)).
Proof.
  revert a i. induction n as [|n IH]; intros a i Hi; [lia|].
  destruct i as [|i]; simpl.
  - reflexivity.
  - rewrite IH by lia. rewrite drop_drop. reflexivity.
Qed.

Lemma reshape_ok {A} (k n : nat) (a : list A) :
  (0 < k)%nat -> length a = (k * n)%nat ->
  reshape k a = Ok (rows_of k n a).
Proof.
  intros Hk Hlen. unfold reshape. rewrite Hlen.
  rewrite Nat.mul_comm, Nat.Div0.mod_mul, Nat.div_mul by lia.
  reflexivity.
Qed.

Lemma np_index_nat {A} (a : list A) (i : nat) (x : A) :
  a !! i = Some x -> np_index a (Z.of_nat i) = Ok x.
Proof.
  intros Hx. unfold np_index.
  pose proof (lookup_lt_Some _ _ _ Hx) as Hlt.
  destruct (Z.ltb_spec (Z.of_nat i) 0); [lia|].
  destruct (Z.leb_spec 0 (Z.of_nat i)); [|lia].
  destruct (Z.ltb_spec (Z.of_nat i) (Z.of_nat (length a))); [|lia].
  simpl. now rewrite Nat2Z.id, Hx.
Qed.

(** [a.reshape((-1,k))[i, j]] is the entry [i*k + j] of [a]. *)
Lemma reshape_index2 {A} (k n i j : nat) (a : list A) :
  length a = (k * n)%nat -> (i < n)%nat -> (j < k)%nat ->
  exists x, a !! (i * k + j)%nat = Some x /\
    (rows <- reshape k a ;; np_index2 rows (Z.of_nat i) (Z.of_nat j))%result
      = Ok x.
Proof.
  intros Hlen Hi Hj.
  assert (i * k + j < length a)%nat as Hlt by nia.
  destruct (lookup_lt_is_Some_2 a _ Hlt) as [x Hx].
  exists x. split; [exact Hx|].
  rewrite reshape_ok with (n:=n) by (auto; lia). simpl.
  unfold np_index2.
  rewrite np_index_nat with (x:=take k (drop (i * k) a))
    by now apply rows_of_lookup.
  simpl. apply np_index_nat.
  rewrite lookup_take_lt by lia. now rewrite lookup_drop.
Qed.
End NumpyFacts.

(** ** The samplers return a nodal value *)

Section SamplerFacts.
Context {F : Type} `{PyFloat F} `{Dolfin F}.

Lemma norms_length (coords : list (point F)) (pos : point F) :
  length (norms coords pos) = length coords.
Proof. unfold norms. apply length_map. Qed.

Lemma get_disp_nodal (V : FunctionSpace) (u : list F) (pos : point F)
    (component : nat) :
  let coords := stride 3 (tabulate_dof_coordinates V) in
  (0 < length coords)%nat ->
  length u = (3 * length coords)%nat ->
  (component < 3)%nat ->
  exists i x,
    np_argmin (norms coords pos) = Ok i /\ (i < length coords)%nat /\
    u !! (i * 3 + component)%nat = Some x /\
    get_disp V u pos (Z.of_nat component) = Ok x.
Proof.
  intros coords Hpos Hlen Hc.
  destruct (np_argmin_ok (norms coords pos)) as (i & Hi & Hlt).
  { now rewrite norms_length. }
  rewrite norms_length in Hlt.
  destruct (reshape_index2 (k:=3) (i:=i) (j:=component) u Hlen Hlt Hc)
    as (x & Hx & Hget).
  exists i, x. repeat split; try assumption.
  unfold get_disp. fold coords. rewrite Hi. simpl. exact Hget.
Qed.

Lemma get_stress_nodal (Z : FunctionSpace) (P : energy F) (u : list F)
    (pos : point F) (component : nat) :
  let coords := stride 9 (tabulate_dof_coordinates Z) in
  (0 < length coords)%nat ->
  length (project P Z u) = (9 * length coords)%nat ->
  (component < 9)%nat ->
  exists i x,
    np_argmin (norms coords pos) = Ok i /\ (i < length coords)%nat /\
    project P Z u !! (i * 9 + component)%nat = Some x /\
    get_stress Z P u pos (Z.of_nat component) = Ok x.
Proof.
  intros coords Hpos Hlen Hc.
  destruct (np_argmin_ok (norms coords pos)) as (i & Hi & Hlt).
  { now rewrite norms_length. }
  rewrite norms_length in Hlt.
  destruct (reshape_index2 (k:=9) (i:=i) (j:=component) _ Hlen Hlt Hc)
    as (x & Hx & Hget).
  exists i, x. repeat split; try assumption.
  unfold get_stress. fold coords. rewrite Hi. simpl. exact Hget.
Qed.
End SamplerFacts.

(** ** In exact arithmetic [np.argmin] finds the first least entry *)

Section ExactArgmin.
Local Open Scope R_scope.

Lemma argmin_scan_exact (a pre : list R) (best : R) (bi : nat) :
  pre !! bi = Some best ->
  (forall m y, pre !! m = Some y -> best <= y) ->
  (forall m y, (m < bi)%nat -> pre !! m = Some y -> best < y) ->
  exists v, (pre ++ a) !! argmin_scan best bi (length pre) a = Some v /\
    (forall m y, (pre ++ a) !! m = Some y -> v <= y) /\
    (forall m y, (m < argmin_scan best bi (length pre) a)%nat ->
                 (pre ++ a) !! m = Some y -> v < y).
Proof.
  revert pre best bi.
  induction a as [|x a IH]; intros pre best bi Hbi Hmin Hfirst; simpl.
  - rewrite app_nil_r. eauto.
  - unfold Exact.geb. destruct (Rle_dec best x) as [Hle|Hnle].
    + specialize (IH (pre ++ [x]) best bi).
      rewrite length_app, Nat.add_comm in IH. simpl in IH.
      rewrite <- app_assoc in IH. simpl in IH. apply IH.
      * rewrite lookup_app_l; [assumption|]. now apply lookup_lt_Some in Hbi.
      * intros m y Hm. apply lookup_app_Some in Hm as [Hm|[_ Hm]]; [eauto|].
        apply list_lookup_singleton_Some in Hm as [_ <-]. exact Hle.
      * intros m y Hlt Hm. apply lookup_app_Some in Hm as [Hm|[Hge Hm]]; [eauto|].
        apply lookup_lt_Some in Hbi. lia.
    + specialize (IH (pre ++ [x]) x (length pre)).
      rewrite length_app, Nat.add_comm in IH. simpl in IH.
      rewrite <- app_assoc in IH. simpl in IH. apply IH.
      * rewrite lookup_app_r by lia. now rewrite Nat.sub_diag.
      * intros m y Hm. apply lookup_app_Some in Hm as [Hm|[_ Hm]].
        -- apply Hmin in Hm. lra.
        -- apply list_lookup_singleton_Some in Hm as [_ <-]. lra.
      * intros m y Hlt Hm. rewrite lookup_app_l in Hm by lia.
        apply Hmin in Hm. lra.
Qed.

Lemma np_argmin_exact (a : list R) (j : nat) :
  np_argmin a = Ok j ->
  exists v, a !! j = Some v /\
    (forall m y, a !! m = Some y -> v <= y) /\
    (forall m y, (m < j)%nat -> a !! m = Some y -> v < y).
Proof.
  destruct a as [|x a]; simpl; [discriminate|].
  intros [= <-].
  apply (argmin_scan_exact a [x] (best:=x) (bi:=0)).
  - reflexivity.
  - intros [|m] y; simpl; [intros [= <-]; lra | discriminate].
  - intros m y Hm. lia.
Qed.
End ExactArgmin.

(** ** In binary64 [np.argmin] finds the first NaN or the first least entry *)

Section Binary64Argmin.

Ltac order_cases :=
  repeat match goal with
         | |- context [Z.compare ?a ?b] => destruct (Z.compare_spec a b)
         | H : context [Z.compare ?a ?b] |- _ => destruct (Z.compare_spec a b)
         | |- context [Pos.compare ?a ?b] => destruct (Pos.compare_spec a b)
         | H : context [Pos.compare ?a ?b] |- _ =>
             destruct (Pos.compare_spec a b)
         end;
  simpl in *; try discriminate; try reflexivity; try lia.

Ltac float_cases x :=
  destruct x as [[|]|[|]| |[|] ? ?].

Lemma SFleb_refl (a : spec_float) : Binary64.nan a = false -> SFleb a a = true.
Proof.
  unfold SFleb, SFcompare. float_cases a; simpl; try discriminate; try reflexivity;
  intros _; change (Pos.compare_cont Eq ?a ?b) with (Pos.compare a b);
  rewrite Z.compare_refl, Pos.compare_refl; reflexivity.
Qed.

Lemma SFleb_total (a b : spec_float) :
  Binary64.nan a = false -> Binary64.nan b = false -> SFleb a b = false -> SFltb b a = true.
Proof.
  unfold SFleb, SFltb, SFcompare.
  float_cases a; float_cases b; simpl; try discriminate; try reflexivity;
  intros _ _; change (Pos.compare_cont Eq ?a ?b) with (Pos.compare a b);
  order_cases.
Qed.

Lemma SFltb_leb_trans (a b c : spec_float) :
  SFltb a b = true -> SFleb b c = true -> SFltb a c = true.
Proof.
  unfold SFleb, SFltb, SFcompare.
  float_cases a; float_cases b; float_cases c; simpl;
    try discriminate; try reflexivity;
  change (Pos.compare_cont Eq ?a ?b) with (Pos.compare a b);
  order_cases.
Qed.

Lemma SFltb_leb (a b : spec_float) : SFltb a b = true -> SFleb a b = true.
Proof.
  unfold SFleb, SFltb. destruct (SFcompare a b) as [[| |]|]; congruence.
Qed.

Lemma SFleb_not_nan (a b : spec_float) :
  SFleb a b = true -> Binary64.nan a = false /\ Binary64.nan b = false.
Proof.
  unfold SFleb, SFcompare. float_cases a; float_cases b; simpl; try discriminate; auto.
Qed.

Lemma nan_is_nan (x : spec_float) : Binary64.nan x = true -> x = S754_nan.
Proof. destruct x; simpl; congruence. Qed.

Lemma argmin_scan_binary64 (a pre : list spec_float) (best : spec_float)
    (bi : nat) :
  pre !! bi = Some best ->
  (forall m y, pre !! m = Some y -> SFleb best y = true) ->
  (forall m y, (m < bi)%nat -> pre !! m = Some y -> SFltb best y = true) ->
  let j := argmin_scan best bi (length pre) a in
  first_nan (pre ++ a) j \/ first_least (pre ++ a) j.
Proof.
  revert pre best bi.
  induction a as [|x a IH]; intros pre best bi Hbi Hmin Hfirst; simpl.
  - right. rewrite app_nil_r. exists best. auto.
  - destruct (SFleb_not_nan _ _ (Hmin _ _ Hbi)) as [Hbest _].
    change (is_nan best) with (Binary64.nan best). rewrite Hbest.
    change (Binary64.geb x best) with (SFleb best x).
    pose proof (lookup_lt_Some _ _ _ Hbi) as Hlt.
    destruct (SFleb best x) eqn:Hle.
    + specialize (IH (pre ++ [x]) best bi).
      rewrite length_app, Nat.add_comm in IH. simpl in IH.
      rewrite <- app_assoc in IH. simpl in IH. apply IH.
      * rewrite lookup_app_l; assumption.
      * intros m y Hm. apply lookup_app_Some in Hm as [Hm|[_ Hm]]; [eauto|].
        apply list_lookup_singleton_Some in Hm as [_ <-]. exact Hle.
      * intros m y Hm Hy. apply lookup_app_Some in Hy as [Hy|[Hge Hy]];
          [eauto|lia].
    + destruct (Binary64.nan x) eqn:Hx.
      * left. apply nan_is_nan in Hx. subst x.
        assert (argmin_scan S754_nan (length pre) (S (length pre)) a
                = length pre) as -> by (destruct a; reflexivity).
        split.
        -- rewrite lookup_app_r by lia. now rewrite Nat.sub_diag.
        -- intros m y Hm Hy. rewrite lookup_app_l in Hy by exact Hm.
           exact (proj2 (SFleb_not_nan _ _ (Hmin _ _ Hy))).
      * pose proof (SFleb_total _ _ Hbest Hx Hle) as Hxb.
        specialize (IH (pre ++ [x]) x (length pre)).
        rewrite length_app, Nat.add_comm in IH. simpl in IH.
        rewrite <- app_assoc in IH. simpl in IH. apply IH.
        -- rewrite lookup_app_r by lia. now rewrite Nat.sub_diag.
        -- intros m y Hm. apply lookup_app_Some in Hm as [Hm|[_ Hm]].
           ++ apply SFltb_leb. apply SFltb_leb_trans with (b := best); eauto.
           ++ apply list_lookup_singleton_Some in Hm as [_ <-].
              now apply SFleb_refl.
        -- intros m y Hm Hy. rewrite lookup_app_l in Hy by lia.
           apply SFltb_leb_trans with (b := best); eauto.
Qed.

Lemma np_argmin_binary64 (a : list spec_float) (j : nat) :
  np_argmin a = Ok j -> first_nan a j \/ first_least a j.
Proof.
  destruct a as [|x a]; simpl; [discriminate|].
  intros [= <-].
  destruct (Binary64.nan x) eqn:Hx.
  - left. apply nan_is_nan in Hx. subst x.
    assert (argmin_scan S754_nan 0 1 a = 0%nat) as ->
      by (destruct a; reflexivity).
    split; [reflexivity|]. intros m y Hm. lia.
  - apply (@argmin_scan_binary64 a [x] x 0%nat).
    + reflexivity.
    + intros [|m] y; simpl; [intros [= <-]; now apply SFleb_refl | discriminate].
    + intros m y Hm. lia.
Qed.
End Binary64Argmin.

(** * Facts about [plot_beam] *)

Section PlotBeamFacts.
Context {F : Type} `{PyFloat F} `{Dolfin F}.

Lemma where_from_spec (mask : list bool) (i j : nat) :
  j ∈ where_from i mask <->
  exists k, j = (i + k)%nat /\ mask !! k = Some true.
Proof.
  revert i. induction mask as [|b mask IH]; intros i; simpl.
  - split; [intros Hin; inversion Hin|intros (k & _ & Hk); discriminate].
  - destruct b.
    + rewrite elem_of_cons, IH. split.
      * intros [->|(k & -> & Hk)].
        -- exists 0%nat. split; [lia|reflexivity].
        -- exists (S k). split; [lia|exact Hk].
      * intros ([|k] & -> & Hk).
        -- left. lia.
        -- right. exists k. split; [lia|exact Hk].
    + rewrite IH. split.
      * intros (k & -> & Hk). exists (S k). split; [lia|exact Hk].
      * intros ([|k] & -> & Hk); [discriminate|].
        exists k. split; [lia|exact Hk].
Qed.

Lemma np_where_spec (mask : list bool) (j : nat) :
  j ∈ np_where mask <-> mask !! j = Some true.
Proof.
  unfold np_where. rewrite where_from_spec. split.
  - now intros (k & -> & Hk).
  - intros Hj. now exists j.
Qed.

Lemma where_from_increasing (mask : list bool) (i a b ja jb : nat) :
  (a < b)%nat ->
  where_from i mask !! a = Some ja -> where_from i mask !! b = Some jb ->
  (ja < jb)%nat.
Proof.
  revert i a b. induction mask as [|m mask IH]; intros i a b Hab; simpl.
  - discriminate.
  - destruct m; [|apply IH; exact Hab].
    destruct b as [|b]; [lia|]. destruct a as [|a]; simpl.
    + intros [= <-] Hb.
      apply list_elem_of_lookup_2, where_from_spec in Hb as (k & -> & _).
      lia.
    + apply IH. lia.
Qed.

Lemma np_take_ok (a : list (list F)) (idx : list nat) (col : nat) :
  Forall (fun j => (j < length a)%nat) idx ->
  Forall (fun r => (col < length r)%nat) a ->
  exists xs,
    np_take a idx (Z.of_nat col) = Ok xs /\
    length xs = length idx /\
    forall i j, idx !! i = Some j ->
      exists r x, a !! j = Some r /\ r !! col = Some x /\ xs !! i = Some x.
Proof.
  intros Hidx Hcols. induction Hidx as [|j idx Hj Hidx IH].
  - exists []. split; [reflexivity|]. split; [reflexivity|]. intros i j [=].
  - destruct IH as (xs & Hxs & Hlen & Hall).
    destruct (lookup_lt_is_Some_2 a j Hj) as [r Hr].
    assert (col < length r)%nat as Hc
      by exact (proj1 (Forall_lookup _ _) Hcols j r Hr).
    destruct (lookup_lt_is_Some_2 r col Hc) as [x Hx].
    exists (x :: xs). simpl. unfold np_index2.
    rewrite (np_index_nat _ _ Hr). simpl.
    rewrite (np_index_nat _ _ Hx). simpl. rewrite Hxs. simpl.
    split; [reflexivity|]. split; [now rewrite Hlen|].
    intros [|i] j'; simpl.
    + intros [= <-]. eauto.
    + apply Hall.
Qed.
End PlotBeamFacts.

Section PlotBeamNodal.
Context {F : Type} `{PyFloat F} `{Dolfin F}.

Lemma row_of_length (c : point F) : length (row_of c) = 3%nat.
Proof. now destruct c as [[x y] z]. Qed.

Lemma rows_of_row_length {A} (k n : nat) (a : list A) :
  length a = (k * n)%nat ->
  Forall (fun r => length r = k) (rows_of k n a).
Proof.
  intros Hlen. apply Forall_lookup_2. intros i r Hr.
  assert (i < n)%nat as Hi.
  { apply lookup_lt_Some in Hr. now rewrite rows_of_length in Hr. }
  rewrite rows_of_lookup in Hr by exact Hi. injection Hr as <-.
  rewrite length_take, length_drop. nia.
Qed.

Lemma displaced_lookup (nodes : list (point F)) (u : list F) (j col : nat)
    (r : list F) (v : F) :
  length u = (3 * length nodes)%nat -> (col < 3)%nat ->
  zip_with (zip_with fadd) (map row_of nodes)
           (rows_of 3 (length nodes) u) !! j = Some r ->
  r !! col = Some v ->
  exists c a b,
    nodes !! j = Some c /\ row_of c !! col = Some a /\
    u !! (j * 3 + col)%nat = Some b /\ v = fadd a b.
Proof.
  intros Hlen Hcol Hr Hv.
  apply lookup_zip_with_Some in Hr as (rc & ru & -> & Hrc & Hru).
  rewrite list_lookup_fmap in Hrc.
  destruct (nodes !! j) as [c|] eqn:Hc; [|discriminate].
  injection Hrc as <-.
  assert (j < length nodes)%nat as Hj by (now apply lookup_lt_Some in Hc).
  rewrite rows_of_lookup in Hru by exact Hj. injection Hru as <-.
  apply lookup_zip_with_Some in Hv as (a & b & -> & Ha & Hb).
  rewrite lookup_take, lookup_drop in Hb.
  destruct (decide (col < 3)%nat) as [_|Hn]; [|contradiction].
  exists c, a, b. auto.
Qed.

Lemma plot_beam_nodal (V : FunctionSpace) (u : list F) :
  nodal_values 3 V u ->
  let nodes := node_coordinates 3 V in
  let face := np_where (map (fun c => is_zero (snd (fst c))) nodes) in
  (forall j, j ∈ face <->
     exists c, nodes !! j = Some c /\ is_zero (snd (fst c)) = true) /\
  (forall i i' j j', (i < i')%nat ->
     face !! i = Some j -> face !! i' = Some j' -> (j < j')%nat) /\
  exists x0 z0 x1 z1,
    plot_beam_arrays V u = Ok ((x0, z0), (x1, z1)) /\
    length x0 = length face /\ length z0 = length face /\
    length x1 = length face /\ length z1 = length face /\
    forall i j, face !! i = Some j ->
      exists x y z ux uz,
        nodes !! j = Some (x, y, z) /\
        u !! (j * 3)%nat = Some ux /\ u !! (j * 3 + 2)%nat = Some uz /\
        x0 !! i = Some x /\ z0 !! i = Some z /\
        x1 !! i = Some (fadd x ux) /\ z1 !! i = Some (fadd z uz).
Proof.
  intros (Hpos & Hlen) nodes face. fold nodes in Hpos, Hlen.
  assert (forall j, j ∈ face <->
            exists c, nodes !! j = Some c /\ is_zero (snd (fst c)) = true)
    as Hface.
  { intros j. unfold face.
    rewrite np_where_spec, list_lookup_fmap, fmap_Some.
    split; intros (c & Hc & Hz); exists c; (split; [exact Hc|congruence]). }
  split; [exact Hface|].
  split; [intros i i' j j'; apply where_from_increasing|].
  assert (Forall (fun j => (j < length nodes)%nat) face) as Hin.
  { apply Forall_forall. intros j Hj. apply Hface in Hj as (c & Hc & _).
    now apply lookup_lt_Some in Hc. }
  set (up := zip_with (zip_with fadd) (map row_of nodes)
               (rows_of 3 (length nodes) u)).
  assert (Forall (fun r => (0 < length r)%nat /\ (2 < length r)%nat)
            (map row_of nodes)) as Hcols.
  { apply Forall_fmap, Forall_forall. intros c _. simpl.
    rewrite row_of_length. lia. }
  assert (Forall (fun r => (0 < length r)%nat /\ (2 < length r)%nat) up)
    as Hcols'.
  { apply Forall_lookup_2. intros j r Hr.
    apply lookup_zip_with_Some in Hr as (rc & ru & -> & Hrc & Hru).
    rewrite list_lookup_fmap in Hrc.
    destruct (nodes !! j) as [c|]; [|discriminate]. injection Hrc as <-.
    pose proof (rows_of_row_length 3 (length nodes) u Hlen) as Hrows.
    pose proof (proj1 (Forall_lookup _ _) Hrows j ru Hru) as Hru3.
    simpl in Hru3. rewrite length_zip_with, row_of_length, Hru3. lia. }
  assert (length up = length nodes) as Hup.
  { unfold up. rewrite length_zip_with, length_map, rows_of_length. lia. }
  destruct (np_take_ok (a := map row_of nodes) (idx := face) (col := 0))
    as (x0 & Hx0 & Lx0 & Ax0);
    [now rewrite length_map|eapply Forall_impl; [exact Hcols|simpl; intros r [? ?]; assumption]|].
  destruct (np_take_ok (a := map row_of nodes) (idx := face) (col := 2))
    as (z0 & Hz0 & Lz0 & Az0);
    [now rewrite length_map|eapply Forall_impl; [exact Hcols|simpl; intros r [? ?]; assumption]|].
  destruct (np_take_ok (a := up) (idx := face) (col := 0)) as (x1 & Hx1 & Lx1 & Ax1);
    [now rewrite Hup|eapply Forall_impl; [exact Hcols'|simpl; intros r [? ?]; assumption]|].
  destruct (np_take_ok (a := up) (idx := face) (col := 2)) as (z1 & Hz1 & Lz1 & Az1);
    [now rewrite Hup|eapply Forall_impl; [exact Hcols'|simpl; intros r [? ?]; assumption]|].
  exists x0, z0, x1, z1. split.
  { unfold plot_beam_arrays. fold (node_coordinates 3 V). fold nodes.
    fold face. rewrite reshape_ok with (n := length nodes) by (lia || exact Hlen).
    simpl. unfold np_add.
    rewrite length_map, rows_of_length, Nat.eqb_refl. simpl. fold up.
    change 0%Z with (Z.of_nat 0). change 2%Z with (Z.of_nat 2).
    rewrite Hx0. simpl. rewrite Hz0. simpl. rewrite Hx1. simpl.
    rewrite Hz1. reflexivity. }
  split; [exact Lx0|]. split; [exact Lz0|]. split; [exact Lx1|].
  split; [exact Lz1|].
  intros i j Hij.
  destruct (Ax0 i j Hij) as (r0 & x & Hr0 & Hx & Hxi).
  destruct (Az0 i j Hij) as (r0' & z & Hr0' & Hz & Hzi).
  destruct (Ax1 i j Hij) as (r1 & x' & Hr1 & Hx' & Hxi').
  destruct (Az1 i j Hij) as (r1' & z' & Hr1' & Hz' & Hzi').
  rewrite list_lookup_fmap in Hr0, Hr0'.
  destruct (nodes !! j) as [[[cx cy] cz]|] eqn:Hc; [|discriminate].
  injection Hr0 as <-. injection Hr0' as <-.
  injection Hx as <-. injection Hz as <-.
  destruct (displaced_lookup nodes u j Hlen (col := 0) ltac:(lia) Hr1 Hx')
    as (c & a & ux & Hc1 & Ha & Hux & ->).
  destruct (displaced_lookup nodes u j Hlen (col := 2) ltac:(lia) Hr1' Hz')
    as (c' & a' & uz & Hc2 & Ha' & Huz & ->).
  rewrite Hc in Hc1, Hc2. injection Hc1 as <-. injection Hc2 as <-.
  injection Ha as <-. injection Ha' as <-.
  rewrite Nat.add_0_r in Hux.
  exists cx, cy, cz, ux, uz. repeat split; assumption.
Qed.
Lemma nodal_values_size (V : FunctionSpace) (u u' : list F) :
  length u' = length u -> nodal_values 3 V u -> nodal_values 3 V u'.
Proof. intros Hlen [Hpos Hu]. split; [exact Hpos|congruence]. Qed.

Lemma plot_beam_defined (V : FunctionSpace) (u : list F) :
  nodal_values 3 V u -> exists arrays, plot_beam_arrays V u = Ok arrays.
Proof.
  intros Hnodal.
  destruct (plot_beam_nodal Hnodal)
    as (_ & _ & x0 & z0 & x1 & z1 & Hres & _).
  eauto.
Qed.
End PlotBeamNodal.

(** ** Facts about the load-stepping loop *)

Section LoopFacts.
Context {F : Type} `{PyFloat F} `{Dolfin F}.

Lemma load_step_eq (n_steps : Z) (increment : F) (i : Z) (w : world F) :
  load_step n_steps increment i tt w = load_step_outcome n_steps increment i w.
Proof.
  unfold load_step, load_step_outcome, solve, run_newton, bind, lift, gets,
    modify, emit, ret.
  destruct (py_mul increment (i + 1)) as [x|e]; [|reflexivity].
  cbn -[get_stress problem_of].
  destruct (newton _ _) as [u|u]; cbn -[get_stress problem_of].
  - rewrite <- app_assoc.
    destruct (get_stress _ _ _ _ _); reflexivity.
  - now rewrite <- app_assoc.
Qed.

Lemma py_mul_Ok (x y : F) (k : Z) :
  py_mul x k = Ok y -> y = fmul x (of_int k).
Proof.
  unfold py_mul, py_float. destruct (int_fits k); simpl; congruence.
Qed.

Lemma py_truediv_Ok (x y : F) (k : Z) :
  py_truediv x k = Ok y -> y = fdiv x (of_int k).
Proof.
  unfold py_truediv, py_float. destruct (int_fits k); simpl; [|discriminate].
  destruct (is_zero (of_int k)); congruence.
Qed.

Lemma load_step_cases (n_steps : Z) (increment : F) (i : Z) (w : world F) :
  step_case n_steps increment i w
    (fst (load_step n_steps increment i tt w))
    (snd (load_step n_steps increment i tt w)).
Proof.
  rewrite load_step_eq. unfold load_step_outcome.
  destruct (py_mul increment (i + 1)) as [x|e] eqn:Hx; simpl.
  2: now constructor.
  destruct (newton _ _) as [u|u] eqn:Hn; simpl.
  2: now apply step_diverged.
  destruct (get_stress _ _ _ _ _) as [s|e] eqn:Hs; simpl.
  - now apply step_done.
  - now apply step_unsampled.
Qed.

Lemma steps_nil (n : Z) (inc : F) (w : world F) :
  steps n inc [] w = (Ok tt, w).
Proof. reflexivity. Qed.

Lemma steps_cons (n : Z) (inc : F) (i : Z) (l : list Z) (w : world F) :
  steps n inc (i :: l) w =
    match load_step n inc i tt w with
    | (Ok _, w1) => steps n inc l w1
    | (Raise e, w1) => (Raise e, w1)
    end.
Proof.
  unfold steps. simpl. unfold bind.
  now destruct (load_step n inc i tt w) as [[[]|e] w1].
Qed.

(** Induction on a run of the loop, pass by pass. *)
Lemma steps_ind (n : Z) (inc : F)
    (P : list Z -> world F -> result unit -> world F -> Prop) :
  (forall w, P [] w (Ok tt) w) ->
  (forall i l w w1,
      step_case n inc i w (Ok tt) w1 ->
      P l w1 (fst (steps n inc l w1)) (snd (steps n inc l w1)) ->
      P (i :: l) w (fst (steps n inc l w1)) (snd (steps n inc l w1))) ->
  (forall i l w e w1,
      step_case n inc i w (Raise e) w1 -> P (i :: l) w (Raise e) w1) ->
  forall l w, P l w (fst (steps n inc l w)) (snd (steps n inc l w)).
Proof.
  intros Hnil Hok Hraise l.
  induction l as [|i l IH]; intros w.
  - apply Hnil.
  - rewrite steps_cons.
    pose proof (load_step_cases n inc i w) as Hc.
    destruct (load_step n inc i tt w) as [[[]|e] w1]; simpl in Hc.
    + apply Hok; [exact Hc | apply IH].
    + simpl. now apply Hraise.
Qed.
End LoopFacts.

Section SetupFacts.
Context {F : Type}.

Lemma same_setup_refl (a : notebook F) : same_setup a a.
Proof. unfold same_setup. tauto. Qed.

Lemma same_setup_trans (a b c : notebook F) :
  same_setup a b -> same_setup b c -> same_setup a c.
Proof. unfold same_setup. intuition congruence. Qed.

Lemma same_setup_sym (a b : notebook F) : same_setup a b -> same_setup b a.
Proof. unfold same_setup. intuition congruence. Qed.

Lemma app_same_head (t evs : list (event F)) : t = t ++ evs -> evs = [].
Proof.
  intros Ht. rewrite <- (app_nil_r t) in Ht at 1.
  now apply app_inv_head in Ht.
Qed.

Lemma solves_app (t1 t2 : list (event F)) :
  solves (t1 ++ t2) = solves t1 ++ solves t2.
Proof. apply omap_app. Qed.

Lemma printed_app (t1 t2 : list (event F)) :
  printed (t1 ++ t2) = printed t1 ++ printed t2.
Proof. apply omap_app. Qed.

Lemma visited_loads_app (t1 t2 : list (event F)) :
  visited_loads (t1 ++ t2) = visited_loads t1 ++ visited_loads t2.
Proof. unfold visited_loads. rewrite solves_app. apply omap_app. Qed.

Lemma last_iterate_cons (u0 : list F) (pb : problem F) (g : list F)
    (out : outcome F) (ss : list (problem F * list F * outcome F)) :
  last_iterate u0 ((pb, g, out) :: ss) = last_iterate (iterate out) ss.
Proof.
  unfold last_iterate. rewrite last_cons.
  now destruct (last ss) as [[[? ?] ?]|].
Qed.

(** In a warm chain, the guess of each call after the first is the
    converged output of the call before it. *)
Lemma warm_chain_lookup (ss : list (problem F * list F * outcome F))
    (u0 : list F) (i : nat) pb g out pb' g' out' :
  warm_chain u0 ss ->
  ss !! i = Some (pb, g, out) -> ss !! S i = Some (pb', g', out') ->
  out = Converged g'.
Proof.
  revert u0 i. induction ss as [|[[p0 g0] o0] ss IH]; intros u0 i Hw Hi HS.
  - discriminate.
  - destruct Hw as (Hg & Hlast & Hw).
    destruct i as [|i]; simpl in *.
    + injection Hi as -> -> ->.
      destruct ss as [|[[p1 g1] o1] ss]; [discriminate|].
      injection HS as -> -> ->.
      destruct Hlast as [|Hc]; [discriminate|].
      destruct Hw as (-> & _). exact Hc.
    + eapply IH; eauto.
Qed.

Lemma warm_chain_first (ss : list (problem F * list F * outcome F))
    (u0 : list F) pb g out :
  warm_chain u0 ss -> ss !! 0%nat = Some (pb, g, out) -> g = u0.
Proof.
  destruct ss as [|[[p0 g0] o0] ss]; [discriminate|].
  intros (Hg & _) [= _ <- _]. exact Hg.
Qed.
End SetupFacts.

Section LoopProperties.
Context {F : Type} `{PyFloat F} `{Dolfin F}.
Variables (n : Z) (inc : F).

Lemma steps_trace (l : list Z) (w : world F) :
  exists evs, trace (snd (steps n inc l w)) = trace w ++ evs.
Proof.
  apply steps_ind with (P := fun _ w _ w' =>
    exists evs, trace w' = trace w ++ evs).
  - intros w0. exists []. now rewrite app_nil_r.
  - intros i l0 w0 w1 Hc [evs Hevs]. inversion Hc; subst.
    rewrite Hevs. simpl. eexists. now rewrite <- app_assoc.
  - intros i l0 w0 e w1 Hc.
    inversion Hc; subst; simpl; eauto.
    exists []. now rewrite app_nil_r.
Qed.

(** The loop leaves the setup of the problem alone. *)
Lemma steps_frame (l : list Z) (w : world F) :
  same_setup (nb w) (nb (snd (steps n inc l w))).
Proof.
  apply steps_ind with (P := fun _ w _ w' => same_setup (nb w) (nb w')).
  - intros w0. apply same_setup_refl.
  - intros i l0 w0 w1 Hc IH. eapply same_setup_trans; [|exact IH].
    inversion Hc; subst. unfold same_setup. simpl. tauto.
  - intros i l0 w0 e w1 Hc.
    inversion Hc; subst; unfold same_setup; simpl; tauto.
Qed.

(** Warm start: every solve of the loop starts from the field that
    the previous solve left. *)
Lemma steps_warm (l : list Z) (w : world F) (evs : list (event F)) :
  trace (snd (steps n inc l w)) = trace w ++ evs ->
  warm_chain (nb_u (nb w)) (solves evs) /\
  nb_u (nb (snd (steps n inc l w))) = last_iterate (nb_u (nb w)) (solves evs).
Proof.
  revert evs.
  apply steps_ind with (P := fun _ w _ w' => forall evs,
    trace w' = trace w ++ evs ->
    warm_chain (nb_u (nb w)) (solves evs) /\
    nb_u (nb w') = last_iterate (nb_u (nb w)) (solves evs)).
  - intros w0 evs Hevs. apply app_same_head in Hevs as ->. now split.
  - intros i l0 w0 w1 Hc IH evs Hevs.
    destruct (steps_trace l0 w1) as [evs1 Hevs1].
    destruct (IH evs1 Hevs1) as [IHw IHu].
    inversion Hc; subst. simpl in *.
    rewrite Hevs1, <- app_assoc in Hevs.
    apply app_inv_head in Hevs as <-.
    simpl. rewrite last_iterate_cons. simpl. auto.
  - intros i l0 w0 e w1 Hc evs Hevs.
    inversion Hc; subst; simpl in *.
    + apply app_same_head in Hevs as ->. now split.
    + apply app_inv_head in Hevs as <-. simpl. auto.
    + apply app_inv_head in Hevs as <-. simpl. auto.
Qed.
End LoopProperties.

(** Replace the result of a successful [py_mul] by the product. *)
Ltac use_py_mul :=
  match goal with
  | Hx : py_mul _ _ = Ok _ |- _ => apply py_mul_Ok in Hx as ->
  end.

Section RunProperties.
Context {F : Type} `{PyFloat F} `{Dolfin F}.
Variables (n : Z) (inc : F).

(** The loads of the passes over [l]. *)
Let loads (l : list Z) : list F := map (fun i => fmul inc (of_int (i + 1))) l.

Lemma right_load_traction (a : notebook F) :
  nb_bcs a = [bcl; bcr] ->
  right_load (problem_of a) = Some (fst (fst (nb_r a))).
Proof. intros Hbcs. unfold right_load, problem_of. simpl. now rewrite Hbcs. Qed.

(** Each pass prints once and solves once, in the order of [l], until
    the run ends. *)
Lemma steps_shape (l : list Z) (w : world F) (evs : list (event F)) :
  trace (snd (steps n inc l w)) = trace w ++ evs ->
  exists k, (k <= length l)%nat /\
    printed evs = loads (take k l) /\
    length (solves evs) = k /\
    (nb_bcs (nb w) = [bcl; bcr] -> visited_loads evs = printed evs) /\
    (fst (steps n inc l w) = Ok tt -> k = length l) /\
    Forall (fun e => forall V u, e <> Plot V u) evs.
Proof.
  revert evs.
  apply steps_ind with (P := fun l w res w' => forall evs,
    trace w' = trace w ++ evs ->
    exists k, (k <= length l)%nat /\
      printed evs = loads (take k l) /\
      length (solves evs) = k /\
      (nb_bcs (nb w) = [bcl; bcr] -> visited_loads evs = printed evs) /\
      (res = Ok tt -> k = length l) /\
      Forall (fun e => forall V u, e <> Plot V u) evs).
  - intros w0 evs Hevs. apply app_same_head in Hevs as ->.
    exists 0%nat. repeat split; auto.
  - intros i l0 w0 w1 Hc IH evs Hevs.
    destruct (steps_trace n inc l0 w1) as [evs1 Hevs1].
    specialize (IH evs1 Hevs1).
    inversion Hc; subst. simpl in *.
    destruct IH as (k & Hk & Hp & Hs & Hv & Hok & Hplot).
    rewrite Hevs1, <- app_assoc in Hevs.
    apply app_inv_head in Hevs as <-.
    use_py_mul.
    exists (S k). repeat split; simpl.
    + lia.
    + unfold printed in *. simpl. now rewrite Hp.
    + unfold solves in *. simpl. now rewrite Hs.
    + intros Hbcs. unfold visited_loads, solves, printed in *. simpl.
      rewrite right_load_traction by exact Hbcs. simpl.
      f_equal. now apply Hv.
    + intros Hres. now rewrite Hok.
    + repeat constructor; try discriminate. exact Hplot.
  - intros i l0 w0 e w1 Hc evs Hevs.
    inversion Hc; subst; simpl in *.
    + apply app_same_head in Hevs as ->.
      exists 0%nat. repeat split; auto; try lia. discriminate.
    + apply app_inv_head in Hevs as <-. use_py_mul.
      exists 1%nat. repeat split; simpl; try lia; try discriminate.
      * intros Hbcs. unfold visited_loads, solves, printed. simpl.
        now rewrite right_load_traction by exact Hbcs.
      * repeat constructor; discriminate.
    + apply app_inv_head in Hevs as <-. use_py_mul.
      exists 1%nat. repeat split; simpl; try lia; try discriminate.
      * intros Hbcs. unfold visited_loads, solves, printed. simpl.
        now rewrite right_load_traction by exact Hbcs.
      * repeat constructor; discriminate.
Qed.

(** A run that completes appends the load of every pass to
    [disp_neo] and the stress sampled after every solve to
    [stress_neo]. *)
Lemma steps_records (l : list Z) (w : world F) (evs : list (event F)) :
  fst (steps n inc l w) = Ok tt ->
  trace (snd (steps n inc l w)) = trace w ++ evs ->
  exists ms,
    nb_disp_neo (nb (snd (steps n inc l w)))
      = nb_disp_neo (nb w) ++ map Float (loads l) /\
    nb_stress_neo (nb (snd (steps n inc l w)))
      = nb_stress_neo (nb w) ++ map Float ms /\
    Forall2 (fun s m =>
               get_stress (nb_Z (nb w)) (nb_P (nb w)) (iterate (snd s))
                 get_stress_pos get_stress_component = Ok m)
            (solves evs) ms.
Proof.
  revert evs.
  apply steps_ind with (P := fun l w res w' => forall evs,
    res = Ok tt -> trace w' = trace w ++ evs ->
    exists ms,
      nb_disp_neo (nb w') = nb_disp_neo (nb w) ++ map Float (loads l) /\
      nb_stress_neo (nb w') = nb_stress_neo (nb w) ++ map Float ms /\
      Forall2 (fun s m =>
                 get_stress (nb_Z (nb w)) (nb_P (nb w)) (iterate (snd s))
                   get_stress_pos get_stress_component = Ok m)
              (solves evs) ms).
  - intros w0 evs _ Hevs. apply app_same_head in Hevs as ->.
    exists []. simpl. rewrite !app_nil_r. repeat split. constructor.
  - intros i l0 w0 w1 Hc IH evs Hres Hevs.
    destruct (steps_trace n inc l0 w1) as [evs1 Hevs1].
    specialize (IH evs1 Hres Hevs1).
    inversion Hc; subst. simpl in *.
    destruct IH as (ms & Hd & Hs & Hm).
    rewrite Hevs1, <- app_assoc in Hevs.
    apply app_inv_head in Hevs as <-. use_py_mul.
    exists (s :: ms). simpl. rewrite Hd, Hs, <- !app_assoc. simpl.
    repeat split. constructor; assumption.
  - intros i l0 w0 e w1 _ evs [=].
Qed.

(** A solve that fails ends the run: it is the last event, the
    failure is what the loop raises, and [u] is left as the solver
    left it. *)
Lemma steps_diverged (l : list Z) (w : world F) (evs : list (event F))
    (pb : problem F) (g u : list F) :
  trace (snd (steps n inc l w)) = trace w ++ evs ->
  In (Solve pb g (Diverged u)) evs ->
  fst (steps n inc l w) = Raise RuntimeError /\
  (exists evs0, evs = evs0 ++ [Solve pb g (Diverged u)]) /\
  nb_u (nb (snd (steps n inc l w))) = u.
Proof.
  revert evs.
  apply steps_ind with (P := fun l w res w' => forall evs,
    trace w' = trace w ++ evs ->
    In (Solve pb g (Diverged u)) evs ->
    res = Raise RuntimeError /\
    (exists evs0, evs = evs0 ++ [Solve pb g (Diverged u)]) /\
    nb_u (nb w') = u).
  - intros w0 evs Hevs. apply app_same_head in Hevs as ->. intros [].
  - intros i l0 w0 w1 Hc IH evs Hevs Hin.
    destruct (steps_trace n inc l0 w1) as [evs1 Hevs1].
    specialize (IH evs1 Hevs1).
    inversion Hc; subst. simpl in *.
    rewrite Hevs1, <- app_assoc in Hevs.
    apply app_inv_head in Hevs as <-.
    destruct Hin as [[=]|[[=]|Hin]].
    destruct (IH Hin) as (Hres & [evs0 ->] & Hu).
    repeat split; [assumption| |assumption].
    eexists (_ :: _ :: evs0). reflexivity.
  - intros i l0 w0 e w1 Hc evs Hevs Hin.
    inversion Hc; subst; simpl in *.
    + apply app_same_head in Hevs as ->. destruct Hin.
    + apply app_inv_head in Hevs as <-.
      destruct Hin as [[=]|[[= <- <- <-]|[]]].
      repeat split. now exists [Print (i + 1) n x].
    + apply app_inv_head in Hevs as <-.
      destruct Hin as [[=]|[[=]|[]]].
Qed.
End RunProperties.

Section CellFacts.
Context {F : Type} `{PyFloat F} `{Dolfin F}.

Lemma plot_beam_eq (V : FunctionSpace) (u : list F) (w : world F) :
  plot_beam V u w =
    match plot_beam_arrays V u with
    | Ok _ => (Ok tt, World (nb w) (trace w ++ [Plot V u]))
    | Raise e => (Raise e, w)
    end.
Proof.
  unfold plot_beam, bind, lift, emit.
  now destruct (plot_beam_arrays V u).
Qed.

Lemma cell29_eq (n_steps : Z) (max_disp : F) (w : world F) :
  cell29 n_steps max_disp w =
    let w0 := World (with_u (map (fun _ => of_int 0) (nb_u (nb w))) (nb w))
                    (trace w) in
    match py_truediv max_disp n_steps with
    | Raise e => (Raise e, w0)
    | Ok increment =>
        let w1 := World (with_stress_neo [Int 0]
                          (with_disp_neo [Int 0] (nb w0))) (trace w) in
        match steps n_steps increment (range n_steps) w1 with
        | (Ok _, w2) =>
            match plot_beam_arrays (nb_V (nb w2)) (nb_u (nb w2)) with
            | Ok _ =>
                (Ok tt, World (nb w2)
                          (trace w2 ++ [Plot (nb_V (nb w2)) (nb_u (nb w2))]))
            | Raise e => (Raise e, w2)
            end
        | (Raise e, w2) => (Raise e, w2)
        end
    end.
Proof.
  unfold cell29, load_stepping, steps, reset_solution,
    bind, lift, gets, modify.
  simpl.
  destruct (py_truediv max_disp n_steps) as [increment|e]; [|reflexivity].
  simpl.
  destruct (for_each _ _ _ _) as [[[]|e] w2]; [|reflexivity].
  apply plot_beam_eq.
Qed.

Lemma same_but_r_refl (a : notebook F) : same_but_r a a.
Proof. now intros v. Qed.

Lemma same_but_r_u (a b : notebook F) : same_but_r a b -> nb_u a = nb_u b.
Proof.
  intros Hab. specialize (Hab (nb_r a)).
  now apply (f_equal nb_u) in Hab.
Qed.

(** The loop is a function of the namespace up to [r], which every
    pass assigns before it is read. *)
Lemma steps_deterministic (n : Z) (inc : F) (l : list Z) (w1 w2 : world F) :
  same_but_r (nb w1) (nb w2) ->
  fst (steps n inc l w1) = fst (steps n inc l w2) /\
  same_but_r (nb (snd (steps n inc l w1))) (nb (snd (steps n inc l w2))) /\
  exists evs, trace (snd (steps n inc l w1)) = trace w1 ++ evs /\
              trace (snd (steps n inc l w2)) = trace w2 ++ evs.
Proof.
  revert w1 w2. induction l as [|i l IH]; intros w1 w2 Hsim.
  - simpl. split; [reflexivity|]. split; [assumption|].
    exists []. now rewrite !app_nil_r.
  - rewrite !steps_cons, !load_step_eq. unfold load_step_outcome.
    destruct (py_mul inc (i + 1)) as [x|e]; cbv beta iota zeta.
    2:{ simpl. split; [reflexivity|]. split; [assumption|].
        exists []. now rewrite !app_nil_r. }
    rewrite (Hsim (x, of_int 0, of_int 0)), (same_but_r_u Hsim).
    destruct (newton _ _) as [u|u]; cbv beta iota zeta.
    2:{ simpl. split; [reflexivity|]. split; [apply same_but_r_refl|]. eauto. }
    destruct (get_stress _ _ _ _ _) as [s|e]; cbv beta iota zeta.
    2:{ simpl. split; [reflexivity|]. split; [apply same_but_r_refl|]. eauto. }
    match goal with
    | |- context [steps n inc l (World ?a ?t1)] =>
        match goal with
        | |- context [steps n inc l (World a ?t2)] =>
            lazymatch t1 with
            | t2 => fail
            | _ => destruct (IH (World a t1) (World a t2)
                               (same_but_r_refl a))
                     as (Hres & Hnb & evs & Ht1 & Ht2)
            end
        end
    end.
    split; [assumption|]. split; [assumption|].
    rewrite Ht1, Ht2. cbn [trace]. rewrite <- !app_assoc. eauto.
Qed.
End CellFacts.

Section CellCases.
Context {F : Type} `{PyFloat F} `{Dolfin F}.

Lemma events_of_eq {A} (m : M F A) (w : world F) (evs : list (event F)) :
  trace (snd (m w)) = trace w ++ evs -> events_of m w = evs.
Proof. intros Ht. unfold events_of. rewrite Ht. apply drop_app_length. Qed.

Lemma drop_new_events (t t' evs more : list (event F)) :
  t' = t ++ evs -> drop (length t) (t' ++ more) = evs ++ more.
Proof. intros ->. now rewrite <- app_assoc, drop_app_length. Qed.

Lemma cell29_cases (n_steps : Z) (max_disp : F) (w : world F) :
  cell29_case n_steps max_disp w
    (fst (cell29 n_steps max_disp w)) (snd (cell29 n_steps max_disp w))
    (events_of (cell29 n_steps max_disp) w).
Proof.
  unfold events_of. rewrite cell29_eq. cbv zeta.
  fold (after_reset w). fold (before_loop w).
  destruct (py_truediv max_disp n_steps) as [increment|e] eqn:Hdiv.
  - destruct (steps_trace n_steps increment (range n_steps) (before_loop w))
      as [evs Hevs].
    destruct (steps n_steps increment (range n_steps) (before_loop w))
      as [[[]|e] w2] eqn:Hrun; simpl in Hevs |- *.
    + destruct (plot_beam_arrays (nb_V (nb w2)) (nb_u (nb w2)))
        as [arrays|e] eqn:Hplot; simpl.
      * rewrite drop_new_events with (evs := evs) by exact Hevs.
        now apply cell29_completed
          with (increment := increment) (arrays := arrays).
      * rewrite Hevs, drop_app_length.
        now apply cell29_unplotted with (increment := increment).
    + rewrite Hevs, drop_app_length.
      now apply cell29_aborted with (increment := increment).
  - simpl. rewrite drop_all. now constructor.
Qed.
End CellCases.

Section Cell29Completed.
Context {F : Type} `{PyFloat F} `{Dolfin F}.

Lemma range_length (n : Z) : length (range n) = Z.to_nat n.
Proof. unfold range. now rewrite length_map, length_seq. Qed.

Lemma range_nonpos (n : Z) : (n <= 0)%Z -> range n = [].
Proof. intros Hn. unfold range. now rewrite Z2Nat.nonpos. Qed.

Lemma map_range_succ {A} (f : Z -> A) (n : Z) :
  map (fun i => f (i + 1)%Z) (range n) = map f (seqZ 1 n).
Proof.
  unfold range, seqZ. change (@fmap list _) with (@map).
  rewrite !map_map. reflexivity.
Qed.

(** What a run of cell 29 that completes has done. *)
Lemma cell29_case_completed (n_steps : Z) (max_disp : F) (w w' : world F)
    (evs : list (event F)) :
  cell29_case n_steps max_disp w (Ok tt) w' evs ->
  exists increment ms,
    py_truediv max_disp n_steps = Ok increment /\
    let xs := map (fun k => fmul increment (of_int k)) (seqZ 1 n_steps) in
    printed evs = xs /\
    (nb_bcs (nb w) = [bcl; bcr] -> visited_loads evs = xs) /\
    nb_disp_neo (nb w') = Int 0 :: map Float xs /\
    nb_stress_neo (nb w') = Int 0 :: map Float ms /\
    length ms = Z.to_nat n_steps /\
    Forall2 (fun s m =>
               get_stress (nb_Z (nb w)) (nb_P (nb w)) (iterate (snd s))
                 get_stress_pos get_stress_component = Ok m)
            (solves evs) ms.
Proof.
  intros Hc.
  inversion Hc as [|inc w2 evs2 arrays Hdiv Hrun Ht Hplot Hres Hw Hev| |];
    subst.
  pose proof (steps_shape n_steps inc (range n_steps) (before_loop w) evs2)
    as Hs.
  pose proof (steps_records n_steps inc (range n_steps) (before_loop w) evs2)
    as Hr.
  rewrite Hrun in Hs, Hr. simpl in Hs, Hr.
  destruct (Hs Ht) as (k & _ & Hp & Hn & Hv & Hk & _).
  destruct (Hr eq_refl Ht) as (ms & Hd & Hst & Hm).
  cbv beta in Hp, Hd.
  rewrite (Hk eq_refl), firstn_all,
    (map_range_succ (fun k => fmul inc (of_int k))) in Hp.
  rewrite (map_range_succ (fun k => fmul inc (of_int k))) in Hd.
  exists inc, ms. split; [exact Hdiv|]. cbv zeta.
  assert (printed (evs2 ++ [Plot (nb_V (nb w2)) (nb_u (nb w2))])
          = printed evs2) as Hp'
    by (rewrite printed_app; apply app_nil_r).
  assert (visited_loads (evs2 ++ [Plot (nb_V (nb w2)) (nb_u (nb w2))])
          = visited_loads evs2) as Hv'
    by (rewrite visited_loads_app; apply app_nil_r).
  assert (solves (evs2 ++ [Plot (nb_V (nb w2)) (nb_u (nb w2))])
          = solves evs2) as Hs'
    by (rewrite solves_app; apply app_nil_r).
  rewrite Hp', Hv', Hs'. simpl.
  split; [exact Hp|]. split; [intros Hb; rewrite <- Hp; now apply Hv|].
  split; [exact Hd|]. split; [exact Hst|]. split; [|exact Hm].
  apply Forall2_length in Hm. rewrite <- Hm, Hn, (Hk eq_refl).
  apply range_length.
Qed.
End Cell29Completed.

(** ** Arithmetic of the two float models *)

Section ExactArithmetic.
Local Open Scope R_scope.

Lemma exact_truediv (x : R) (k : Z) :
  k <> 0%Z -> py_truediv x k = Ok (x / IZR k).
Proof.
  intros Hk. unfold py_truediv, py_float. simpl. unfold Exact.zero.
  destruct (Req_dec_T (IZR k) 0) as [H0|_]; [|reflexivity].
  now apply eq_IZR_R0 in H0.
Qed.

Lemma exact_truediv_0 (x : R) : py_truediv x 0 = Raise ZeroDivisionError.
Proof.
  unfold py_truediv, py_float. simpl. unfold Exact.zero.
  now destruct (Req_dec_T 0 0).
Qed.

Lemma exact_loads (L : R) (n : Z) :
  (1 <= n)%Z ->
  map (fun k => fmul (L / IZR n) (of_int k)) (seqZ 1 n)
    = map (fun k => L * IZR k / IZR n) (seqZ 1 n).
Proof.
  intros Hn. apply map_ext. intros k. simpl.
  assert (IZR n <> 0) by (apply not_0_IZR; lia).
  now field.
Qed.

Lemma exact_loads_lookup (L : R) (n : Z) (i : nat) (x : R) :
  map (fun k => L * IZR k / IZR n) (seqZ 1 n) !! i = Some x ->
  x = L / IZR n * IZR (1 + Z.of_nat i) /\ (Z.of_nat i < n)%Z.
Proof.
  change (@map Z R) with (@fmap list _ Z R).
  rewrite list_lookup_fmap. intros Hx.
  destruct (seqZ 1 n !! i) as [k|] eqn:Hk; [|discriminate].
  apply lookup_seqZ in Hk as [-> Hlt]. injection Hx as <-.
  split; [|exact Hlt]. unfold Rdiv. ring.
Qed.

Lemma exact_loads_increasing (L : R) (n : Z) (i j : nat) (x y : R) :
  (1 <= n)%Z -> 0 < L -> (i < j)%nat ->
  map (fun k => L * IZR k / IZR n) (seqZ 1 n) !! i = Some x ->
  map (fun k => L * IZR k / IZR n) (seqZ 1 n) !! j = Some y ->
  x < y.
Proof.
  intros Hn HL Hij Hx Hy.
  apply exact_loads_lookup in Hx as [-> _].
  apply exact_loads_lookup in Hy as [-> _].
  assert (0 < IZR n) by (apply IZR_lt; lia).
  assert (0 < L / IZR n) by (now apply Rdiv_lt_0_compat).
  apply Rmult_lt_compat_l; [assumption|]. apply IZR_lt. lia.
Qed.
End ExactArithmetic.

Section Binary64Arithmetic.
Lemma binary64_truediv_0 (x : spec_float) :
  py_truediv x 0 = Raise ZeroDivisionError.
Proof. reflexivity. Qed.

Lemma binary64_truediv_10 (x : spec_float) :
  py_truediv x 10 = Ok (fdiv x (of_int 10)).
Proof. reflexivity. Qed.

(** [10.0/10*k] is exactly [k] for [k = 1..10]. *)
Lemma binary64_unit_loads :
  map (fun k => fmul (fdiv (of_int 10) (of_int 10)) (of_int k)) (seqZ 1 10)
    = map Binary64.of_Z (seqZ 1 10).
Proof. vm_compute. reflexivity. Qed.
End Binary64Arithmetic.

Section Completion.
Context {F : Type} `{PyFloat F} `{Dolfin F}.

Lemma steps_complete (n : Z) (inc : F) (l : list Z) (w : world F) :
  Forall (fun i => int_fits (i + 1) = true) l ->
  always_converges ->
  stress_samplable (nb_P (nb w)) (nb_Z (nb w)) (length (nb_u (nb w))) ->
  fst (steps n inc l w) = Ok tt.
Proof.
  intros Hfits Hconv. revert w.
  induction Hfits as [|i l Hi _ IH]; intros w Hsamp; [reflexivity|].
  rewrite steps_cons, load_step_eq. unfold load_step_outcome.
  unfold py_mul, py_float. rewrite Hi. simpl.
  destruct (Hconv (problem_of
              (with_r (fmul inc (of_int (i + 1)), of_int 0, of_int 0) (nb w)))
              (nb_u (nb w))) as (u & -> & Hlen).
  simpl.
  destruct Hsamp as [Hpos Hproj].
  destruct (get_stress_nodal (nb_Z (nb w)) (nb_P (nb w)) u get_stress_pos
              (component := 0) Hpos (Hproj u Hlen))
    as (j & s & _ & _ & _ & Hs); [lia|].
  change (Z.of_nat 0) with get_stress_component in Hs.
  rewrite Hs. apply IH. simpl. rewrite Hlen. now split.
Qed.

Lemma always_converges_keeps_size : always_converges -> keeps_size.
Proof.
  intros Hconv pb guess. now destruct (Hconv pb guess) as (u & -> & Hlen).
Qed.

Section Sizes.
Hypothesis Hsize : keeps_size.

Lemma newton_size (u : list F) (pb : problem F) (guess : list F) :
  (newton pb guess = Converged u \/ newton pb guess = Diverged u) ->
  length u = length guess.
Proof.
  intros Hn. pose proof (Hsize pb guess) as Hk.
  now destruct Hn as [Hn|Hn]; rewrite Hn in Hk.
Qed.

Lemma steps_size (n : Z) (inc : F) (l : list Z) (w : world F) :
  length (nb_u (nb (snd (steps n inc l w)))) = length (nb_u (nb w)).
Proof.
  apply steps_ind with (P := fun l w res w' =>
    length (nb_u (nb w')) = length (nb_u (nb w))).
  - reflexivity.
  - intros i l0 w0 w1 Hc IH.
    inversion Hc as [x u s Hx nb1 Hn Hs Hres Hw| | |]; subst.
    rewrite IH. simpl. apply newton_size with (pb := problem_of nb1). now left.
  - intros i l0 w0 e w1 Hc.
    inversion Hc as [|e' Hx|x u Hx nb1 Hn|x u e' Hx nb1 Hn Hs]; subst;
      simpl; [reflexivity| |].
    + apply newton_size with (pb := problem_of nb1). now right.
    + apply newton_size with (pb := problem_of nb1). now left.
Qed.
End Sizes.

Lemma cell29_complete (n_steps : Z) (max_disp increment : F) (w : world F) :
  py_truediv max_disp n_steps = Ok increment ->
  Forall (fun i => int_fits (i + 1) = true) (range n_steps) ->
  always_converges ->
  stress_samplable (nb_P (nb w)) (nb_Z (nb w)) (length (nb_u (nb w))) ->
  nodal_values 3 (nb_V (nb w)) (nb_u (nb w)) ->
  fst (cell29 n_steps max_disp w) = Ok tt.
Proof.
  intros Hdiv Hfits Hconv Hsamp Hnodal. rewrite cell29_eq. cbv zeta.
  rewrite Hdiv.
  match goal with
  | |- context [steps n_steps increment (range n_steps) ?w1] =>
      assert (fst (steps n_steps increment (range n_steps) w1) = Ok tt)
        as Hrun
        by (apply steps_complete;
            [exact Hfits|exact Hconv|simpl; rewrite length_map; exact Hsamp]);
      pose proof (steps_size (always_converges_keeps_size Hconv)
                    n_steps increment (range n_steps) w1) as Hlen;
      pose proof (steps_frame n_steps increment (range n_steps) w1)
        as (_ & HV & _);
      destruct (steps n_steps increment (range n_steps) w1)
        as [[[]|e] w2]
  end; [|discriminate Hrun].
  simpl in Hlen, HV. rewrite length_map in Hlen.
  destruct (@plot_beam_defined _ _ _ (nb_V (nb w2)) (nb_u (nb w2)))
    as (arrays & ->); [|reflexivity].
  rewrite <- HV. now apply nodal_values_size with (u := nb_u (nb w)).
Qed.
End Completion.

(** ** The claims about cell 29 *)

Section Cell29.
Context {F : Type} `{PyFloat F} `{Dolfin F}.

Lemma cell29_case_frame (n_steps : Z) (max_disp : F) (w : world F)
    (res : result unit) (w' : world F) (evs : list (event F)) :
  cell29_case n_steps max_disp w res w' evs -> same_setup (nb w) (nb w').
Proof.
  intros [e Hdiv|inc w2 evs2 arrays Hdiv Hrun Ht Hplot
         |inc e w2 evs2 Hdiv Hrun Ht|inc e w2 evs2 Hdiv Hrun Ht Hplot].
  - unfold same_setup. simpl. tauto.
  - pose proof (steps_frame n_steps inc (range n_steps) (before_loop w))
      as Hf.
    rewrite Hrun in Hf. exact Hf.
  - pose proof (steps_frame n_steps inc (range n_steps) (before_loop w))
      as Hf.
    rewrite Hrun in Hf. exact Hf.
  - pose proof (steps_frame n_steps inc (range n_steps) (before_loop w))
      as Hf.
    rewrite Hrun in Hf. exact Hf.
Qed.

Lemma cell29_case_warm (n_steps : Z) (max_disp : F) (w : world F)
    (res : result unit) (w' : world F) (evs : list (event F)) :
  cell29_case n_steps max_disp w res w' evs ->
  warm_chain (map (fun _ => of_int 0) (nb_u (nb w))) (solves evs).
Proof.
  intros [e Hdiv|inc w2 evs2 arrays Hdiv Hrun Ht Hplot
         |inc e w2 evs2 Hdiv Hrun Ht|inc e w2 evs2 Hdiv Hrun Ht Hplot].
  - exact I.
  - rewrite solves_app. simpl. rewrite app_nil_r.
    pose proof (steps_warm n_steps inc (range n_steps) (before_loop w) evs2)
      as Hwarm.
    rewrite Hrun in Hwarm. now destruct (Hwarm Ht).
  - pose proof (steps_warm n_steps inc (range n_steps) (before_loop w) evs2)
      as Hwarm.
    rewrite Hrun in Hwarm. now destruct (Hwarm Ht).
  - pose proof (steps_warm n_steps inc (range n_steps) (before_loop w) evs2)
      as Hwarm.
    rewrite Hrun in Hwarm. now destruct (Hwarm Ht).
Qed.

(** C6. Frame of the load-stepping loop: whatever the step count and
    the increment, and whether the loop completes or a pass raises,
    the namespace after the loop differs from the namespace before it
    at most in [r], [u], [disp_neo] and [stress_neo]: the mesh, the
    function spaces [V] and [Z], the energies with their material
    parameters ([Pi], [P], the residual [G]) and every other variable
    are unchanged.  The same holds for the whole cell. *)
Theorem load_stepping_frame (n_steps : Z) (increment max_disp : F)
    (w : world F) :
  let after_loop := nb (snd (load_stepping n_steps increment w)) in
  let after_cell := nb (snd (cell29 n_steps max_disp w)) in
  (nb_mesh after_loop = nb_mesh (nb w) /\
   nb_V after_loop = nb_V (nb w) /\
   nb_Z after_loop = nb_Z (nb w) /\
   nb_Pi after_loop = nb_Pi (nb w) /\
   nb_P after_loop = nb_P (nb w) /\
   nb_G after_loop = nb_G (nb w)) /\
  same_setup (nb w) after_loop /\
  same_setup (nb w) after_cell.
Proof.
  intros after_loop after_cell.
  assert (same_setup (nb w) after_loop) as Hloop
    by apply (steps_frame n_steps increment (range n_steps) w).
  assert (same_setup (nb w) after_cell) as Hcell
    by apply (cell29_case_frame (cell29_cases n_steps max_disp w)).
  split; [|now split].
  unfold same_setup in Hloop. intuition congruence.
Qed.

(** C2. Warm start.  In a run of cell 29, the initial guess given to
    the solver at any step after the first is exactly the field that
    the solve of the step before returned as converged: between two
    consecutive solves nothing else writes [u]. *)
Theorem warm_start (n_steps : Z) (max_disp : F) (w : world F) (i : nat)
    (pb pb' : problem F) (guess guess' : list F) (out out' : outcome F) :
  solves (events_of (cell29 n_steps max_disp) w) !! i
    = Some (pb, guess, out) ->
  solves (events_of (cell29 n_steps max_disp) w) !! S i
    = Some (pb', guess', out') ->
  out = Converged guess'.
Proof.
  apply warm_chain_lookup with (u0 := map (fun _ => of_int 0) (nb_u (nb w))).
  apply (cell29_case_warm (cell29_cases n_steps max_disp w)).
Qed.

Lemma cell29_case_diverged (n_steps : Z) (max_disp : F) (w : world F)
    (res : result unit) (w' : world F) (evs : list (event F))
    (pb : problem F) (g u : list F) :
  cell29_case n_steps max_disp w res w' evs ->
  In (Solve pb g (Diverged u)) evs ->
  res = Raise RuntimeError /\
  (exists evs0, evs = evs0 ++ [Solve pb g (Diverged u)]) /\
  nb_u (nb w') = u /\
  exists increment k,
    py_truediv max_disp n_steps = Ok increment /\
    (k <= length (range n_steps))%nat /\
    printed evs = map (fun i => fmul increment (of_int (i + 1)))
                      (take k (range n_steps)) /\
    length (solves evs) = k /\
    (nb_bcs (nb w) = [bcl; bcr] -> visited_loads evs = printed evs).
Proof.
  intros [e Hdiv|inc w2 evs2 arrays Hdiv Hrun Ht Hplot
         |inc e w2 evs2 Hdiv Hrun Ht|inc e w2 evs2 Hdiv Hrun Ht Hplot] Hin.
  - destruct Hin.
  - apply in_app_or in Hin as [Hin|[[=]|[]]].
    pose proof (steps_diverged n_steps inc (range n_steps) (before_loop w)
                  evs2 pb g u) as Hd.
    rewrite Hrun in Hd. destruct (Hd Ht Hin) as ([=] & _).
  - pose proof (steps_diverged n_steps inc (range n_steps) (before_loop w)
                  evs2 pb g u) as Hd.
    pose proof (steps_shape n_steps inc (range n_steps) (before_loop w)
                  evs2) as Hs.
    rewrite Hrun in Hd, Hs. simpl in Hd, Hs.
    destruct (Hd Ht Hin) as (Hres & Hlast & Hu).
    destruct (Hs Ht) as (k & Hk & Hp & Hn & Hv & _ & _).
    split; [exact Hres|]. split; [exact Hlast|]. split; [exact Hu|].
    exists inc, k. auto.
  - pose proof (steps_diverged n_steps inc (range n_steps) (before_loop w)
                  evs2 pb g u) as Hd.
    rewrite Hrun in Hd. destruct (Hd Ht Hin) as ([=] & _).
Qed.

(** C3. Non-convergence is fatal.  If some solve of a run of cell 29
    does not converge, that solve is the last thing the cell does
    (no later pass, no plot), the cell raises the solver's
    [RuntimeError], and [u] is left as the failed solve left it.
    Up to there every pass was solved once, at the full loads
    [increment*1, increment*2, ...]: nothing is retried and no load
    is cut. *)
Theorem nonconvergence_fatal (n_steps : Z) (max_disp : F) (w : world F)
    (pb : problem F) (guess u : list F) :
  let evs := events_of (cell29 n_steps max_disp) w in
  In (Solve pb guess (Diverged u)) evs ->
  fst (cell29 n_steps max_disp w) = Raise RuntimeError /\
  (exists evs0, evs = evs0 ++ [Solve pb guess (Diverged u)]) /\
  nb_u (nb (snd (cell29 n_steps max_disp w))) = u /\
  exists increment k,
    py_truediv max_disp n_steps = Ok increment /\
    (k <= length (range n_steps))%nat /\
    printed evs = map (fun i => fmul increment (of_int (i + 1)))
                      (take k (range n_steps)) /\
    length (solves evs) = k /\
    (nb_bcs (nb w) = [bcl; bcr] -> visited_loads evs = printed evs).
Proof.
  intros evs. apply cell29_case_diverged. apply cell29_cases.
Qed.

Lemma constant_map_length {A B} (c : B) (a b : list A) :
  length a = length b -> map (fun _ => c) a = map (fun _ => c) b.
Proof.
  revert b. induction a as [|x a IH]; intros [|y b] Hlen;
    try discriminate; [reflexivity|].
  simpl. f_equal. apply IH. now injection Hlen.
Qed.

Lemma before_loop_same (w1 w2 : world F) :
  same_setup (nb w1) (nb w2) ->
  length (nb_u (nb w1)) = length (nb_u (nb w2)) ->
  same_but_r (nb (before_loop w1)) (nb (before_loop w2)).
Proof.
  destruct w1 as [a t1], w2 as [b t2]. destruct a, b.
  unfold same_setup, same_but_r, before_loop, after_reset,
    with_r, with_u, with_disp_neo, with_stress_neo. simpl.
  intros Hs Hlen v. apply (constant_map_length (of_int 0)) in Hlen.
  intuition congruence.
Qed.

Lemma same_but_r_fields (a b : notebook F) :
  same_but_r a b ->
  nb_V a = nb_V b /\ nb_u a = nb_u b /\
  nb_disp_neo a = nb_disp_neo b /\ nb_stress_neo a = nb_stress_neo b.
Proof.
  intros Hab. specialize (Hab (nb_r a)).
  repeat split.
  - now apply (f_equal nb_V) in Hab.
  - now apply (f_equal nb_u) in Hab.
  - now apply (f_equal nb_disp_neo) in Hab.
  - now apply (f_equal nb_stress_neo) in Hab.
Qed.

(** C4. Re-running is deterministic.  Run cell 29 twice with the same
    step count and target load, from two namespaces that hold the
    same problem (mesh, spaces, energies, boundary conditions) but
    possibly different leftovers in [u], [r] and the two lists.  When
    the increment can be computed, both runs end the same way, leave
    the same field in [u] and the same recorded lists, and made the
    same solver calls.  The solver is a function of the problem and
    the initial guess. *)
Theorem rerun_deterministic (n_steps : Z) (max_disp increment : F)
    (w1 w2 : world F) :
  same_setup (nb w1) (nb w2) ->
  length (nb_u (nb w1)) = length (nb_u (nb w2)) ->
  py_truediv max_disp n_steps = Ok increment ->
  let run1 := cell29 n_steps max_disp w1 in
  let run2 := cell29 n_steps max_disp w2 in
  fst run1 = fst run2 /\
  nb_u (nb (snd run1)) = nb_u (nb (snd run2)) /\
  nb_disp_neo (nb (snd run1)) = nb_disp_neo (nb (snd run2)) /\
  nb_stress_neo (nb (snd run1)) = nb_stress_neo (nb (snd run2)) /\
  events_of (cell29 n_steps max_disp) w1
    = events_of (cell29 n_steps max_disp) w2.
Proof.
  intros Hsetup Hlen Hdiv run1 run2. subst run1 run2.
  unfold events_of. rewrite !cell29_eq. cbv zeta.
  fold (after_reset w1) (after_reset w2).
  fold (before_loop w1) (before_loop w2). rewrite Hdiv.
  pose proof (before_loop_same w1 w2 Hsetup Hlen) as Hsim.
  apply steps_deterministic
    with (n := n_steps) (inc := increment) (l := range n_steps) in Hsim.
  destruct Hsim as (Hres & Hnb & evs & Ht1 & Ht2).
  apply same_but_r_fields in Hnb as (HV & Hu & Hd & Hs).
  destruct (steps n_steps increment (range n_steps) (before_loop w1))
    as [r1 w1'].
  destruct (steps n_steps increment (range n_steps) (before_loop w2))
    as [r2 w2'].
  simpl in *. subst r2.
  destruct r1 as [[]|e]; simpl.
  - rewrite HV, Hu.
    destruct (plot_beam_arrays (nb_V (nb w2')) (nb_u (nb w2')))
      as [arrays|e]; simpl.
    + repeat split; try assumption.
      rewrite drop_new_events with (evs := evs) by exact Ht1.
      now rewrite drop_new_events with (evs := evs) by exact Ht2.
    + repeat split; try assumption.
      now rewrite Ht1, Ht2, !drop_app_length.
  - repeat split; try assumption.
    now rewrite Ht1, Ht2, !drop_app_length.
Qed.
End Cell29.

Lemma Ok_inj {A} (a b : A) : Ok a = Ok b -> a = b.
Proof. now intros [=]. Qed.

(** C1. The load path.  For every step count [n >= 1] and every
    target load [L], in any float arithmetic and so in double
    precision, a run of cell 29 that completes calls the solver at
    exactly [n] loads, the floats [(L/n)*1, (L/n)*2, ..., (L/n)*n] in
    this order, and leaves in [disp_neo] the zero point followed by
    these loads and in [stress_neo] the zero point followed by the
    stress sampled after each solve: two lists of [n+1] entries.  In
    exact arithmetic these loads are [L*1/n, ..., L*n/n], and they
    increase strictly when [L > 0].  In binary64, for [L = 10.0] and
    [n = 10] the solver is called at exactly [1.0, 2.0, ..., 10.0],
    which increase strictly, and [disp_neo] is [0, 1.0, ..., 10.0],
    11 entries. *)
Theorem load_path :
  (forall (F : Type) (PF : PyFloat F) (D : Dolfin F) (n : Z) (L : F)
          (w : world F),
      (1 <= n)%Z -> nb_bcs (nb w) = [bcl; bcr] ->
      fst (cell29 n L w) = Ok tt ->
      let xs := map (fun k => fmul (fdiv L (of_int n)) (of_int k))
                    (seqZ 1 n) in
      let after := nb (snd (cell29 n L w)) in
      visited_loads (events_of (cell29 n L) w) = xs /\
      length xs = Z.to_nat n /\
      nb_disp_neo after = Int 0 :: map Float xs /\
      exists ms,
        nb_stress_neo after = Int 0 :: map Float ms /\
        length ms = Z.to_nat n /\
        Forall2 (fun s m =>
                   get_stress (nb_Z (nb w)) (nb_P (nb w)) (iterate (snd s))
                     get_stress_pos get_stress_component = Ok m)
                (solves (events_of (cell29 n L) w)) ms) /\
  (forall (n : Z) (L : R),
      (1 <= n)%Z ->
      let xs := map (fun k => @fmul R exact (fdiv L (of_int n)) (of_int k))
                    (seqZ 1 n) in
      xs = map (fun k => (L * IZR k / IZR n)%R) (seqZ 1 n) /\
      ((0 < L)%R ->
       forall i j x y, (i < j)%nat ->
         xs !! i = Some x -> xs !! j = Some y -> (x < y)%R)) /\
  (forall (D : Dolfin spec_float) (w : world spec_float),
      nb_bcs (nb w) = [bcl; bcr] ->
      fst (cell29 10 (of_int 10) w) = Ok tt ->
      let after := nb (snd (cell29 10 (of_int 10) w)) in
      visited_loads (events_of (cell29 10 (of_int 10)) w)
        = map Binary64.of_Z (seqZ 1 10) /\
      increasing_b64 (map Binary64.of_Z (seqZ 1 10)) = true /\
      nb_disp_neo after
        = Int 0 :: map (fun k => Float (Binary64.of_Z k)) (seqZ 1 10) /\
      length (nb_disp_neo after) = 11%nat /\
      length (nb_stress_neo after) = 11%nat).
Proof.
  split; [|split].
  - intros F PF D n L w Hn Hbcs Hok xs after.
    pose proof (cell29_cases n L w) as Hc. rewrite Hok in Hc.
    apply cell29_case_completed in Hc
      as (inc & ms & Hdiv & _ & Hv & Hd & Hs & Hlen & Hm).
    apply py_truediv_Ok in Hdiv. subst inc.
    split; [now apply Hv|]. split.
    { subst xs. now rewrite length_map, length_seqZ. }
    split; [exact Hd|]. now exists ms.
  - intros n L Hn xs. subst xs.
    change (@fdiv R exact L (of_int n)) with (L / IZR n)%R.
    rewrite exact_loads by exact Hn. split; [reflexivity|].
    intros HL i j x y Hij Hx Hy.
    now apply (exact_loads_increasing (L:=L) (n:=n) (i:=i) (j:=j)).
  - intros D w Hbcs Hok after.
    pose proof (cell29_cases 10 (of_int 10) w) as Hc. rewrite Hok in Hc.
    apply cell29_case_completed in Hc
      as (inc & ms & Hdiv & _ & Hv & Hd & Hs & Hlen & _).
    rewrite binary64_truediv_10 in Hdiv. apply Ok_inj in Hdiv. subst inc.
    rewrite binary64_unit_loads in Hv, Hd.
    split; [now apply Hv|]. split; [vm_compute; reflexivity|]. subst after.
    rewrite Hd, Hs, map_map. split; [reflexivity|].
    simpl. rewrite !length_map, Hlen. split; reflexivity.
Qed.

(** C5. Step counts that are not positive.  With [n_steps = 0] the
    cell raises [ZeroDivisionError] at line 372, in binary64 as in
    exact arithmetic: [u] has been reset, nothing is solved and the two
    lists are left as they were.  A negative step count is not
    rejected: whenever the increment can be computed, the loop body is
    never entered, the cell leaves the one-point lists [[0]] and [[0]]
    and goes on to [plot_beam] with the zero field; when [u] held
    three values for each node of [V] it plots that field and returns
    normally (otherwise the exception of [plot_beam] is the cell's). *)
Theorem nonpositive_step_count :
  (forall (D : Dolfin spec_float) (max_disp : spec_float)
          (w : world spec_float),
      cell29 0 max_disp w = (Raise ZeroDivisionError, after_reset w)) /\
  (forall (D : Dolfin R) (max_disp : R) (w : world R),
      cell29 0 max_disp w = (Raise ZeroDivisionError, after_reset w)) /\
  (forall (F : Type) (PF : PyFloat F) (D : Dolfin F) (n_steps : Z)
          (max_disp increment : F) (w : world F),
      (n_steps < 0)%Z ->
      py_truediv max_disp n_steps = Ok increment ->
      let zero := map (fun _ => of_int 0) (nb_u (nb w)) in
      let plotted :=
        (Ok tt,
         World (nb (before_loop w)) (trace w ++ [Plot (nb_V (nb w)) zero])) in
      cell29 n_steps max_disp w
        = match plot_beam_arrays (nb_V (nb w)) zero with
          | Ok _ => plotted
          | Raise e => (Raise e, before_loop w)
          end /\
      (nodal_values 3 (nb_V (nb w)) (nb_u (nb w)) ->
       cell29 n_steps max_disp w = plotted)).
Proof.
  split; [|split].
  - intros D max_disp w. rewrite cell29_eq. cbv zeta.
    now rewrite binary64_truediv_0.
  - intros D max_disp w. rewrite cell29_eq. cbv zeta.
    now rewrite exact_truediv_0.
  - intros F PF D n_steps max_disp increment w Hn Hdiv zero plotted.
    assert (cell29 n_steps max_disp w
            = match plot_beam_arrays (nb_V (nb w)) zero with
              | Ok _ => plotted
              | Raise e => (Raise e, before_loop w)
              end) as Hcell.
    { rewrite cell29_eq. cbv zeta. rewrite Hdiv.
      now rewrite range_nonpos by lia. }
    split; [exact Hcell|].
    intros Hnodal. rewrite Hcell.
    destruct (@plot_beam_defined _ _ _ (nb_V (nb w)) zero) as (arrays & ->);
      [|reflexivity].
    apply nodal_values_size with (u := nb_u (nb w)); [|exact Hnodal].
    apply length_map.
Qed.

(** ** The demonstration framework is well formed *)

Section DemoFacts.
Context {F : Type} `{PyFloat F}.

Lemma demo_robust_converges : @always_converges F Demo.robust.
Proof.
  intros pb guess. eexists. split; [reflexivity|]. apply length_map.
Qed.

Lemma demo_stress_length (P : energy F) (Z : FunctionSpace) (u : list F) :
  length (Demo.stress P Z u) = (3 * length u)%nat.
Proof.
  unfold Demo.stress. induction u as [|x u IH]; [reflexivity|].
  simpl in IH |- *. rewrite IH. lia.
Qed.

Lemma demo_samplable (P : energy F) (Z : FunctionSpace) :
  fs_rank Z = Tensor ->
  @stress_samplable F Demo.robust P Z 9.
Proof.
  intros HZ. unfold stress_samplable. simpl.
  unfold Demo.tabulate, Demo.value_size. rewrite HZ. simpl.
  split; [lia|]. intros u Hu. rewrite demo_stress_length, Hu. reflexivity.
Qed.
End DemoFacts.

(** ** Runs of cell 29 on the demonstration framework *)

(** C1, counterexample.  In binary64 the loads of a completed run
    need not increase, nor end at [L].  With [L = 0.0] and [n = 2]
    they are [0.0, 0.0].  With the least positive double
    [L = 2**-1074] and [n = 2] the increment [L/2] rounds to zero and
    they are [0.0, 0.0] again.  With [L = 1.0] and [n = 49] the last
    load [(1.0/49)*49] is the double below [1.0]. *)
Lemma load_path_not_increasing :
  let loads n L :=
    visited_loads (events_of (@cell29 _ binary64 Demo.robust n L)
                     (Demo.world0 (Demo.field (1, 1, 1)%Z))) in
  let completes n L :=
    fst (@cell29 _ binary64 Demo.robust n L
           (Demo.world0 (Demo.field (1, 1, 1)%Z))) = Ok tt in
  let tiny := S754_finite false 1 (-1074) in
  (completes 2%Z (Binary64.of_Z 0) /\
   loads 2%Z (Binary64.of_Z 0) = [S754_zero false; S754_zero false] /\
   SFltb (S754_zero false) (S754_zero false) = false) /\
  (SFltb (Binary64.of_Z 0) tiny = true /\
   completes 2%Z tiny /\
   loads 2%Z tiny = [S754_zero false; S754_zero false]) /\
  (completes 49%Z (Binary64.of_Z 1) /\
   last (loads 49%Z (Binary64.of_Z 1))
     = Some (S754_finite false 9007199254740991 (-53)) /\
   SFltb (S754_finite false 9007199254740991 (-53)) (Binary64.of_Z 1)
     = true).
Proof. vm_compute. repeat split. Qed.

Lemma load_path_witness :
  ((1 <= 3)%Z /\
   visited_loads
     (events_of (@cell29 _ binary64 Demo.robust 3 (of_int 1))
        (Demo.world0 (Demo.field (1, 1, 1)%Z)))
     = map (fun k => fmul (fdiv (Binary64.of_Z 1) (Binary64.of_Z 3))
                          (Binary64.of_Z k)) (seqZ 1 3)) /\
  ((1 <= 2)%Z /\ (0 < 1)%R /\
   forall i j x y, (i < j)%nat ->
     map (fun k => (1 / IZR 2 * IZR k)%R) (seqZ 1 2) !! i = Some x ->
     map (fun k => (1 / IZR 2 * IZR k)%R) (seqZ 1 2) !! j = Some y ->
     (x < y)%R) /\
  nb_disp_neo
    (nb (snd (@cell29 _ binary64 Demo.robust 10 (of_int 10)
                (Demo.world0 (Demo.field (1, 1, 1)%Z)))))
    = Int 0 :: map (fun k => Float (Binary64.of_Z k)) (seqZ 1 10).
Proof.
  split; [|split].
  - split; [lia|].
    assert (fst (@cell29 _ binary64 Demo.robust 3 (of_int 1)
                   (Demo.world0 (Demo.field (1, 1, 1)%Z))) = Ok tt) as Hok
      by (vm_compute; reflexivity).
    exact (proj1 (proj1 load_path _ binary64 Demo.robust 3%Z (of_int 1)
                    (Demo.world0 (Demo.field (1, 1, 1)%Z))
                    ltac:(lia) eq_refl Hok)).
  - split; [lia|]. split; [lra|].
    apply (proj2 (proj1 (proj2 load_path) 2%Z 1%R ltac:(lia))). lra.
  - apply (proj2 (proj2 load_path) Demo.robust
             (Demo.world0 (Demo.field (1, 1, 1)%Z))).
    + reflexivity.
    + vm_compute. reflexivity.
Defined.

Lemma warm_start_witness :
  let ss := solves (events_of (@cell29 _ binary64 Demo.robust 3 (of_int 10))
                      (Demo.world0 (Demo.field (1, 1, 1)%Z))) in
  match ss !! 0%nat, ss !! 1%nat with
  | Some (_, _, out), Some (_, guess', _) => out = Converged guess'
  | _, _ => False
  end.
Proof.
  intros ss.
  destruct (ss !! 0%nat) as [[[pb guess] out]|] eqn:H0;
    [|vm_compute in H0; discriminate].
  destruct (ss !! 1%nat) as [[[pb' guess'] out']|] eqn:H1;
    [|vm_compute in H1; discriminate].
  exact (warm_start _ _ _ _ H0 H1).
Defined.

Lemma nonconvergence_fatal_witness :
  let run := @cell29 _ binary64 (Demo.brittle 3) 10 (of_int 10)
               (Demo.world0 (Demo.field (1, 1, 1)%Z)) in
  let evs := events_of (@cell29 _ binary64 (Demo.brittle 3) 10 (of_int 10))
               (Demo.world0 (Demo.field (1, 1, 1)%Z)) in
  match last evs with
  | Some (Solve pb guess (Diverged u)) =>
      In (Solve pb guess (Diverged u)) evs /\
      fst run = Raise RuntimeError /\ nb_u (nb (snd run)) = u /\
      length (solves evs) = 3%nat
  | _ => False
  end.
Proof.
  intros run evs.
  destruct (last evs) as [[i n x|pb guess [u|u]|V u]|] eqn:Hlast;
    try (vm_compute in Hlast; discriminate).
  assert (In (Solve pb guess (Diverged u)) evs) as Hin.
  { apply last_Some in Hlast as [evs0 ->]. apply in_or_app. right. now left. }
  split; [exact Hin|].
  destruct (nonconvergence_fatal _ _ _ _ _ _ Hin)
    as (Hres & _ & Hu & _).
  split; [exact Hres|]. split; [exact Hu|].
  vm_compute. reflexivity.
Defined.

Lemma rerun_deterministic_witness :
  let w1 := @Demo.world0 _ binary64 (Demo.field (1, 1, 1)%Z) in
  let w2 := @Demo.world1 _ binary64 (Demo.field (2, 5, 9)%Z) in
  same_setup (nb w1) (nb w2) /\
  length (nb_u (nb w1)) = length (nb_u (nb w2)) /\
  nb_u (nb w1) <> nb_u (nb w2) /\
  nb_u (nb (snd (@cell29 _ _ Demo.robust 3 (of_int 10) w1)))
    = nb_u (nb (snd (@cell29 _ _ Demo.robust 3 (of_int 10) w2))) /\
  nb_disp_neo (nb (snd (@cell29 _ _ Demo.robust 3 (of_int 10) w1)))
    = nb_disp_neo (nb (snd (@cell29 _ _ Demo.robust 3 (of_int 10) w2))).
Proof.
  intros w1 w2.
  assert (same_setup (nb w1) (nb w2)) as Hsetup
    by (unfold same_setup; simpl; tauto).
  assert (length (nb_u (nb w1)) = length (nb_u (nb w2))) as Hlen
    by reflexivity.
  assert (py_truediv (of_int 10) 3
          = Ok (fdiv (of_int 10) (Binary64.of_Z 3))) as Hdiv
    by reflexivity.
  destruct (@rerun_deterministic _ _ Demo.robust 3 (of_int 10) _ w1 w2
              Hsetup Hlen Hdiv) as (_ & Hu & Hd & _).
  split; [exact Hsetup|]. split; [exact Hlen|].
  split; [vm_compute; discriminate|]. split; [exact Hu|exact Hd].
Defined.

(** C5, counterexample.  With [n_steps = -1] the cell ends normally:
    no solve, and the one-point lists [[0]] and [[0]]. *)
Lemma negative_step_count_accepted :
  let run := @cell29 _ binary64 Demo.robust (-1) (of_int 10)
               (Demo.world0 (Demo.field (1, 1, 1)%Z)) in
  (-1 < 0)%Z /\
  fst run = Ok tt /\
  nb_disp_neo (nb (snd run)) = [Int 0] /\
  nb_stress_neo (nb (snd run)) = [Int 0] /\
  solves (trace (snd run)) = [].
Proof. vm_compute. repeat split. Qed.

Lemma nonpositive_step_count_witness :
  let w := @Demo.world0 _ binary64 (Demo.field (1, 1, 1)%Z) in
  (-1 < 0)%Z /\
  py_truediv (Binary64.of_Z 10) (-1) = Ok (Binary64.of_Z (-10)) /\
  @nodal_values _ (@Demo.robust _ binary64) 3 (nb_V (nb w)) (nb_u (nb w)) /\
  fst (@cell29 _ binary64 Demo.robust (-1) (of_int 10) w) = Ok tt.
Proof.
  intros w.
  assert (py_truediv (Binary64.of_Z 10) (-1) = Ok (Binary64.of_Z (-10)))
    as Hdiv by (vm_compute; reflexivity).
  assert (@nodal_values _ (@Demo.robust _ binary64) 3 (nb_V (nb w))
            (nb_u (nb w))) as Hnodal by (split; simpl; lia).
  split; [lia|]. split; [exact Hdiv|]. split; [exact Hnodal|].
  destruct (proj2 (proj2 nonpositive_step_count) _ binary64 Demo.robust
              (-1)%Z (of_int 10) (Binary64.of_Z (-10)) w) as (_ & Hrun).
  - lia.
  - exact Hdiv.
  - rewrite (Hrun Hnodal). reflexivity.
Defined.

(** ** The claim about the samplers *)

Lemma row_norm_euclid (pos c : point R) : row_norm pos c = euclid pos c.
Proof. destruct pos as [[x y] z], c as [[cx cy] cz]. reflexivity. Qed.

Lemma norms_lookup (coords : list (point R)) (pos : point R) (j : nat)
    (c : point R) :
  coords !! j = Some c -> norms coords pos !! j = Some (euclid pos c).
Proof.
  intros Hc. unfold norms. change (@map (point R) R) with (@fmap list _ (point R) R).
  now rewrite list_lookup_fmap, Hc, <- row_norm_euclid.
Qed.

Lemma np_argmin_nearest (coords : list (point R)) (pos : point R) (i : nat) :
  np_argmin (norms coords pos) = Ok i -> first_nearest coords pos i.
Proof.
  intros Hi. apply np_argmin_exact in Hi as (v & Hv & Hmin & Hfirst).
  assert (i < length coords)%nat as Hlt.
  { apply lookup_lt_Some in Hv. now rewrite norms_length in Hv. }
  destruct (lookup_lt_is_Some_2 coords i Hlt) as [c Hc].
  rewrite (@norms_lookup coords pos i c Hc) in Hv. injection Hv as <-.
  exists c. split; [exact Hc|]. split.
  - intros j c' Hj. apply (Hmin j). now apply norms_lookup.
  - intros j c' Hji Hj. apply (Hfirst j); [exact Hji|]. now apply norms_lookup.
Qed.

Lemma first_nearest_unique (coords : list (point R)) (pos : point R)
    (i j : nat) :
  first_nearest coords pos i -> first_nearest coords pos j -> i = j.
Proof.
  intros (c & Hc & Hmin & Hfirst) (c' & Hc' & Hmin' & Hfirst').
  destruct (Nat.lt_trichotomy i j) as [Hlt|[Heq|Hgt]]; [|exact Heq|].
  - pose proof (Hfirst' i c Hlt Hc). pose proof (Hmin j c' Hc'). lra.
  - pose proof (Hfirst j c' Hgt Hc'). pose proof (Hmin' i c Hc). lra.
Qed.

Lemma euclid_lt (p c c' : point R) :
  (let '(px, py, pz) := p in
   let '(cx, cy, cz) := c in
   let '(dx, dy, dz) := c' in
   (cx - px) * (cx - px) + (cy - py) * (cy - py) + (cz - pz) * (cz - pz)
   < (dx - px) * (dx - px) + (dy - py) * (dy - py) + (dz - pz) * (dz - pz))%R ->
  (euclid p c < euclid p c')%R.
Proof.
  destruct p as [[px py] pz], c as [[cx cy] cz], c' as [[dx dy] dz].
  intros Hlt. unfold euclid. apply sqrt_lt_1_alt. split; [|exact Hlt].
  pose proof (Rle_0_sqr (cx - px)). pose proof (Rle_0_sqr (cy - py)).
  pose proof (Rle_0_sqr (cz - pz)). unfold Rsqr in *. lra.
Qed.

(** On the three nodes of [Demo], the tip node is the nearest as soon
    as it is nearer than the two others. *)
Lemma demo_tip_nearest (pos : point R) :
  (euclid pos (IZR 10, (1 / 2)%R, IZR 1)
   < euclid pos (IZR 0, (1 / 2)%R, (1 / 2)%R))%R ->
  (euclid pos (IZR 10, (1 / 2)%R, IZR 1)
   < euclid pos (IZR 5, (1 / 2)%R, (1 / 2)%R))%R ->
  first_nearest (@Demo.nodes _ exact) pos 2.
Proof.
  intros H0 H1.
  exists (IZR 10, (1 / 2)%R, IZR 1). split; [reflexivity|]. split.
  - intros [|[|[|j]]] c'; simpl; intros [= <-].
    + left. exact H0.
    + left. exact H1.
    + right. reflexivity.
  - intros [|[|j]] c' Hj; [| |lia]; simpl; intros [= <-]; [exact H0|exact H1].
Qed.

(** In exact arithmetic [get_disp] reads the value of the nearest node. *)
Lemma get_disp_exact {D : Dolfin R} (V : FunctionSpace) (u : list R)
    (pos : point R) (cd i : nat) (x : R) :
  nodal_values 3 V u -> (cd < 3)%nat ->
  first_nearest (node_coordinates 3 V) pos i ->
  u !! (i * 3 + cd)%nat = Some x ->
  get_disp V u pos (Z.of_nat cd) = Ok x.
Proof.
  intros [HV Hu] Hcd Hi Hx.
  destruct (get_disp_nodal V u pos HV Hu Hcd) as (j & y & Hj & _ & Hy & Hg).
  apply np_argmin_nearest in Hj.
  rewrite (first_nearest_unique Hi Hj) in Hx.
  rewrite Hx in Hy. injection Hy as <-. exact Hg.
Qed.

(** C10. The samplers are total and return a nodal value.  For a
    function space with at least one node, a DOF vector of the
    matching size and a component in range, [get_disp] and
    [get_stress] return, for every query position and in any float
    arithmetic, the value of that component at the node whose index
    [np.argmin] picks: no error is raised and no two nodal values are
    combined.  In exact arithmetic that node is the first of the nodes
    at least Euclidean distance from the position, wherever the
    position lies.  In binary64 it is the first node whose computed
    distance is NaN or, when there is none, the first of those whose
    computed distance is least. *)
Theorem samplers_nearest_node :
  (forall (F : Type) (PF : PyFloat F) (D : Dolfin F)
          (V Z : FunctionSpace) (P : energy F) (u : list F) (pos : point F)
          (cd cs : nat),
      nodal_values 3 V u -> (cd < 3)%nat ->
      nodal_values 9 Z (project P Z u) -> (cs < 9)%nat ->
      (exists i x,
          np_argmin (norms (node_coordinates 3 V) pos) = Ok i /\
          u !! (i * 3 + cd)%nat = Some x /\
          get_disp V u pos (Z.of_nat cd) = Ok x) /\
      (exists i x,
          np_argmin (norms (node_coordinates 9 Z) pos) = Ok i /\
          project P Z u !! (i * 9 + cs)%nat = Some x /\
          get_stress Z P u pos (Z.of_nat cs) = Ok x)) /\
  (forall (D : Dolfin R) (V Z : FunctionSpace) (P : energy R) (u : list R)
          (pos : point R) (cd cs : nat),
      nodal_values 3 V u -> (cd < 3)%nat ->
      nodal_values 9 Z (project P Z u) -> (cs < 9)%nat ->
      (exists i x,
          first_nearest (node_coordinates 3 V) pos i /\
          u !! (i * 3 + cd)%nat = Some x /\
          get_disp V u pos (Z.of_nat cd) = Ok x) /\
      (exists i x,
          first_nearest (node_coordinates 9 Z) pos i /\
          project P Z u !! (i * 9 + cs)%nat = Some x /\
          get_stress Z P u pos (Z.of_nat cs) = Ok x)) /\
  (forall (D : Dolfin spec_float) (V Z : FunctionSpace)
          (P : energy spec_float) (u : list spec_float)
          (pos : point spec_float) (cd cs : nat),
      nodal_values 3 V u -> (cd < 3)%nat ->
      nodal_values 9 Z (project P Z u) -> (cs < 9)%nat ->
      (exists i x,
          (first_nan (norms (node_coordinates 3 V) pos) i \/
           first_least (norms (node_coordinates 3 V) pos) i) /\
          u !! (i * 3 + cd)%nat = Some x /\
          get_disp V u pos (Z.of_nat cd) = Ok x) /\
      (exists i x,
          (first_nan (norms (node_coordinates 9 Z) pos) i \/
           first_least (norms (node_coordinates 9 Z) pos) i) /\
          project P Z u !! (i * 9 + cs)%nat = Some x /\
          get_stress Z P u pos (Z.of_nat cs) = Ok x)).
Proof.
  assert (forall (F : Type) (PF : PyFloat F) (D : Dolfin F)
          (V Z : FunctionSpace) (P : energy F) (u : list F) (pos : point F)
          (cd cs : nat),
      nodal_values 3 V u -> (cd < 3)%nat ->
      nodal_values 9 Z (project P Z u) -> (cs < 9)%nat ->
      (exists i x,
          np_argmin (norms (node_coordinates 3 V) pos) = Ok i /\
          u !! (i * 3 + cd)%nat = Some x /\
          get_disp V u pos (Z.of_nat cd) = Ok x) /\
      (exists i x,
          np_argmin (norms (node_coordinates 9 Z) pos) = Ok i /\
          project P Z u !! (i * 9 + cs)%nat = Some x /\
          get_stress Z P u pos (Z.of_nat cs) = Ok x)) as Hany.
  { intros F PF D V Z P u pos cd cs [HV Hu] Hcd [HZ Hs] Hcs. split.
    - destruct (get_disp_nodal V u pos HV Hu Hcd) as (i & x & Hi & _ & Hx & Hg).
      now exists i, x.
    - destruct (get_stress_nodal Z P u pos HZ Hs Hcs)
        as (i & x & Hi & _ & Hx & Hg).
      now exists i, x. }
  split; [exact Hany|]. split.
  - intros D V Z P u pos cd cs HV Hcd HZ Hcs.
    destruct (Hany R exact D V Z P u pos cd cs HV Hcd HZ Hcs)
      as [(i & x & Hi & Hx & Hg) (j & y & Hj & Hy & Hs)].
    split.
    + exists i, x. split; [now apply np_argmin_nearest|now split].
    + exists j, y. split; [now apply np_argmin_nearest|now split].
  - intros D V Z P u pos cd cs HV Hcd HZ Hcs.
    destruct (Hany spec_float binary64 D V Z P u pos cd cs HV Hcd HZ Hcs)
      as [(i & x & Hi & Hx & Hg) (j & y & Hj & Hy & Hs)].
    split.
    + exists i, x. split; [now apply np_argmin_binary64|now split].
    + exists j, y. split; [now apply np_argmin_binary64|now split].
Qed.

(** C10, counterexample.  On the three nodes of [Demo], at a position
    inside the beam the computed distances to the second and to the
    third node are the same double, and [get_disp] returns the value
    of the second node, 5; at [1e18, 0.5, 1.0] the three computed
    distances are the same double, at [2.0**600, 0.5, 1.0] they are
    all infinite, and [get_disp] returns the value of the first node,
    1.  At each of these positions the third node is the only nearest
    one in Euclidean norm, and in exact arithmetic [get_disp] returns
    its value, 9. *)
Lemma samplers_not_nearest :
  let V := VectorFunctionSpace (BoxMesh 20 2 2) "Lagrange" 1 in
  let u64 := @Demo.field _ binary64 (1, 5, 9)%Z in
  let uR := @Demo.field _ exact (1, 5, 9)%Z in
  let sample64 := @get_disp _ binary64 Demo.robust V u64 in
  let sampleR := @get_disp _ exact Demo.robust V uR in
  let nodes64 := @node_coordinates _ (@Demo.robust _ binary64) 3 V in
  let nodesR := @node_coordinates _ (@Demo.robust _ exact) 3 V in
  @nodal_values _ (@Demo.robust _ binary64) 3 V u64 /\
  (@Demo.inside _ binary64
     = (S754_finite false 8528691794332877 (-50),
        S754_finite false 5066549580791808 (-53), S754_zero false) /\
   @Demo.inside _ exact
     = (8528691794332877 / 1125899906842624, 9 / 16, 0)%R /\
   norms nodes64 Demo.inside
     = [S754_finite false 8547540472728699 (-50);
        S754_finite false 5908360236597800 (-51);
        S754_finite false 5908360236597800 (-51)] /\
   sample64 Demo.inside 0%Z = Ok (Binary64.of_Z 5) /\
   first_nearest nodesR Demo.inside 2 /\
   sampleR Demo.inside 0%Z = Ok 9%R) /\
  (@Demo.far _ binary64
     = (S754_finite false 7812500000000000 7,
        S754_finite false 4503599627370496 (-53),
        S754_finite false 4503599627370496 (-52)) /\
   @Demo.far _ exact = (1000000000000000000, 1 / 2, 1)%R /\
   norms nodes64 Demo.far
     = [S754_finite false 7812500000000000 7;
        S754_finite false 7812500000000000 7;
        S754_finite false 7812500000000000 7] /\
   sample64 Demo.far 0%Z = Ok (Binary64.of_Z 1) /\
   first_nearest nodesR Demo.far 2 /\
   sampleR Demo.far 0%Z = Ok 9%R) /\
  (@Demo.huge _ binary64
     = (S754_finite false 4503599627370496 548,
        S754_finite false 4503599627370496 (-53),
        S754_finite false 4503599627370496 (-52)) /\
   norms nodes64 Demo.huge
     = [S754_infinity false; S754_infinity false; S754_infinity false] /\
   sample64 Demo.huge 0%Z = Ok (Binary64.of_Z 1) /\
   first_nearest nodesR Demo.huge 2 /\
   sampleR Demo.huge 0%Z = Ok 9%R).
Proof.
  intros V u64 uR sample64 sampleR nodes64 nodesR.
  assert (@nodal_values _ (@Demo.robust _ exact) 3 V uR) as HR
    by (split; simpl; lia).
  assert (forall pos, first_nearest nodesR pos 2 -> sampleR pos 0%Z = Ok 9%R)
    as Hread.
  { intros pos Hn.
    apply (@get_disp_exact Demo.robust V uR pos 0%nat 2%nat 9%R HR);
      [lia|exact Hn|reflexivity]. }
  assert (first_nearest nodesR Demo.inside 2) as Hinside.
  { apply demo_tip_nearest; apply euclid_lt;
      unfold Demo.inside, flit; simpl; lra. }
  assert (first_nearest nodesR Demo.far 2) as Hfar.
  { apply demo_tip_nearest; apply euclid_lt;
      unfold Demo.far, flit; simpl; lra. }
  assert (first_nearest nodesR Demo.huge 2) as Hhuge.
  { apply demo_tip_nearest; apply euclid_lt;
      unfold Demo.huge, flit; simpl; lra. }
  split; [split; simpl; lia|].
  split; [|split].
  - split; [vm_compute; reflexivity|]. split; [reflexivity|].
    split; [vm_compute; reflexivity|]. split; [vm_compute; reflexivity|].
    split; [exact Hinside|exact (Hread _ Hinside)].
  - split; [vm_compute; reflexivity|]. split; [reflexivity|].
    split; [vm_compute; reflexivity|]. split; [vm_compute; reflexivity|].
    split; [exact Hfar|exact (Hread _ Hfar)].
  - split; [vm_compute; reflexivity|].
    split; [vm_compute; reflexivity|]. split; [vm_compute; reflexivity|].
    split; [exact Hhuge|exact (Hread _ Hhuge)].
Qed.

Lemma samplers_nearest_node_witness :
  let bar_V := nb_V (@Demo.notebook0 _ binary64 []) in
  let bar_Z := nb_Z (@Demo.notebook0 _ binary64 []) in
  let u := @Demo.field _ binary64 (1, 5, 9)%Z in
  let outside := (Binary64.of_Z 25, Binary64.of_Z (-3), Binary64.of_Z 4) in
  @nodal_values _ (@Demo.robust _ binary64) 3 bar_V u /\
  @get_disp _ _ Demo.robust bar_V u outside 0 = Ok (Binary64.of_Z 9) /\
  exists i x,
    first_nearest (@node_coordinates _ (@Demo.robust _ exact) 3 bar_V)
      (25, -3, 4)%R i /\
    @Demo.field _ exact (1, 5, 9)%Z !! (i * 3 + 0)%nat = Some x /\
    @get_disp _ _ Demo.robust bar_V (@Demo.field _ exact (1, 5, 9)%Z)
      (25, -3, 4)%R 0 = Ok x.
Proof.
  intros bar_V bar_Z u outside.
  assert (forall (F : Type) (PF : PyFloat F) (a : Z * Z * Z),
             @nodal_values F (@Demo.robust F PF) 3 bar_V (Demo.field a)) as HV.
  { intros F PF [[a b] c]. split; simpl; lia. }
  assert (forall (F : Type) (PF : PyFloat F) (a : Z * Z * Z) P,
             @nodal_values F (@Demo.robust F PF) 9 bar_Z
               (@project _ (@Demo.robust F PF) P bar_Z (Demo.field a))) as HZ.
  { intros F PF [[a b] c] P. split; simpl; lia. }
  split; [apply HV|]. split; [vm_compute; reflexivity|].
  destruct (proj1 (proj2 samplers_nearest_node) Demo.robust bar_V bar_Z
              (W_neohook 1%R 10%R) (Demo.field (1, 5, 9)%Z)
              (25, -3, 4)%R 0%nat 0%nat)
    as [(i & x & Hn & Hx & Hg) _]; try apply HV; try apply HZ; try lia.
  exists i, x. auto.
Defined.

(** ** Facts about the benchmark loops *)

Section BenchmarkFacts.
Context {F : Type} `{PyFloat F} `{Dolfin F}.

Lemma pressure_step_eq (steps i : Z) (w : world F) :
  pressure_step steps i tt w = pressure_step_outcome steps i w.
Proof.
  unfold pressure_step, pressure_step_outcome, read_total_force, solve,
    run_newton, bind, lift, gets, modify, emit, ret. simpl.
  destruct (nb_total_force (nb w)) as [tf|]; [|reflexivity].
  destruct (py_truediv tf steps) as [q|e]; [|reflexivity].
  destruct (py_mul q (i + 1)) as [x|e]; [|reflexivity].
  simpl. rewrite <- app_assoc.
  now destruct (newton _ _).
Qed.

Lemma bench_step_eq (V : FunctionSpace) (steps i : Z) (l : bench_locals)
    (w : world F) :
  bench_step V steps i l w = bench_step_outcome V steps i l w.
Proof.
  unfold bench_step, bench_step_outcome, read_total_force, run_newton,
    bind, lift, gets, emit, ret. simpl.
  destruct (nb_total_force (nb w)) as [tf|]; [|reflexivity].
  destruct (py_truediv tf steps) as [q|e]; [|reflexivity].
  destruct (py_mul q (i + 1)) as [x|e]; [|reflexivity].
  simpl. destruct (newton _ _) as [u|u]; [|reflexivity].
  now destruct (get_disp _ _ _ _).
Qed.

Lemma with_u_same (a : notebook F) : with_u (nb_u a) a = a.
Proof. now destruct a. Qed.

Lemma with_u_twice (u u' : list F) (a : notebook F) :
  with_u u' (with_u u a) = with_u u' a.
Proof. reflexivity. Qed.

Lemma pressure_loop_cons (steps i : Z) (l : list Z) (w : world F) :
  for_each (i :: l) (pressure_step steps) tt w =
    match pressure_step_outcome steps i w with
    | (Ok _, w1) => for_each l (pressure_step steps) tt w1
    | (Raise e, w1) => (Raise e, w1)
    end.
Proof.
  simpl. unfold bind. rewrite pressure_step_eq.
  now destruct (pressure_step_outcome steps i w) as [[[]|e] w1].
Qed.

(** The loop of cell 43: every pass prints and then solves the one
    problem that the namespace held before the loop; only [u]
    changes. *)
Lemma pressure_loop (steps : Z) (l : list Z) (w : world F) :
  let run := for_each l (pressure_step steps) tt w in
  exists u' evs k,
    nb (snd run) = with_u u' (nb w) /\
    trace (snd run) = trace w ++ evs /\
    Forall (fun s => fst (fst s) = problem_of (nb w)) (solves evs) /\
    (k <= length l)%nat /\
    length (solves evs) = k /\
    (forall tf, nb_total_force (nb w) = Some tf ->
       printed evs = map (fun i => fmul (fdiv tf (of_int steps))
                                        (of_int (i + 1))) (take k l)) /\
    (fst run = Ok tt -> k = length l) /\
    Forall (fun e => forall V u, e <> Plot V u) evs.
Proof.
  revert w. induction l as [|i l IH]; intros w; cbv zeta.
  - exists (nb_u (nb w)), [], 0%nat. simpl.
    rewrite with_u_same, app_nil_r. repeat split; auto.
  - rewrite pressure_loop_cons. unfold pressure_step_outcome.
    destruct (nb_total_force (nb w)) as [tf|] eqn:Htf.
    2:{ exists (nb_u (nb w)), [], 0%nat. simpl.
        rewrite with_u_same, app_nil_r.
        repeat split; auto; try lia; try discriminate.
        all: intros; now rewrite take_0. }
    destruct (py_truediv tf steps) as [q|e] eqn:Hq.
    2:{ exists (nb_u (nb w)), [], 0%nat. simpl.
        rewrite with_u_same, app_nil_r.
        repeat split; auto; try lia; try discriminate.
        all: intros; now rewrite take_0. }
    apply py_truediv_Ok in Hq as ->.
    destruct (py_mul _ (i + 1)) as [x|e] eqn:Hx.
    2:{ exists (nb_u (nb w)), [], 0%nat. simpl.
        rewrite with_u_same, app_nil_r.
        repeat split; auto; try lia; try discriminate.
        all: intros; now rewrite take_0. }
    apply py_mul_Ok in Hx as ->. cbv zeta.
    destruct (newton (problem_of (nb w)) (nb_u (nb w))) as [u|u] eqn:Hn.
    + cbn [iterate]. cbv beta iota.
      match goal with
      | |- context [for_each l _ tt ?w1] => specialize (IH w1)
      end.
      cbv zeta in IH.
      destruct IH as (u' & evs & k & Hnb & Ht & Hpb & Hk & Hs & Hp & Hok & Hpl).
      cbn [nb trace] in Hnb, Ht, Hpb, Hp.
      rewrite with_u_twice in Hnb.
      change (problem_of (with_u u (nb w))) with (problem_of (nb w)) in Hpb.
      change (nb_total_force (with_u u (nb w)))
        with (nb_total_force (nb w)) in Hp.
      exists u', (Print (i + 1) steps (fmul (fdiv tf (of_int steps))
                                           (of_int (i + 1)))
                  :: Solve (problem_of (nb w)) (nb_u (nb w)) (Converged u)
                  :: evs), (S k).
      split; [exact Hnb|]. split; [rewrite Ht, <- app_assoc; reflexivity|].
      split; [constructor; [reflexivity|exact Hpb]|].
      split; [simpl; lia|]. split; [simpl; now rewrite Hs|].
      split.
      { intros tf' [= <-]. unfold printed in *. simpl. f_equal.
        now apply Hp. }
      split; [intros Hres; simpl; now rewrite Hok|].
      repeat constructor; try discriminate. exact Hpl.
    + exists u, [Print (i + 1) steps (fmul (fdiv tf (of_int steps))
                                           (of_int (i + 1)));
                 Solve (problem_of (nb w)) (nb_u (nb w)) (Diverged u)],
             1%nat.
      simpl. split; [reflexivity|]. split; [reflexivity|].
      split; [repeat constructor|]. split; [lia|]. split; [reflexivity|].
      split.
      { now intros tf' [= <-]. }
      split; [discriminate|]. repeat constructor; discriminate.
Qed.
End BenchmarkFacts.

(** ** The claim about cell 43 *)

Section Cell43.
Context {F : Type} `{PyFloat F} `{Dolfin F}.

Lemma cell41_eq (w : world F) :
  cell41 w =
    (Ok tt,
     World (with_bcs [bcl]
             (with_G {| res_W := nb_Pi (nb w); res_Gext := true |}
               (with_pressure (of_int 0) (nb w))))
           (trace w)).
Proof. reflexivity. Qed.

Lemma cell43_eq (w : world F) :
  cell43 w =
    let w0 := World (with_total_force (flit 4 1000)
                      (with_u (map (fun _ => of_int 0) (nb_u (nb w))) (nb w)))
                    (trace w) in
    match for_each (range 10) (pressure_step 10) tt w0 with
    | (Ok _, w1) =>
        match plot_beam_arrays (nb_V (nb w1)) (nb_u (nb w1)) with
        | Ok _ =>
            (Ok tt, World (nb w1)
                          (trace w1 ++ [Plot (nb_V (nb w1)) (nb_u (nb w1))]))
        | Raise e => (Raise e, w1)
        end
    | (Raise e, w1) => (Raise e, w1)
    end.
Proof.
  unfold cell43, reset_solution, bind, gets, modify.
  cbn -[for_each range plot_beam].
  destruct (for_each _ _ _ _) as [[[]|e] w1]; [|reflexivity].
  apply plot_beam_eq.
Qed.

(** The run of cell 43 from [w]: the namespace changes in [u] and
    [total_force] only, and every solve is of the problem that [w]
    holds. *)
Lemma cell43_run (w : world F) :
  let reported :=
    map (fun k => fmul (fdiv (flit 4 1000) (of_int 10)) (of_int k))
        (seqZ 1 10) in
  exists u' k,
    nb (snd (cell43 w)) = with_total_force (flit 4 1000) (with_u u' (nb w)) /\
    Forall (fun s => fst (fst s) = problem_of (nb w))
           (solves (events_of cell43 w)) /\
    (k <= 10)%nat /\
    length (solves (events_of cell43 w)) = k /\
    printed (events_of cell43 w) = take k reported /\
    (fst (cell43 w) = Ok tt -> k = 10%nat).
Proof.
  intros reported. unfold events_of. rewrite cell43_eq. cbv zeta.
  match goal with
  | |- context [for_each (range 10) _ tt ?w0] =>
      destruct (pressure_loop 10 (range 10) w0)
        as (u' & evs & k & Hnb & Ht & Hpb & Hk & Hs & Hp & Hok & _)
  end.
  cbn [nb trace] in Hnb, Ht, Hpb, Hp.
  specialize (Hp _ eq_refl).
  rewrite <- firstn_map, (map_range_succ
    (fun k => fmul (fdiv (flit 4 1000) (of_int 10)) (of_int k))) in Hp.
  exists u', k.
  destruct (for_each _ _ _ _) as [[[]|e] w1]; cbn [fst snd nb trace] in *.
  - destruct (plot_beam_arrays (nb_V (nb w1)) (nb_u (nb w1)))
      as [arrays|e]; cbn [fst snd nb trace].
    + rewrite drop_new_events with (evs := evs) by exact Ht.
      rewrite solves_app, printed_app, !app_nil_r.
      split; [exact Hnb|]. split; [exact Hpb|]. split; [exact Hk|].
      split; [exact Hs|]. split; [exact Hp|]. intros _. now apply Hok.
    + rewrite Ht, drop_app_length.
      split; [exact Hnb|]. split; [exact Hpb|]. split; [exact Hk|].
      split; [exact Hs|]. split; [exact Hp|]. discriminate.
  - rewrite Ht, drop_app_length.
    split; [exact Hnb|]. split; [exact Hpb|]. split; [exact Hk|].
    split; [exact Hs|]. split; [exact Hp|]. discriminate.
Qed.
End Cell43.

(** C9. The pressure is never updated in cell 43.  Run cell 41 and then
    cell 43, in binary64 and with any solver.  The [Constant]
    [pressure] is [0.0] after cell 41 and still [0.0] after cell 43,
    and every solve of cell 43 is of one and the same problem, whose
    pressure is [0.0].  The progress lines meanwhile report
    [0.004/10*1, 0.004/10*2, ...], which are positive and strictly
    increasing; a run that completes has made 10 such solves and
    printed all 10 values. *)
Theorem pressure_never_updated (D : Dolfin spec_float)
    (w : world spec_float) :
  let w1 := snd (cell41 w) in
  let evs := events_of cell43 w1 in
  let reported :=
    map (fun k => fmul (fdiv (flit 4 1000) (of_int 10)) (of_int k))
        (seqZ 1 10) in
  fst (cell41 w) = Ok tt /\
  nb_pressure (nb w1) = of_int 0 /\
  nb_pressure (nb (snd (cell43 w1))) = of_int 0 /\
  pb_pressure (problem_of (nb w1)) = Some (of_int 0) /\
  Forall (fun s => fst (fst s) = problem_of (nb w1)) (solves evs) /\
  (exists k, (k <= 10)%nat /\ length (solves evs) = k /\
             printed evs = take k reported) /\
  (fst (cell43 w1) = Ok tt ->
     length (solves evs) = 10%nat /\ printed evs = reported) /\
  forallb (SFltb (of_int 0)) reported = true /\
  increasing_b64 reported = true.
Proof.
  intros w1 evs reported.
  destruct (cell43_run w1) as (u' & k & Hnb & Hpb & Hk & Hs & Hp & Hok).
  fold evs reported in Hpb, Hs, Hp.
  split; [reflexivity|]. split; [reflexivity|].
  split; [now rewrite Hnb|]. split; [reflexivity|]. split; [exact Hpb|].
  split; [now exists k|]. split.
  - intros Hres. rewrite (Hok Hres) in Hs, Hp.
    split; [exact Hs|]. rewrite Hp. apply take_ge.
    unfold reported. rewrite length_map, length_seqZ. lia.
  - split; vm_compute; reflexivity.
Qed.

(** ** The claim about [refine_benchmark] *)

Section RefineBenchmark.
Context {F : Type} `{PyFloat F} `{Dolfin F}.

Lemma bench_loop_cons (V : FunctionSpace) (steps i : Z) (l : list Z)
    (loc : bench_locals) (w : world F) :
  for_each (i :: l) (bench_step V steps) loc w =
    match bench_step_outcome V steps i loc w with
    | (Ok loc1, w1) => for_each l (bench_step V steps) loc1 w1
    | (Raise e, w1) => (Raise e, w1)
    end.
Proof. simpl. unfold bind. now rewrite bench_step_eq. Qed.

Lemma applied_pressures_cons (pb : problem F) (g : list F) (out : outcome F)
    (evs : list (event F)) :
  applied_pressures (Solve pb g out :: evs)
    = pb_pressure pb :: applied_pressures evs.
Proof. reflexivity. Qed.

Lemma solves_snoc_plot (evs : list (event F)) (V : FunctionSpace)
    (u : list F) :
  solves (evs ++ [Plot V u]) = solves evs.
Proof. rewrite solves_app. apply app_nil_r. Qed.

(** The loop of [refine_benchmark]: the pressure of every solve is
    computed from the global [total_force]. *)
Lemma bench_loop (V : FunctionSpace) (steps : Z) (l : list Z)
    (loc : bench_locals) (w : world F) :
  let run := for_each l (bench_step V steps) loc w in
  let pressure_at tf i := fmul (fdiv tf (of_int steps)) (of_int (i + 1)) in
  nb (snd run) = nb w /\
  (nb_total_force (nb w) = None -> l <> [] ->
   fst run = Raise (NameError "total_force")) /\
  exists evs k,
    trace (snd run) = trace w ++ evs /\
    (k <= length l)%nat /\
    Forall (fun e => exists pb g out, e = Solve pb g out) evs /\
    (forall tf, nb_total_force (nb w) = Some tf ->
       applied_pressures evs
         = map (fun i => Some (pressure_at tf i)) (take k l)) /\
    (forall loc', fst run = Ok loc' ->
       k = length l /\
       length (l_disp loc') = (length (l_disp loc) + length l)%nat /\
       forall tf, nb_total_force (nb w) = Some tf ->
         l_pressures loc'
           = l_pressures loc ++ map (fun i => Float (pressure_at tf i)) l).
Proof.
  revert loc w. induction l as [|i l IH]; intros loc w; cbv zeta.
  - simpl. split; [reflexivity|]. split; [congruence|].
    exists [], 0%nat. rewrite app_nil_r.
    split; [reflexivity|]. split; [lia|]. split; [constructor|].
    split; [reflexivity|].
    intros loc' [= <-]. split; [reflexivity|]. split; [lia|].
    intros tf _. now rewrite app_nil_r.
  - rewrite bench_loop_cons. unfold bench_step_outcome.
    destruct (nb_total_force (nb w)) as [tf|] eqn:Htf.
    2:{ simpl. split; [reflexivity|]. split; [reflexivity|].
        exists [], 0%nat. rewrite app_nil_r.
        repeat split; auto; try lia; discriminate. }
    destruct (py_truediv tf steps) as [q|e] eqn:Hq.
    2:{ simpl. split; [reflexivity|]. split; [discriminate|].
        exists [], 0%nat. rewrite app_nil_r.
        repeat split; auto; try lia; discriminate. }
    apply py_truediv_Ok in Hq as ->.
    destruct (py_mul _ (i + 1)) as [x|e] eqn:Hx.
    2:{ simpl. split; [reflexivity|]. split; [discriminate|].
        exists [], 0%nat. rewrite app_nil_r.
        repeat split; auto; try lia; discriminate. }
    apply py_mul_Ok in Hx as ->. cbv zeta.
    destruct (newton _ (l_u loc)) as [u|u] eqn:Hn.
    2:{ simpl. split; [reflexivity|]. split; [discriminate|].
        eexists [_], 1%nat.
        split; [reflexivity|]. split; [lia|].
        split; [repeat constructor; eauto|].
        split; [now intros tf' [= <-]|]. discriminate. }
    destruct (get_disp V u get_disp_pos get_disp_component) as [d|e] eqn:Hd.
    2:{ simpl. split; [reflexivity|]. split; [discriminate|].
        eexists [_], 1%nat.
        split; [reflexivity|]. split; [lia|].
        split; [repeat constructor; eauto|].
        split; [now intros tf' [= <-]|]. discriminate. }
    match goal with
    | |- context [for_each l _ ?loc1 ?w1] => specialize (IH loc1 w1)
    end.
    cbv zeta in IH.
    destruct IH as (Hnb & _ & evs & k & Ht & Hk & Hsol & Happ & Hok).
    cbn [nb trace l_pressures l_disp] in Hnb, Ht, Happ, Hok.
    split; [exact Hnb|]. split; [discriminate|].
    eexists (_ :: evs), (S k).
    split; [rewrite Ht, <- app_assoc; reflexivity|].
    split; [simpl; lia|].
    split; [constructor; eauto|].
    split.
    { intros tf' [= <-]. rewrite applied_pressures_cons. simpl.
      f_equal. now apply Happ. }
    intros loc' Hres. destruct (Hok loc' Hres) as (-> & Hlen & Hp).
    split; [reflexivity|]. split.
    { rewrite Hlen, length_app. simpl. lia. }
    intros tf' [= <-]. rewrite (Hp tf Htf), <- app_assoc. reflexivity.
Qed.

Lemma refine_benchmark_eq (total_pressure : F) (nx ny nz : Z) (w : world F) :
  refine_benchmark_with total_pressure nx ny nz w =
    let V := VectorFunctionSpace (BoxMesh nx ny nz) "Lagrange" 1 in
    match for_each (range 10) (bench_step V 10)
            {| l_pressure := of_int 0;
               l_u := map (fun _ => of_int 0) (tabulate_dof_coordinates V);
               l_pressures := [Int 0];
               l_disp := [Int 0] |} w with
    | (Ok l, w1) =>
        match plot_beam_arrays V (l_u l) with
        | Ok _ =>
            (Ok (l_disp l, l_pressures l),
             World (nb w1) (trace w1 ++ [Plot V (l_u l)]))
        | Raise e => (Raise e, w1)
        end
    | (Raise e, w1) => (Raise e, w1)
    end.
Proof.
  unfold refine_benchmark_with, bind, ret. cbv zeta.
  destruct (for_each _ _ _ _) as [[l|e] w1]; [|reflexivity].
  rewrite plot_beam_eq. now destruct (plot_beam_arrays _ _).
Qed.

End RefineBenchmark.

(** ** Runs of the benchmark on the demonstration framework *)

Lemma pressure_never_updated_witness :
  let w := @Demo.world0 _ binary64 (Demo.field (1, 1, 1)%Z) in
  let w1 := snd (@cell41 _ binary64 w) in
  fst (@cell43 _ _ Demo.robust w1) = Ok tt /\
  length (solves (events_of (@cell43 _ _ Demo.robust) w1)) = 10%nat /\
  applied_pressures (events_of (@cell43 _ _ Demo.robust) w1)
    = repeat (Some (S754_zero false)) 10.
Proof.
  intros w w1.
  assert (fst (@cell43 _ _ Demo.robust w1) = Ok tt) as Hres
    by (vm_compute; reflexivity).
  split; [exact Hres|].
  destruct (pressure_never_updated Demo.robust w)
    as (_ & _ & _ & _ & _ & _ & Hok & _).
  destruct (Hok Hres) as [Hlen _].
  split; [exact Hlen|]. vm_compute. reflexivity.
Defined.


(** * Further properties *)

(** ** More about the samplers *)

Lemma euclid_same (c : point R) : euclid c c = 0%R.
Proof.
  destruct c as [[x y] z]. unfold euclid.
  replace ((x - x) * (x - x) + (y - y) * (y - y) + (z - z) * (z - z))%R
    with 0%R by ring.
  apply sqrt_0.
Qed.

Lemma squares_zero (a b c : R) :
  (a * a + b * b + c * c <= 0)%R -> (a = 0 /\ b = 0 /\ c = 0)%R.
Proof.
  intros Hle.
  pose proof (Rle_0_sqr a) as Ha. pose proof (Rle_0_sqr b) as Hb.
  pose proof (Rle_0_sqr c) as Hc. unfold Rsqr in Ha, Hb, Hc.
  assert (a * a = 0)%R as Ha0 by lra.
  assert (b * b = 0)%R as Hb0 by lra.
  assert (c * c = 0)%R as Hc0 by lra.
  apply Rmult_integral in Ha0, Hb0, Hc0. intuition.
Qed.

Lemma euclid_zero (p q : point R) : (euclid p q <= 0)%R -> q = p.
Proof.
  destruct p as [[px py] pz], q as [[qx qy] qz]. unfold euclid. intros Hle.
  set (s := ((qx - px) * (qx - px) + (qy - py) * (qy - py)
             + (qz - pz) * (qz - pz))%R) in *.
  assert (0 <= s)%R as Hnonneg.
  { pose proof (Rle_0_sqr (qx - px)). pose proof (Rle_0_sqr (qy - py)).
    pose proof (Rle_0_sqr (qz - pz)). unfold Rsqr in *. subst s. lra. }
  pose proof (sqrt_pos s) as Hpos.
  assert (sqrt s = 0)%R as Hzero by lra.
  apply sqrt_eq_0 in Hzero; [|exact Hnonneg].
  destruct (@squares_zero (qx - px) (qy - py) (qz - pz)) as (Hx & Hy & Hz).
  { fold s. lra. }
  repeat f_equal; lra.
Qed.

Lemma nearest_is_node (coords : list (point R)) (c : point R) (i j : nat) :
  NoDup coords -> coords !! j = Some c -> first_nearest coords c i -> i = j.
Proof.
  intros Hnodup Hj (ci & Hi & Hmin & _).
  specialize (Hmin j c Hj). rewrite euclid_same in Hmin.
  apply euclid_zero in Hmin as ->.
  exact (NoDup_lookup _ _ _ _ Hnodup Hi Hj).
Qed.

(** X1. Sampling at a node.  In exact arithmetic, when the nodes of a
    space have pairwise different coordinates, [get_disp] queried at
    the coordinates of node [j] returns component [cd] of the
    displacement of node [j] itself, and [get_stress] the component
    [cs] of the projected stress at node [j]. *)
Theorem sample_at_node (D : Dolfin R) (V Z : FunctionSpace) (P : energy R)
    (u : list R) (j j' : nat) (c c' : point R) (cd cs : nat) :
  nodal_values 3 V u -> (cd < 3)%nat ->
  NoDup (node_coordinates 3 V) -> node_coordinates 3 V !! j = Some c ->
  nodal_values 9 Z (project P Z u) -> (cs < 9)%nat ->
  NoDup (node_coordinates 9 Z) -> node_coordinates 9 Z !! j' = Some c' ->
  (exists x, u !! (j * 3 + cd)%nat = Some x /\
             get_disp V u c (Z.of_nat cd) = Ok x) /\
  (exists y, project P Z u !! (j' * 9 + cs)%nat = Some y /\
             get_stress Z P u c' (Z.of_nat cs) = Ok y).
Proof.
  intros [HV Hu] Hcd HVdup Hj [HZ Hs] Hcs HZdup Hj'. split.
  - destruct (get_disp_nodal V u c HV Hu Hcd) as (i & x & Hi & _ & Hx & Hg).
    apply np_argmin_nearest in Hi.
    apply nearest_is_node with (j := j) in Hi as ->; [|assumption..].
    now exists x.
  - destruct (get_stress_nodal Z P u c' HZ Hs Hcs)
      as (i & y & Hi & _ & Hy & Hg).
    apply np_argmin_nearest in Hi.
    apply nearest_is_node with (j := j') in Hi as ->; [|assumption..].
    now exists y.
Qed.

Section NanPosition.
Lemma binary64_sub_nan (a : spec_float) : fsub a S754_nan = S754_nan.
Proof. now destruct a. Qed.

Lemma binary64_add_nan_r (a : spec_float) : fadd a S754_nan = S754_nan.
Proof. now destruct a. Qed.

Lemma binary64_row_norm_nan (pos c : point spec_float) :
  has_nan pos = true -> row_norm pos c = S754_nan.
Proof.
  destruct pos as [[x y] z], c as [[cx cy] cz]. unfold has_nan, row_norm.
  intros Hnan. apply orb_true_iff in Hnan as [Hnan|Hz].
  - apply orb_true_iff in Hnan as [Hx|Hy].
    + destruct x; try discriminate Hx. now rewrite binary64_sub_nan.
    + destruct y; try discriminate Hy.
      rewrite (binary64_sub_nan cy).
      change (fmul S754_nan S754_nan) with S754_nan.
      now rewrite binary64_add_nan_r.
  - destruct z; try discriminate Hz.
    rewrite (binary64_sub_nan cz).
    change (fmul S754_nan S754_nan) with S754_nan.
    now rewrite binary64_add_nan_r.
Qed.

Lemma binary64_argmin_nan (coords : list (point spec_float))
    (pos : point spec_float) :
  has_nan pos = true -> coords <> [] ->
  np_argmin (norms coords pos) = Ok 0%nat.
Proof.
  intros Hnan Hne. destruct coords as [|c coords]; [congruence|].
  simpl. rewrite binary64_row_norm_nan by exact Hnan.
  unfold np_argmin. fold (norms coords pos).
  destruct (norms coords pos); reflexivity.
Qed.
End NanPosition.

Lemma nonempty_length {A} (l : list A) : (0 < length l)%nat -> l <> [].
Proof. destruct l; simpl; [lia|discriminate]. Qed.

(** X2. A NaN in the query position.  In binary64, when any coordinate
    of the position is NaN, every distance is NaN and [np.argmin]
    answers 0: both samplers return, without any error, the value at
    the first node of the space. *)
Theorem sample_at_nan (D : Dolfin spec_float) (V Z : FunctionSpace)
    (P : energy spec_float) (u : list spec_float) (pos : point spec_float)
    (cd cs : nat) :
  has_nan pos = true ->
  nodal_values 3 V u -> (cd < 3)%nat ->
  nodal_values 9 Z (project P Z u) -> (cs < 9)%nat ->
  (exists x, u !! cd = Some x /\ get_disp V u pos (Z.of_nat cd) = Ok x) /\
  (exists y, project P Z u !! cs = Some y /\
             get_stress Z P u pos (Z.of_nat cs) = Ok y).
Proof.
  intros Hnan [HV Hu] Hcd [HZ Hs] Hcs. split.
  - destruct (get_disp_nodal V u pos HV Hu Hcd) as (i & x & Hi & _ & Hx & Hg).
    unfold node_coordinates in HV.
    rewrite binary64_argmin_nan in Hi by (auto using nonempty_length).
    injection Hi as <-. now exists x.
  - destruct (get_stress_nodal Z P u pos HZ Hs Hcs)
      as (i & y & Hi & _ & Hy & Hg).
    unfold node_coordinates in HZ.
    rewrite binary64_argmin_nan in Hi by (auto using nonempty_length).
    injection Hi as <-. now exists y.
Qed.

Section SamplerErrors.
Context {F : Type} `{PyFloat F} `{Dolfin F}.

Lemma np_argmin_empty (coords : list (point F)) (pos : point F) :
  coords = [] -> np_argmin (norms coords pos) = Raise ValueError.
Proof. now intros ->. Qed.

Lemma reshape_ragged {A} (k : nat) (a : list A) :
  (length a mod k <> 0)%nat -> reshape k a = Raise ValueError.
Proof.
  intros Hmod. unfold reshape.
  now destruct (Nat.eqb_spec (length a mod k) 0).
Qed.

Lemma reshape_rows {A} (k : nat) (a : list A) (rows : list (list A)) :
  (0 < k)%nat -> reshape k a = Ok rows ->
  length a = (k * length rows)%nat /\ Forall (fun row => length row = k) rows.
Proof.
  intros Hk. unfold reshape.
  destruct (Nat.eqb_spec (length a mod k) 0) as [Hmod|]; [|discriminate].
  intros [= <-]. rewrite rows_of_length.
  assert (length a = k * (length a / k))%nat as Hlen.
  { rewrite (Nat.div_mod_eq (length a) k) at 1. lia. }
  split; [exact Hlen|].
  apply Forall_lookup_2. intros i row Hrow.
  assert (i < length a / k)%nat as Hi.
  { apply lookup_lt_Some in Hrow. now rewrite rows_of_length in Hrow. }
  rewrite rows_of_lookup in Hrow by exact Hi. injection Hrow as <-.
  rewrite length_take, length_drop. nia.
Qed.

Lemma np_index_out {A} (a : list A) (i : Z) :
  (i < - Z.of_nat (length a) \/ Z.of_nat (length a) <= i)%Z ->
  np_index a i = Raise IndexError.
Proof.
  intros Hi. unfold np_index.
  destruct (Z.ltb_spec i 0);
    [destruct (Z.leb_spec 0 (i + Z.of_nat (length a)));
     destruct (Z.ltb_spec (i + Z.of_nat (length a)) (Z.of_nat (length a)))
    |destruct (Z.leb_spec 0 i);
     destruct (Z.ltb_spec i (Z.of_nat (length a)))];
    simpl; try reflexivity; lia.
Qed.

Lemma np_index_wrap {A} (a : list A) (j : Z) :
  (0 <= j < Z.of_nat (length a))%Z ->
  np_index a (j - Z.of_nat (length a)) = np_index a j.
Proof.
  intros Hj. unfold np_index.
  destruct (Z.ltb_spec (j - Z.of_nat (length a)) 0); [|lia].
  destruct (Z.ltb_spec j 0); [lia|].
  now replace (j - Z.of_nat (length a) + Z.of_nat (length a))%Z with j by lia.
Qed.

Lemma np_index_row {A} (a : list A) (i : Z) (x : A) :
  np_index a i = Ok x -> x ∈ a.
Proof.
  unfold np_index.
  destruct ((0 <=? _) && (_ <? _))%Z%bool; [|discriminate].
  destruct (a !! _) as [y|] eqn:Hy; [|discriminate].
  intros [= <-]. eapply list_elem_of_lookup_2. exact Hy.
Qed.

(** The indexing [a.reshape((-1,k))[i, c]] counts a negative column
    from the end of the row. *)
Lemma reshape_index2_wrap {A} (k : nat) (a : list A) (i c : Z) :
  (0 <= c < Z.of_nat k)%Z ->
  (rows <- reshape k a ;; np_index2 rows i (c - Z.of_nat k))%result
    = (rows <- reshape k a ;; np_index2 rows i c)%result.
Proof.
  intros Hc. destruct (reshape k a) as [rows|e] eqn:Hrows; [|reflexivity].
  simpl. unfold np_index2.
  destruct (np_index rows i) as [row|e] eqn:Hrow; [|reflexivity]. simpl.
  apply reshape_rows in Hrows as [_ Hall]; [|lia].
  apply np_index_row in Hrow.
  rewrite Forall_forall in Hall. rewrite <- (Hall row Hrow) in *.
  now apply np_index_wrap.
Qed.

Lemma reshape_index2_column {A} (k : nat) (a : list A) (i c : Z) :
  (0 < k)%nat -> (c < - Z.of_nat k \/ Z.of_nat k <= c)%Z ->
  forall x, (rows <- reshape k a ;; np_index2 rows i c)%result <> Ok x.
Proof.
  intros Hk Hc x. destruct (reshape k a) as [rows|e] eqn:Hrows; [|discriminate].
  simpl. unfold np_index2.
  destruct (np_index rows i) as [row|e] eqn:Hrow; [|discriminate]. simpl.
  apply reshape_rows in Hrows as [_ Hall]; [|lia].
  apply np_index_row in Hrow.
  rewrite Forall_forall in Hall.
  rewrite np_index_out; [discriminate|]. now rewrite (Hall row Hrow).
Qed.
End SamplerErrors.

Section SamplerEdges.
Context {F : Type} `{PyFloat F} `{Dolfin F}.

(** The tail that the two samplers share: pick the nearest row, then
    index the reshaped vector. *)
Lemma sample_column_out (k : nat) (coords : list (point F)) (pos : point F)
    (a : list F) (c : Z) :
  (0 < length coords)%nat -> length a = (k * length coords)%nat ->
  (0 < k)%nat -> (c < - Z.of_nat k \/ Z.of_nat k <= c)%Z ->
  (dof_ind <- np_argmin (norms coords pos) ;;
   rows <- reshape k a ;;
   np_index2 rows (Z.of_nat dof_ind) c)%result = Raise IndexError.
Proof.
  intros Hpos Hlen Hk Hc.
  destruct (np_argmin_ok (norms coords pos)) as (i & -> & Hi).
  { now rewrite norms_length. }
  rewrite norms_length in Hi. simpl.
  rewrite reshape_ok with (n := length coords) by assumption. simpl.
  unfold np_index2.
  rewrite np_index_nat with (x := take k (drop (i * k) a))
    by now apply rows_of_lookup.
  simpl. apply np_index_out.
  rewrite length_take, length_drop.
  replace (k `min` (length a - i * k))%nat with k by nia. exact Hc.
Qed.

(** X3. Errors of the samplers.  On a space without nodes both
    samplers raise [ValueError] (the [argmin] of an empty array); on a
    space with nodes they raise [ValueError] when the vector cannot be
    reshaped into rows of 3 (of 9 for the stress); with a vector of
    the matching size they raise [IndexError] for a component outside
    [-3..2] (outside [-9..8] for the stress). *)
Theorem sampler_errors (V Z : FunctionSpace) (P : energy F) (u : list F)
    (pos : point F) (c : BinNums.Z) :
  (node_coordinates 3 V = [] -> get_disp V u pos c = Raise ValueError) /\
  (node_coordinates 3 V <> [] -> (length u mod 3 <> 0)%nat ->
   get_disp V u pos c = Raise ValueError) /\
  (nodal_values 3 V u -> (c < -3 \/ 3 <= c)%Z ->
   get_disp V u pos c = Raise IndexError) /\
  (node_coordinates 9 Z = [] -> get_stress Z P u pos c = Raise ValueError) /\
  (node_coordinates 9 Z <> [] -> (length (project P Z u) mod 9 <> 0)%nat ->
   get_stress Z P u pos c = Raise ValueError) /\
  (nodal_values 9 Z (project P Z u) -> (c < -9 \/ 9 <= c)%Z ->
   get_stress Z P u pos c = Raise IndexError).
Proof.
  unfold node_coordinates, nodal_values, get_disp, get_stress.
  repeat split.
  - intros ->. reflexivity.
  - intros Hne Hmod.
    destruct (stride 3 (tabulate_dof_coordinates V)) as [|c0 coords];
      [congruence|].
    simpl. now rewrite reshape_ragged.
  - intros [Hpos Hlen] Hc.
    apply sample_column_out; [assumption|assumption|lia|simpl; lia].
  - intros ->. reflexivity.
  - intros Hne Hmod.
    destruct (stride 9 (tabulate_dof_coordinates Z)) as [|c0 coords];
      [congruence|].
    simpl. now rewrite reshape_ragged.
  - intros [Hpos Hlen] Hc.
    apply sample_column_out; [assumption|assumption|lia|simpl; lia].
Qed.

(** X4. Negative components.  Whatever the space, the vector and the
    position, asking [get_disp] for component [c - 3] with
    [0 <= c < 3] is asking for component [c] (so [-1] is the last
    one), and likewise [c - 9] and [c] for [get_stress]: same value,
    or same exception. *)
Theorem sampler_negative_component (V Z : FunctionSpace) (P : energy F)
    (u : list F) (pos : point F) (c : BinNums.Z) :
  ((0 <= c < 3)%Z -> get_disp V u pos (c - 3) = get_disp V u pos c) /\
  ((0 <= c < 9)%Z ->
   get_stress Z P u pos (c - 9) = get_stress Z P u pos c).
Proof.
  split; intros Hc.
  - unfold get_disp.
    destruct (np_argmin _) as [i|e]; [|reflexivity]. simpl.
    now apply (reshape_index2_wrap 3 u (Z.of_nat i)).
  - unfold get_stress.
    destruct (np_argmin _) as [i|e]; [|reflexivity]. simpl.
    now apply (reshape_index2_wrap 9 (project P Z u) (Z.of_nat i)).
Qed.

Lemma stride_from_skip {A} (k : nat) (skipped rest : list A) :
  stride_from k (length skipped) (skipped ++ rest) = stride_from k 0 rest.
Proof. induction skipped as [|x l IH]; [reflexivity|exact IH]. Qed.

Lemma stride_concat {A} (k : nat) (blocks : list (list A)) :
  (0 < k)%nat -> Forall (fun b => length b = k) blocks ->
  stride k (concat blocks) = omap head blocks.
Proof.
  intros Hk Hall. unfold stride.
  induction Hall as [|b blocks Hb _ IH]; [reflexivity|].
  destruct b as [|x b]; [simpl in Hb; lia|].
  change (stride_from k 0 (x :: (b ++ concat blocks)) = x :: omap head blocks).
  rewrite <- IH. cbn [stride_from]. f_equal.
  replace (k - 1)%nat with (length b) by (simpl in Hb; lia).
  apply stride_from_skip.
Qed.

(** X5. One row per node.  When the table of DOF coordinates is made
    of consecutive groups of [k] rows, one group per node, the slice
    [[::k]] that the samplers search holds exactly the first row of
    every group, in order: each node once. *)
Theorem node_coordinates_blocks (k : nat) (space : FunctionSpace)
    (blocks : list (list (point F))) :
  (0 < k)%nat -> Forall (fun b => length b = k) blocks ->
  tabulate_dof_coordinates space = concat blocks ->
  node_coordinates k space = omap head blocks /\
  length (node_coordinates k space) = length blocks.
Proof.
  intros Hk Hall Htab. unfold node_coordinates. rewrite Htab.
  rewrite stride_concat by assumption. split; [reflexivity|].
  clear Htab. induction Hall as [|b blocks Hb _ IH]; [reflexivity|].
  destruct b as [|x b]; [simpl in Hb; lia|].
  change (length (x :: omap head blocks) = S (length blocks)).
  simpl. now rewrite IH.
Qed.
End SamplerEdges.

(** ** More about cell 29 *)

Section Cell29More.
Context {F : Type} `{PyFloat F} `{Dolfin F}.

(** X6. The first solve starts from zero.  Whatever [u] held before
    cell 29 (for instance the iterate of a failed solve), the initial
    guess of the first solve of the cell is the zero field with as
    many entries. *)
Theorem first_solve_from_zero (n_steps : Z) (max_disp : F) (w : world F)
    (pb : problem F) (guess : list F) (out : outcome F) :
  solves (events_of (cell29 n_steps max_disp) w) !! 0%nat
    = Some (pb, guess, out) ->
  guess = map (fun _ => of_int 0) (nb_u (nb w)) /\
  length guess = length (nb_u (nb w)).
Proof.
  intros Hfirst.
  pose proof (cell29_case_warm (cell29_cases n_steps max_disp w)) as Hwarm.
  apply (warm_chain_first _ _ Hwarm) in Hfirst as ->.
  split; [reflexivity|apply length_map].
Qed.

Lemma cell29_case_progress (n_steps : Z) (max_disp : F) (w : world F)
    (res : result unit) (w' : world F) (evs : list (event F)) :
  cell29_case n_steps max_disp w res w' evs ->
  length (solves evs) = length (printed evs) /\
  (nb_bcs (nb w) = [bcl; bcr] -> visited_loads evs = printed evs).
Proof.
  intros [e Hdiv|inc w2 evs2 arrays Hdiv Hrun Ht Hplot
         |inc e w2 evs2 Hdiv Hrun Ht|inc e w2 evs2 Hdiv Hrun Ht Hplot].
  - now split.
  - pose proof (steps_shape n_steps inc (range n_steps) (before_loop w) evs2)
      as Hs.
    rewrite Hrun in Hs. destruct (Hs Ht) as (k & Hk & Hp & Hn & Hv & _).
    rewrite visited_loads_app, printed_app, solves_app. simpl.
    rewrite !app_nil_r. split; [|exact Hv].
    now rewrite Hn, Hp, length_map, length_take_le.
  - pose proof (steps_shape n_steps inc (range n_steps) (before_loop w) evs2)
      as Hs.
    rewrite Hrun in Hs. destruct (Hs Ht) as (k & Hk & Hp & Hn & Hv & _).
    split; [|exact Hv].
    now rewrite Hn, Hp, length_map, length_take_le.
  - pose proof (steps_shape n_steps inc (range n_steps) (before_loop w) evs2)
      as Hs.
    rewrite Hrun in Hs. destruct (Hs Ht) as (k & Hk & Hp & Hn & Hv & _).
    split; [|exact Hv].
    now rewrite Hn, Hp, length_map, length_take_le.
Qed.

(** X7. Progress lines tell the truth in cell 29.  In every run of the
    cell, completed or not, each solve is announced by one progress
    line, and when the boundary conditions are those of the traction
    test the value a line reports is the load of the solve that
    follows it. *)
Theorem progress_reports_load (n_steps : Z) (max_disp : F) (w : world F) :
  let evs := events_of (cell29 n_steps max_disp) w in
  length (solves evs) = length (printed evs) /\
  (nb_bcs (nb w) = [bcl; bcr] -> visited_loads evs = printed evs).
Proof. apply (cell29_case_progress (cell29_cases n_steps max_disp w)). Qed.
End Cell29More.

Section Cell29Final.
Context {F : Type} `{PyFloat F} `{Dolfin F}.
Variables (n : Z) (inc : F).

Lemma last_cons_cons_Some {A} (x y z : A) (l : list A) :
  last l = Some z -> last (x :: y :: l) = Some z.
Proof.
  intros Hz. change (x :: y :: l) with ([x; y] ++ l).
  now rewrite last_app, Hz.
Qed.

(** After a run of the loop that completes, [r] holds the load of the
    last pass and the last solve is that of the problem the namespace
    now holds, converged to the field now in [u]. *)
Lemma steps_final (l : list Z) (w : world F) (evs : list (event F)) (i : Z) :
  fst (steps n inc l w) = Ok tt ->
  last l = Some i ->
  trace (snd (steps n inc l w)) = trace w ++ evs ->
  let after := nb (snd (steps n inc l w)) in
  nb_r after = (fmul inc (of_int (i + 1)), of_int 0, of_int 0) /\
  exists guess,
    last evs = Some (Solve (problem_of after) guess (Converged (nb_u after))).
Proof.
  revert evs i.
  apply steps_ind with (P := fun l w res w' => forall evs i,
    res = Ok tt -> last l = Some i -> trace w' = trace w ++ evs ->
    nb_r (nb w') = (fmul inc (of_int (i + 1)), of_int 0, of_int 0) /\
    exists guess,
      last evs
        = Some (Solve (problem_of (nb w')) guess (Converged (nb_u (nb w'))))).
  - intros w0 evs i _ [=].
  - intros j l0 w0 w1 Hc IH evs i Hres Hlast Hevs.
    destruct (steps_trace n inc l0 w1) as [evs1 Hevs1].
    destruct l0 as [|j' l0].
    + rewrite steps_nil in *. simpl in Hlast. injection Hlast as ->.
      inversion Hc; subst. simpl in *.
      apply app_inv_head in Hevs as <-. use_py_mul.
      split; [reflexivity|]. now eexists.
    + rewrite last_cons_cons in Hlast.
      specialize (IH evs1 i Hres Hlast Hevs1).
      destruct IH as (Hr & guess & Hsol).
      split; [exact Hr|]. exists guess.
      inversion Hc; subst. simpl in Hevs, Hevs1.
      rewrite Hevs1, <- app_assoc in Hevs.
      apply app_inv_head in Hevs as <-.
      now apply last_cons_cons_Some.
  - intros j l0 w0 e w1 _ evs i [=].
Qed.

Lemma range_last (k : Z) : (1 <= k)%Z -> last (range k) = Some (k - 1)%Z.
Proof.
  intros Hk. unfold range.
  destruct (Z.to_nat k) as [|m] eqn:Hm; [lia|].
  rewrite seq_S, map_app. simpl. rewrite last_snoc. f_equal. lia.
Qed.
End Cell29Final.

Section Cell29Plot.
Context {F : Type} `{PyFloat F} `{Dolfin F}.

Lemma cell29_case_final (n_steps : Z) (max_disp : F) (w w' : world F)
    (evs : list (event F)) :
  (1 <= n_steps)%Z ->
  cell29_case n_steps max_disp w (Ok tt) w' evs ->
  exists increment evs0 guess,
    py_truediv max_disp n_steps = Ok increment /\
    nb_r (nb w') = (fmul increment (of_int n_steps), of_int 0, of_int 0) /\
    evs = evs0 ++ [Solve (problem_of (nb w')) guess (Converged (nb_u (nb w')));
                   Plot (nb_V (nb w')) (nb_u (nb w'))].
Proof.
  intros Hn Hc.
  inversion Hc as [|inc w2 evs2 arrays Hdiv Hrun Ht Hplot Hres Hw Hev| |];
    subst.
  pose proof (@steps_final _ _ _ n_steps inc (range n_steps) (before_loop w)
                evs2 (n_steps - 1)%Z) as Hfin.
  rewrite Hrun in Hfin. simpl in Hfin.
  destruct (Hfin eq_refl (range_last Hn) Ht) as (Hr & guess & Hlast).
  apply last_Some in Hlast as [evs0 ->].
  exists inc, evs0, guess. split; [exact Hdiv|]. simpl. split.
  - rewrite Hr. repeat f_equal. lia.
  - now rewrite <- app_assoc.
Qed.

(** X8. What the plot shows.  When cell 29 completes a run of at least
    one step, its last two events are the solve of the problem that
    the namespace holds at the end, converged to the field that [u]
    holds at the end, and the plot of that field; [r] is left at
    [increment * n_steps]. *)
Theorem plot_shows_last_solve (n_steps : Z) (max_disp : F) (w : world F) :
  (1 <= n_steps)%Z ->
  fst (cell29 n_steps max_disp w) = Ok tt ->
  let after := nb (snd (cell29 n_steps max_disp w)) in
  exists increment evs0 guess,
    py_truediv max_disp n_steps = Ok increment /\
    nb_r after = (fmul increment (of_int n_steps), of_int 0, of_int 0) /\
    events_of (cell29 n_steps max_disp) w
      = evs0 ++ [Solve (problem_of after) guess (Converged (nb_u after));
                 Plot (nb_V after) (nb_u after)].
Proof.
  intros Hn Hok after.
  pose proof (cell29_cases n_steps max_disp w) as Hc. rewrite Hok in Hc.
  exact (cell29_case_final Hn Hc).
Qed.
End Cell29Plot.

(** X9. Reaching the target.  In exact arithmetic a completed run of
    cell 29 of at least one step leaves [r] at the target [max_disp]
    itself.  In binary64 it need not: with [max_disp = 1.0] and
    [n_steps = 49] the last load, [1.0/49*49], is the double just
    below [1.0]. *)
Theorem final_load_is_target :
  (forall (D : Dolfin R) (n_steps : Z) (max_disp : R) (w : world R),
      (1 <= n_steps)%Z ->
      fst (cell29 n_steps max_disp w) = Ok tt ->
      nb_r (nb (snd (cell29 n_steps max_disp w))) = (max_disp, 0%R, 0%R)) /\
  (forall (D : Dolfin spec_float) (w : world spec_float),
      fst (cell29 49 (of_int 1) w) = Ok tt ->
      nb_r (nb (snd (cell29 49 (of_int 1) w)))
        = (S754_finite false 9007199254740991 (-53),
           S754_zero false, S754_zero false) /\
      SFltb (S754_finite false 9007199254740991 (-53)) (Binary64.of_Z 1)
        = true).
Proof.
  split.
  - intros D n_steps max_disp w Hn Hok.
    pose proof (cell29_cases n_steps max_disp w) as Hc. rewrite Hok in Hc.
    destruct (cell29_case_final Hn Hc) as (inc & _ & _ & Hdiv & Hr & _).
    rewrite exact_truediv in Hdiv by lia. apply Ok_inj in Hdiv. subst inc.
    rewrite Hr. simpl. f_equal. f_equal.
    assert (IZR n_steps <> 0)%R by (apply not_0_IZR; lia).
    now field.
  - intros D w Hok.
    assert (1 <= 49)%Z as Hn by lia.
    pose proof (cell29_cases 49 (of_int 1) w) as Hc. rewrite Hok in Hc.
    destruct (cell29_case_final Hn Hc) as (inc & _ & _ & Hdiv & Hr & _).
    assert (py_truediv (Binary64.of_Z 1) 49
            = Ok (fdiv (Binary64.of_Z 1) (Binary64.of_Z 49))) as Hdiv'
      by reflexivity.
    change (of_int 1) with (Binary64.of_Z 1) in Hdiv.
    rewrite Hdiv' in Hdiv. apply Ok_inj in Hdiv. subst inc.
    split; [rewrite Hr; vm_compute; reflexivity|vm_compute; reflexivity].
Qed.

Section Cell29Aligned.
Context {F : Type} `{PyFloat F} `{Dolfin F}.

Lemma py_float_Raise (k : Z) (e : exn) :
  py_float k = Raise e -> e = OverflowError.
Proof. unfold py_float. destruct (int_fits k); congruence. Qed.

Lemma py_mul_Raise (x : F) (k : Z) (e : exn) :
  py_mul x k = Raise e -> e = OverflowError.
Proof.
  unfold py_mul. destruct (py_float k) as [y|e'] eqn:Hy; simpl; [discriminate|].
  intros [= <-]. now apply py_float_Raise in Hy.
Qed.

Lemma py_truediv_Raise (x : F) (k : Z) (e : exn) :
  py_truediv x k = Raise e -> e = OverflowError \/ e = ZeroDivisionError.
Proof.
  unfold py_truediv. destruct (py_float k) as [y|e'] eqn:Hy; simpl.
  - destruct (is_zero y); [|discriminate]. intros [= <-]. now right.
  - intros [= <-]. left. now apply py_float_Raise in Hy.
Qed.

Lemma converged_solves_step (i n : Z) (x : F) (pb : problem F) (g u : list F)
    (evs : list (event F)) :
  converged_solves (Print i n x :: Solve pb g (Converged u) :: evs)
    = S (converged_solves evs).
Proof. reflexivity. Qed.


(** With a sampler that cannot fail, the two lists grow together, by
    one entry for every solve that converges, and the loop ends
    normally, on the solver's [RuntimeError] or on [OverflowError]. *)
Lemma steps_aligned (n : Z) (inc : F) (l : list Z) (w : world F)
    (evs : list (event F)) :
  keeps_size ->
  stress_samplable (nb_P (nb w)) (nb_Z (nb w)) (length (nb_u (nb w))) ->
  trace (snd (steps n inc l w)) = trace w ++ evs ->
  let after := nb (snd (steps n inc l w)) in
  length (nb_disp_neo after)
    = (length (nb_disp_neo (nb w)) + converged_solves evs)%nat /\
  length (nb_stress_neo after)
    = (length (nb_stress_neo (nb w)) + converged_solves evs)%nat /\
  (fst (steps n inc l w) = Ok tt \/
   fst (steps n inc l w) = Raise RuntimeError \/
   fst (steps n inc l w) = Raise OverflowError).
Proof.
  intros Hsize. revert evs.
  apply steps_ind with (P := fun l w res w' => forall evs,
    stress_samplable (nb_P (nb w)) (nb_Z (nb w)) (length (nb_u (nb w))) ->
    trace w' = trace w ++ evs ->
    length (nb_disp_neo (nb w'))
      = (length (nb_disp_neo (nb w)) + converged_solves evs)%nat /\
    length (nb_stress_neo (nb w'))
      = (length (nb_stress_neo (nb w)) + converged_solves evs)%nat /\
    (res = Ok tt \/ res = Raise RuntimeError \/ res = Raise OverflowError)).
  - intros w0 evs _ Hevs. apply app_same_head in Hevs as ->.
    unfold converged_solves. simpl. repeat split; auto.
  - intros i l0 w0 w1 Hc IH evs Hsamp Hevs.
    destruct (steps_trace n inc l0 w1) as [evs1 Hevs1].
    specialize (IH evs1).
    inversion Hc as [x u s Hx nb1 Hn Hs Hres Hw| | |]; subst.
    simpl in IH, Hevs, Hevs1.
    assert (length u = length (nb_u (nb w0))) as Hlen.
    { pose proof (Hsize (problem_of nb1) (nb_u (nb w0))) as Hk.
      now rewrite Hn in Hk. }
    rewrite Hlen in IH. destruct (IH Hsamp Hevs1) as (Hd & Hst & Hr).
    rewrite Hevs1, <- app_assoc in Hevs. apply app_inv_head in Hevs as <-.
    simpl. rewrite converged_solves_step, Hd, Hst, !length_app. simpl.
    repeat split; try lia. exact Hr.
  - intros i l0 w0 e w1 Hc evs Hsamp Hevs.
    inversion Hc as [|e' Hx|x u nb1 Hx Hn|x u e' Hx nb1 Hn Hs]; subst;
      simpl in *.
    + apply app_same_head in Hevs as ->. apply py_mul_Raise in Hx as ->.
      unfold converged_solves. simpl. repeat split; auto.
    + apply app_inv_head in Hevs as <-.
      unfold converged_solves. simpl. repeat split; auto.
    + exfalso. destruct Hsamp as [Hpos Hproj].
      assert (length u = length (nb_u (nb w0))) as Hlen.
      { pose proof (Hsize (problem_of nb1) (nb_u (nb w0))) as Hk.
        now rewrite Hn in Hk. }
      destruct (get_stress_nodal (nb_Z (nb w0)) (nb_P (nb w0)) u
                  get_stress_pos (component := 0) Hpos (Hproj u Hlen))
        as (j & y & _ & _ & _ & Hy); [lia|].
      change (Z.of_nat 0) with get_stress_component in Hy.
      rewrite Hy in Hs. discriminate Hs.
Qed.

Lemma converged_solves_plot (evs : list (event F)) (V : FunctionSpace)
    (u : list F) :
  converged_solves (evs ++ [Plot V u]) = converged_solves evs.
Proof.
  unfold converged_solves. rewrite solves_app. simpl. now rewrite app_nil_r.
Qed.

Lemma steps_nodal (n : Z) (inc : F) (l : list Z) (w : world F) :
  keeps_size ->
  nodal_values 3 (nb_V (nb w)) (nb_u (nb w)) ->
  nodal_values 3 (nb_V (nb (snd (steps n inc l w))))
    (nb_u (nb (snd (steps n inc l w)))).
Proof.
  intros Hsize Hnodal.
  destruct (steps_frame n inc l w) as (_ & HV & _). rewrite <- HV.
  apply nodal_values_size with (u := nb_u (nb w)); [|exact Hnodal].
  now apply steps_size.
Qed.

Lemma before_loop_nodal (w : world F) :
  nodal_values 3 (nb_V (nb w)) (nb_u (nb w)) ->
  nodal_values 3 (nb_V (nb (before_loop w))) (nb_u (nb (before_loop w))).
Proof.
  intros Hnodal. simpl.
  apply nodal_values_size with (u := nb_u (nb w)); [|exact Hnodal].
  apply length_map.
Qed.

Lemma cell29_case_aligned (n_steps : Z) (max_disp : F) (w : world F)
    (res : result unit) (w' : world F) (evs : list (event F)) :
  keeps_size ->
  stress_samplable (nb_P (nb w)) (nb_Z (nb w)) (length (nb_u (nb w))) ->
  cell29_case n_steps max_disp w res w' evs ->
  match py_truediv max_disp n_steps with
  | Ok _ =>
      length (nb_disp_neo (nb w')) = S (converged_solves evs) /\
      length (nb_stress_neo (nb w')) = S (converged_solves evs) /\
      (nodal_values 3 (nb_V (nb w)) (nb_u (nb w)) ->
       res = Ok tt \/ res = Raise RuntimeError \/ res = Raise OverflowError)
  | Raise e =>
      res = Raise e /\ (e = OverflowError \/ e = ZeroDivisionError) /\
      nb_disp_neo (nb w') = nb_disp_neo (nb w) /\
      nb_stress_neo (nb w') = nb_stress_neo (nb w)
  end.
Proof.
  intros Hsize Hsamp
    [e Hdiv|increment w2 evs2 arrays Hdiv Hrun Ht Hplot
    |increment e w2 evs2 Hdiv Hrun Ht|increment e w2 evs2 Hdiv Hrun Ht Hplot];
    rewrite Hdiv.
  - apply py_truediv_Raise in Hdiv. now repeat split.
  - pose proof (steps_aligned n_steps increment (range n_steps)
                  (before_loop w) evs2 Hsize) as Ha.
    rewrite Hrun in Ha. simpl in Ha. rewrite length_map in Ha.
    destruct (Ha Hsamp Ht) as (Hd & Hs & Hr).
    rewrite converged_solves_plot. simpl. auto.
  - pose proof (steps_aligned n_steps increment (range n_steps)
                  (before_loop w) evs2 Hsize) as Ha.
    rewrite Hrun in Ha. simpl in Ha. rewrite length_map in Ha.
    destruct (Ha Hsamp Ht) as (Hd & Hs & Hr). auto.
  - pose proof (steps_aligned n_steps increment (range n_steps)
                  (before_loop w) evs2 Hsize) as Ha.
    pose proof (@steps_nodal n_steps increment (range n_steps)
                  (before_loop w) Hsize) as Hn.
    rewrite Hrun in Ha, Hn. simpl in Ha. rewrite length_map in Ha.
    destruct (Ha Hsamp Ht) as (Hd & Hs & Hr).
    split; [exact Hd|]. split; [exact Hs|]. intros Hnodal. exfalso.
    destruct (plot_beam_defined (Hn (@before_loop_nodal w Hnodal)))
      as (arrays & Hok).
    cbn [snd] in Hok. rewrite Hok in Hplot. discriminate Hplot.
Qed.

(** X10. The recorded lists stay aligned.  Let the solver keep the
    size of the field and let the stress be samplable on [Z].  If the
    increment cannot be computed, cell 29 raises [ZeroDivisionError]
    or [OverflowError] and leaves both lists as they were.  Otherwise,
    however the run ends, [disp_neo] and [stress_neo] both hold the
    zero point and one entry for each solve that converged; and when
    moreover [u] holds three values for each node of [V], so that
    [plot_beam] has its arrays, the cell returns normally or raises
    the solver's [RuntimeError] or [OverflowError]: never an error of
    the sampler or of the plot. *)
Theorem lists_stay_aligned (n_steps : Z) (max_disp : F) (w : world F) :
  keeps_size ->
  stress_samplable (nb_P (nb w)) (nb_Z (nb w)) (length (nb_u (nb w))) ->
  let run := cell29 n_steps max_disp w in
  let after := nb (snd run) in
  let evs := events_of (cell29 n_steps max_disp) w in
  match py_truediv max_disp n_steps with
  | Ok _ =>
      length (nb_disp_neo after) = S (converged_solves evs) /\
      length (nb_stress_neo after) = S (converged_solves evs) /\
      (nodal_values 3 (nb_V (nb w)) (nb_u (nb w)) ->
       fst run = Ok tt \/ fst run = Raise RuntimeError \/
       fst run = Raise OverflowError)
  | Raise e =>
      fst run = Raise e /\ (e = OverflowError \/ e = ZeroDivisionError) /\
      nb_disp_neo after = nb_disp_neo (nb w) /\
      nb_stress_neo after = nb_stress_neo (nb w)
  end.
Proof.
  intros Hsize Hsamp run after evs.
  exact (cell29_case_aligned Hsize Hsamp (cell29_cases n_steps max_disp w)).
Qed.
End Cell29Aligned.

(** ** More about [refine_benchmark] *)

Section SamplerRaises.
Context {F : Type} `{PyFloat F} `{Dolfin F}.

Lemma np_index_Raise {A} (a : list A) (i : Z) (e : exn) :
  np_index a i = Raise e -> e = IndexError.
Proof.
  unfold np_index.
  destruct (_ && _)%bool; [|now intros [= <-]].
  destruct (a !! _); [discriminate|now intros [= <-]].
Qed.

Lemma np_index2_Raise {A} (a : list (list A)) (i j : Z) (e : exn) :
  np_index2 a i j = Raise e -> e = IndexError.
Proof.
  unfold np_index2.
  destruct (np_index a i) as [row|e'] eqn:Hrow; simpl.
  - apply np_index_Raise.
  - intros [= <-]. exact (np_index_Raise _ _ Hrow).
Qed.

Lemma sample_Raise (k : nat) (coords : list (point F)) (pos : point F)
    (a : list F) (c : Z) (e : exn) :
  (dof_ind <- np_argmin (norms coords pos) ;;
   rows <- reshape k a ;;
   np_index2 rows (Z.of_nat dof_ind) c)%result = Raise e ->
  e = ValueError \/ e = IndexError.
Proof.
  destruct coords as [|c0 coords]; simpl; [intros [= <-]; now left|].
  unfold reshape. destruct (_ =? _)%nat; simpl; [|intros [= <-]; now left].
  intros He. right. exact (np_index2_Raise _ _ _ He).
Qed.

Lemma get_disp_Raise (V : FunctionSpace) (u : list F) (pos : point F)
    (c : Z) (e : exn) :
  get_disp V u pos c = Raise e -> e = ValueError \/ e = IndexError.
Proof. apply sample_Raise. Qed.

Lemma get_stress_Raise (Z0 : FunctionSpace) (P : energy F) (u : list F)
    (pos : point F) (c : Z) (e : exn) :
  get_stress Z0 P u pos c = Raise e -> e = ValueError \/ e = IndexError.
Proof. apply sample_Raise. Qed.
End SamplerRaises.

Section PlotRaises.
Context {F : Type} `{PyFloat F} `{Dolfin F}.

Lemma np_take_Raise (a : list (list F)) (idx : list nat) (col : Z)
    (e : exn) :
  np_take a idx col = Raise e -> e = IndexError.
Proof.
  induction idx as [|i idx IH]; simpl; [discriminate|].
  destruct (np_index2 a (Z.of_nat i) col) as [x|e'] eqn:Hx; simpl.
  - destruct (np_take a idx col) as [xs|e'']; simpl; [discriminate|].
    intros [= <-]. now apply IH.
  - intros [= <-]. exact (np_index2_Raise _ _ _ Hx).
Qed.

Lemma np_add_Raise (a b : list (list F)) (e : exn) :
  np_add a b = Raise e -> e = ValueError.
Proof.
  unfold np_add. destruct (_ =? _)%nat; [discriminate|].
  destruct a as [|ra [|ra' a]]; destruct b as [|rb [|rb' b]];
    try discriminate; now intros [= <-].
Qed.

Lemma plot_beam_Raise (V : FunctionSpace) (u : list F) (e : exn) :
  plot_beam_arrays V u = Raise e -> e = ValueError \/ e = IndexError.
Proof.
  unfold plot_beam_arrays.
  destruct (reshape 3 u) as [disp|e0] eqn:Hr; simpl.
  2:{ unfold reshape in Hr. destruct (_ =? _)%nat; [discriminate|].
      injection Hr as <-. intros [= <-]. now left. }
  destruct (np_add _ disp) as [up|e0] eqn:Ha; simpl.
  2:{ apply np_add_Raise in Ha as ->. intros [= <-]. now left. }
  repeat match goal with
  | |- context [np_take ?a ?idx ?c] =>
      let Ht := fresh "Ht" in
      destruct (np_take a idx c) eqn:Ht; simpl;
      [|apply np_take_Raise in Ht as ->; intros [= <-]; now right]
  end.
  discriminate.
Qed.

Lemma Forall2_last {A B} (R : A -> B -> Prop) (l : list A) (k : list B)
    (x : A) :
  Forall2 R l k -> last l = Some x -> exists y, last k = Some y /\ R x y.
Proof.
  intros Hall Hlast. apply last_Some in Hlast as [l' ->].
  apply Forall2_app_inv_l in Hall as (k' & k1 & _ & Hone & ->).
  inversion Hone as [|? y ? ? Hxy Hnil]; subst. inversion Hnil; subst.
  exists y. split; [apply last_snoc|exact Hxy].
Qed.

Lemma solves_last_event (evs : list (event F)) (pb : problem F)
    (g : list F) (out : outcome F) :
  Forall (fun e => exists pb g out, e = Solve pb g out) evs ->
  last (solves evs) = Some (pb, g, out) ->
  exists evs0, evs = evs0 ++ [Solve pb g out].
Proof.
  intros Hsol Hlast. induction evs as [|ev evs IH] using rev_ind.
  - discriminate Hlast.
  - apply Forall_app in Hsol as (_ & Hev).
    inversion Hev as [|? ? (pb' & g' & out' & ->) _]; subst.
    rewrite solves_app in Hlast.
    change (solves [Solve pb' g' out']) with [(pb', g', out')] in Hlast.
    rewrite last_snoc in Hlast. injection Hlast as -> -> ->.
    now exists evs.
Qed.
End PlotRaises.

Section BenchmarkChain.
Context {F : Type} `{PyFloat F} `{Dolfin F}.

Lemma warm_chain_cons (u0 : list F) (pb : problem F) (out : outcome F)
    (ss : list (problem F * list F * outcome F)) :
  (ss = [] \/ out = Converged (iterate out)) ->
  warm_chain (iterate out) ss ->
  warm_chain u0 ((pb, u0, out) :: ss).
Proof. intros Hc Hw. simpl. auto. Qed.

Lemma solves_cons_solve (pb : problem F) (g : list F) (out : outcome F)
    (evs : list (event F)) :
  solves (Solve pb g out :: evs) = (pb, g, out) :: solves evs.
Proof. reflexivity. Qed.

Lemma bench_loop_chain (V : FunctionSpace) (steps : Z) (l : list Z)
    (loc : bench_locals) (w : world F) :
  let run := for_each l (bench_step V steps) loc w in
  exists evs,
    trace (snd run) = trace w ++ evs /\
    warm_chain (l_u loc) (solves evs) /\
    Forall (fun s => exists p, fst (fst s) = bench_problem V p)
           (solves evs) /\
    (forall loc', fst run = Ok loc' ->
       l_u loc' = last_iterate (l_u loc) (solves evs) /\
       length (solves evs) = length l /\
       exists ds, l_disp loc' = l_disp loc ++ map Float ds /\
                  Forall2 (bench_sample V) (solves evs) ds) /\
    (forall e, fst run = Raise e -> bench_failure V steps l w evs e).
Proof.
  revert loc w. induction l as [|i l IH]; intros loc w; cbv zeta.
  - simpl. exists []. rewrite app_nil_r.
    split; [reflexivity|]. split; [exact I|]. split; [constructor|].
    split; [|discriminate].
    intros loc' [= <-]. split; [reflexivity|]. split; [reflexivity|].
    exists []. rewrite app_nil_r. split; [reflexivity|constructor].
  - rewrite bench_loop_cons. unfold bench_step_outcome, bench_failure.
    destruct (nb_total_force (nb w)) as [tf|] eqn:Htf.
    2:{ simpl. exists []. rewrite app_nil_r.
        split; [reflexivity|]. split; [exact I|]. split; [constructor|].
        split; [discriminate|]. now intros e [= <-]. }
    destruct (py_truediv tf steps) as [q|e] eqn:Hq.
    2:{ simpl. exists []. rewrite app_nil_r.
        split; [reflexivity|]. split; [exact I|]. split; [constructor|].
        split; [discriminate|]. intros e' [= <-]. left. exists i.
        split; [now left|]. split; [|now left].
        apply py_truediv_Raise in Hq. tauto. }
    destruct (py_mul q (i + 1)) as [x|e] eqn:Hx.
    2:{ simpl. exists []. rewrite app_nil_r.
        split; [reflexivity|]. split; [exact I|]. split; [constructor|].
        split; [discriminate|]. intros e' [= <-]. left. exists i.
        split; [now left|]. split; [|right; eauto].
        apply py_mul_Raise in Hx. tauto. }
    cbv zeta.
    destruct (newton _ (l_u loc)) as [u|u] eqn:Hn.
    2:{ simpl. eexists [_].
        split; [reflexivity|]. split; [simpl; auto|].
        split; [repeat constructor; simpl; eauto|].
        split; [discriminate|]. intros e' [= <-]. right.
        exists [], (bench_problem V x), (l_u loc), (Diverged u).
        split; reflexivity. }
    destruct (get_disp V u get_disp_pos get_disp_component) as [d|e] eqn:Hd.
    2:{ simpl. eexists [_].
        split; [reflexivity|]. split; [simpl; auto|].
        split; [repeat constructor; simpl; eauto|].
        split; [discriminate|]. intros e' [= <-]. right.
        exists [], (bench_problem V x), (l_u loc), (Converged u).
        split; [reflexivity|]. split; [|exact Hd].
        exact (get_disp_Raise _ _ _ _ Hd). }
    match goal with
    | |- context [for_each l _ ?loc1 ?w1] => specialize (IH loc1 w1)
    end.
    cbv zeta in IH.
    destruct IH as (evs & Ht & Hw & Hpb & Hok & Hfail).
    cbn [nb trace l_u l_disp] in Ht, Hw, Hok, Hfail.
    exists (Solve (bench_problem V x) (l_u loc) (Converged u) :: evs).
    rewrite solves_cons_solve.
    split; [rewrite Ht, <- app_assoc; reflexivity|].
    split; [apply warm_chain_cons; [now right|exact Hw]|].
    split; [constructor; [simpl; eauto|exact Hpb]|].
    split.
    + intros loc' Hres. destruct (Hok loc' Hres) as (Hu & Hlen & ds & Hds & Hall).
      split; [rewrite last_iterate_cons; exact Hu|].
      split; [simpl; now rewrite Hlen|].
      exists (d :: ds). split; [rewrite Hds, <- app_assoc; reflexivity|].
      constructor; [split; [reflexivity|exact Hd]|exact Hall].
    + intros e Hres. specialize (Hfail e Hres).
      unfold bench_failure in Hfail.
      cbn [nb] in Hfail. rewrite Htf in Hfail.
      destruct Hfail as [(j & Hj & Hfail)|(evs0 & pb & g & out & -> & Hout)].
      * left. exists j. split; [now right|]. rewrite Hq in Hfail. exact Hfail.
      * right. exists (Solve (bench_problem V x) (l_u loc) (Converged u) :: evs0),
          pb, g, out. split; [reflexivity|exact Hout].
Qed.
End BenchmarkChain.

Section BenchmarkIndependence.
Context {F : Type} `{PyFloat F} `{Dolfin F}.

Lemma bench_loop_indep (V : FunctionSpace) (steps : Z) (l : list Z)
    (loc : bench_locals) (w1 w2 : world F) :
  nb_total_force (nb w1) = nb_total_force (nb w2) ->
  fst (for_each l (bench_step V steps) loc w1)
    = fst (for_each l (bench_step V steps) loc w2) /\
  exists evs,
    trace (snd (for_each l (bench_step V steps) loc w1)) = trace w1 ++ evs /\
    trace (snd (for_each l (bench_step V steps) loc w2)) = trace w2 ++ evs.
Proof.
  revert loc w1 w2. induction l as [|i l IH]; intros loc w1 w2 Htf.
  - simpl. split; [reflexivity|]. exists []. now rewrite !app_nil_r.
  - rewrite !bench_loop_cons. unfold bench_step_outcome. rewrite <- Htf.
    destruct (nb_total_force (nb w1)) as [tf|] eqn:Htf1.
    2:{ simpl. split; [reflexivity|]. exists []. now rewrite !app_nil_r. }
    destruct (py_truediv tf steps) as [q|e].
    2:{ simpl. split; [reflexivity|]. exists []. now rewrite !app_nil_r. }
    destruct (py_mul q (i + 1)) as [x|e].
    2:{ simpl. split; [reflexivity|]. exists []. now rewrite !app_nil_r. }
    cbv zeta.
    destruct (newton _ (l_u loc)) as [u|u].
    2:{ simpl. split; [reflexivity|]. eexists [_]. split; reflexivity. }
    destruct (get_disp V u get_disp_pos get_disp_component) as [d|e].
    2:{ simpl. split; [reflexivity|]. eexists [_]. split; reflexivity. }
    match goal with
    | |- context [for_each l _ ?loc1 (World (nb w1) ?t1)] =>
        destruct (IH loc1 (World (nb w1) t1)
                    (World (nb w2) (trace w2 ++ [Solve (bench_problem V x)
                                                   (l_u loc) (Converged u)])))
          as (Hres & evs & Ht1 & Ht2); [cbn [nb]; congruence|]
    end.
    split; [exact Hres|].
    eexists (_ :: evs). cbn [trace] in Ht1, Ht2.
    rewrite Ht1, Ht2, <- !app_assoc. split; reflexivity.
Qed.
End BenchmarkIndependence.

Section RefineBenchmarkMore.
Context {F : Type} `{PyFloat F} `{Dolfin F}.

(** X11. [refine_benchmark] sees the notebook through [total_force]
    only.  From two states of the notebook that give [total_force]
    the same value (or both leave it undefined), whatever else they
    hold (another mesh, other boundary conditions, another field in
    [u], other recorded points), a call with the same partitions
    returns the same lists or raises the same exception, after the
    same solver calls and the same plot. *)
Theorem refine_benchmark_namespace (nx ny nz : Z) (w1 w2 : world F) :
  nb_total_force (nb w1) = nb_total_force (nb w2) ->
  fst (refine_benchmark nx ny nz w1) = fst (refine_benchmark nx ny nz w2) /\
  events_of (refine_benchmark nx ny nz) w1
    = events_of (refine_benchmark nx ny nz) w2.
Proof.
  intros Htf. unfold events_of, refine_benchmark.
  rewrite !refine_benchmark_eq. cbv zeta.
  match goal with
  | |- context [for_each (range 10) (bench_step ?V 10) ?loc w1] =>
      destruct (bench_loop_indep V 10 (range 10) loc w1 w2 Htf)
        as (Hres & evs & Ht1 & Ht2);
      destruct (for_each (range 10) (bench_step V 10) loc w1)
        as [r1 v1];
      destruct (for_each (range 10) (bench_step V 10) loc w2)
        as [r2 v2]
  end.
  cbn [fst snd] in Hres, Ht1, Ht2. subst r2.
  destruct r1 as [l|e]; cbn [fst snd trace].
  - destruct (plot_beam_arrays _ (l_u l)) as [arrays|e]; cbn [fst snd trace].
    + split; [reflexivity|].
      rewrite !drop_new_events with (evs := evs) by assumption. reflexivity.
    + split; [reflexivity|].
      now rewrite Ht1, Ht2, !drop_app_length.
  - split; [reflexivity|].
    now rewrite Ht1, Ht2, !drop_app_length.
Qed.

(** X12. The benchmark is solved by continuation on its own mesh.
    Every solver call of [refine_benchmark(nx,ny,nz)] is given the
    Guccione beam on the function space of the new mesh, clamped on
    the left only, under some pressure; the first call starts from the
    zero field with one entry per row of the DOF table of that space,
    every later one from the field that the call before it converged
    to; and only the last call of a run may have failed. *)
Theorem refine_benchmark_warm_start (nx ny nz : Z) (w : world F) :
  let V := VectorFunctionSpace (BoxMesh nx ny nz) "Lagrange" 1 in
  let zero := map (fun _ => of_int 0) (tabulate_dof_coordinates V) in
  let calls := solves (events_of (refine_benchmark nx ny nz) w) in
  length zero = length (tabulate_dof_coordinates V) /\
  warm_chain zero calls /\
  Forall (fun s => exists p, fst (fst s) = bench_problem V p) calls.
Proof.
  cbv zeta. split; [apply length_map|].
  unfold events_of, refine_benchmark. rewrite refine_benchmark_eq. cbv zeta.
  match goal with
  | |- context [for_each (range 10) (bench_step ?V 10) ?loc w] =>
      destruct (bench_loop_chain V 10 (range 10) loc w)
        as (evs & Ht & Hw & Hpb & _);
      destruct (for_each (range 10) (bench_step V 10) loc w)
        as [[l|e] w1]
  end; cbn [fst snd trace l_u] in *.
  - destruct (plot_beam_arrays _ (l_u l)) as [arrays|e]; cbn [fst snd trace].
    + rewrite drop_new_events with (evs := evs) by assumption.
      rewrite solves_snoc_plot. now split.
    + rewrite Ht, drop_app_length. now split.
  - rewrite Ht, drop_app_length. now split.
Qed.

(** X13. What [refine_benchmark] returns.  When the function returns
    [disp, pressures], it made ten solver calls, all converged, and
    nothing else before the plot; [disp] is [0] followed by what
    [get_disp] reads, at its default position and component, off the
    field that each call converged to, in order; and the beam is
    plotted once, at the end, on the new function space with the
    field of the last call. *)
Theorem refine_benchmark_result (nx ny nz : Z) (w : world F)
    (disp pressures : list (number F)) :
  fst (refine_benchmark nx ny nz w) = Ok (disp, pressures) ->
  let V := VectorFunctionSpace (BoxMesh nx ny nz) "Lagrange" 1 in
  let zero := map (fun _ => of_int 0) (tabulate_dof_coordinates V) in
  exists evs ds,
    events_of (refine_benchmark nx ny nz) w
      = evs ++ [Plot V (last_iterate zero (solves evs))] /\
    Forall (fun e => exists pb g out, e = Solve pb g out) evs /\
    length (solves evs) = 10%nat /\
    disp = Int 0 :: map Float ds /\
    Forall2 (bench_sample V) (solves evs) ds.
Proof.
  unfold events_of, refine_benchmark. rewrite refine_benchmark_eq. cbv zeta.
  match goal with
  | |- context [for_each (range 10) (bench_step ?V 10) ?loc w] =>
      destruct (bench_loop_chain V 10 (range 10) loc w)
        as (evs & Ht & _ & _ & Hok & _);
      destruct (bench_loop V 10 (range 10) loc w)
        as (_ & _ & evs' & k & Ht' & _ & Hsol & _);
      destruct (for_each (range 10) (bench_step V 10) loc w)
        as [[l|e] w1]
  end; cbn [fst snd trace l_u l_disp] in *; [|discriminate].
  destruct (plot_beam_arrays _ (l_u l)) as [arrays|e];
    cbn [fst snd trace]; [|discriminate].
  intros [= <- <-].
  destruct (Hok l eq_refl) as (Hu & Hlen & ds & Hds & Hall).
  assert (evs' = evs) as -> by (rewrite Ht in Ht'; now apply app_inv_head in Ht').
  exists evs, ds. rewrite drop_new_events with (evs := evs) by assumption.
  rewrite Hu.
  split; [reflexivity|]. split; [exact Hsol|].
  split; [rewrite Hlen; reflexivity|]. split; [exact Hds|exact Hall].
Qed.
End RefineBenchmarkMore.

Lemma binary64_mul_small (q : spec_float) (i : Z) :
  In i (range 10) -> py_mul q (i + 1) = Ok (fmul q (of_int (i + 1))).
Proof.
  unfold range. simpl.
  intros Hi. repeat destruct Hi as [<-|Hi]; try reflexivity. destruct Hi.
Qed.

Lemma binary64_bench_failure (D : Dolfin spec_float) (V : FunctionSpace)
    (w : world spec_float) (evs : list (event spec_float)) (e : exn)
    (tf : spec_float) :
  nb_total_force (nb w) = Some tf ->
  bench_failure V 10 (range 10) w evs e ->
  exists evs0 pb g out,
    evs = evs0 ++ [Solve pb g out] /\
    match out with
    | Diverged _ => e = RuntimeError
    | Converged u =>
        (e = ValueError \/ e = IndexError) /\
        get_disp V u get_disp_pos get_disp_component = Raise e
    end.
Proof.
  intros Htf. unfold bench_failure. rewrite Htf.
  intros [(i & Hi & _ & [Hdiv|(q & _ & Hmul)])|Hlast].
  - rewrite binary64_truediv_10 in Hdiv. discriminate.
  - rewrite (@binary64_mul_small q i Hi) in Hmul. discriminate.
  - exact Hlast.
Qed.

Section LoopSizes.
Context {F : Type} `{PyFloat F} `{Dolfin F}.
Hypothesis Hsize : keeps_size.

Lemma pressure_loop_size (steps : Z) (l : list Z) (w : world F) :
  length (nb_u (nb (snd (for_each l (pressure_step steps) tt w))))
    = length (nb_u (nb w)).
Proof.
  revert w. induction l as [|i l IH]; intros w; [reflexivity|].
  rewrite pressure_loop_cons. unfold pressure_step_outcome.
  destruct (nb_total_force (nb w)) as [tf|]; [|reflexivity].
  destruct (py_truediv tf steps) as [q|e]; [|reflexivity].
  destruct (py_mul q (i + 1)) as [x|e]; [|reflexivity].
  cbv zeta. pose proof (Hsize (problem_of (nb w)) (nb_u (nb w))) as Hk.
  destruct (newton (problem_of (nb w)) (nb_u (nb w))) as [u|u];
    [rewrite IH|]; exact Hk.
Qed.

Lemma bench_loop_size (V : FunctionSpace) (steps : Z) (l : list Z)
    (loc loc' : bench_locals) (w : world F) :
  fst (for_each l (bench_step V steps) loc w) = Ok loc' ->
  length (l_u loc') = length (l_u loc).
Proof.
  revert loc w. induction l as [|i l IH]; intros loc w.
  - simpl. now intros [= <-].
  - rewrite bench_loop_cons. unfold bench_step_outcome.
    destruct (nb_total_force (nb w)) as [tf|]; [|discriminate].
    destruct (py_truediv tf steps) as [q|e]; [|discriminate].
    destruct (py_mul q (i + 1)) as [x|e]; [|discriminate].
    cbv zeta. pose proof (Hsize (bench_problem V x) (l_u loc)) as Hk.
    destruct (newton _ (l_u loc)) as [u|u]; [|discriminate].
    destruct (get_disp V u get_disp_pos get_disp_component) as [d|e];
      [|discriminate].
    intros Hres. rewrite (IH _ _ Hres). exact Hk.
Qed.
End LoopSizes.

Section BenchmarkSound.
Context {F : Type} `{PyFloat F} `{Dolfin F}.

Lemma bench_loop_no_sampler_error (V : FunctionSpace) (steps : Z)
    (l : list Z) (loc : bench_locals) (w : world F) (e : exn) :
  keeps_size ->
  nodal_values 3 V (l_u loc) ->
  fst (for_each l (bench_step V steps) loc w) = Raise e ->
  e <> ValueError /\ e <> IndexError.
Proof.
  intros Hsize. revert loc w.
  induction l as [|i l IH]; intros loc w Hnodal.
  - discriminate.
  - rewrite bench_loop_cons. unfold bench_step_outcome.
    destruct (nb_total_force (nb w)) as [tf|].
    2:{ intros [= <-]. split; discriminate. }
    destruct (py_truediv tf steps) as [q|e'] eqn:Hq.
    2:{ intros [= <-].
        apply py_truediv_Raise in Hq as [->| ->]; split; discriminate. }
    destruct (py_mul q (i + 1)) as [x|e'] eqn:Hx.
    2:{ intros [= <-]. apply py_mul_Raise in Hx as ->. split; discriminate. }
    cbv zeta. pose proof (Hsize (bench_problem V x) (l_u loc)) as Hlen.
    destruct (newton _ (l_u loc)) as [u|u].
    2:{ intros [= <-]. split; discriminate. }
    simpl in Hlen.
    assert (nodal_values 3 V u) as Hu
      by (now apply nodal_values_size with (u := l_u loc)).
    destruct Hu as (Hpos & Hsz).
    destruct (@get_disp_nodal _ _ _ V u get_disp_pos 2%nat)
      as (j & d & _ & _ & _ & Hd); [exact Hpos|exact Hsz|lia|].
    change (Z.of_nat 2) with get_disp_component in Hd. rewrite Hd.
    apply IH. now split.
Qed.
End BenchmarkSound.

(** X14. How [refine_benchmark] fails.  In double precision, a call
    that raises has plotted nothing and returned nothing.  It raises
    [NameError], before any solver call, exactly when the notebook has
    no [total_force]; otherwise the exception comes after the last
    solver call of the run: [RuntimeError] if that call diverged, and
    if it converged, a [ValueError] or [IndexError], either of
    [get_disp] on its result or, all ten calls having converged and
    been sampled, of the final [plot_beam].  When the solver returns
    fields of the size of its guess and the DOF table of the new
    function space has three rows for each node, neither [get_disp]
    nor [plot_beam] can raise: the exception is the [NameError] or
    the solver's [RuntimeError]. *)
Theorem refine_benchmark_failure (D : Dolfin spec_float) (nx ny nz : Z)
    (w : world spec_float) (e : exn) :
  fst (refine_benchmark nx ny nz w) = Raise e ->
  let V := VectorFunctionSpace (BoxMesh nx ny nz) "Lagrange" 1 in
  let zero := map (fun _ => of_int 0) (tabulate_dof_coordinates V) in
  let evs := events_of (refine_benchmark nx ny nz) w in
  Forall (fun ev => exists pb g out, ev = Solve pb g out) evs /\
  match nb_total_force (nb w) with
  | None => e = NameError "total_force" /\ evs = []
  | Some _ =>
      exists evs0 pb g out,
        evs = evs0 ++ [Solve pb g out] /\
        match out with
        | Diverged _ => e = RuntimeError
        | Converged u =>
            (e = ValueError \/ e = IndexError) /\
            (get_disp V u get_disp_pos get_disp_component = Raise e \/
             length (solves evs) = 10%nat /\
             (exists d,
                 get_disp V u get_disp_pos get_disp_component = Ok d) /\
             plot_beam_arrays V u = Raise e)
        end
  end /\
  (keeps_size -> nodal_values 3 V zero ->
   e = NameError "total_force" \/ e = RuntimeError).
Proof.
  unfold events_of, refine_benchmark. rewrite refine_benchmark_eq. cbv zeta.
  match goal with
  | |- context [for_each (range 10) (bench_step ?V 10) ?loc w] =>
      destruct (bench_loop_chain V 10 (range 10) loc w)
        as (evs & Ht & _ & _ & Hok & Hfail);
      destruct (bench_loop V 10 (range 10) loc w)
        as (_ & Hname & evs' & k & Ht' & _ & Hsol & _);
      pose proof (fun e => @bench_loop_no_sampler_error _ _ _ V 10
                             (range 10) loc w e) as Hsound;
      pose proof (fun Hs loc' => @bench_loop_size _ _ _ Hs V 10
                                   (range 10) loc loc' w) as Hsize;
      destruct (for_each (range 10) (bench_step V 10) loc w)
        as [[l|e'] w1]
  end; cbn [fst snd trace l_u] in *.
  - (* the loop returned: the exception is the plot's *)
    destruct (plot_beam_arrays _ (l_u l)) as [arrays|e'] eqn:Hplot;
      cbn [fst snd trace]; [discriminate|].
    intros [= ->].
    assert (evs' = evs) as ->
      by (rewrite Ht in Ht'; now apply app_inv_head in Ht').
    rewrite Ht, drop_app_length. split; [exact Hsol|].
    destruct (Hok l eq_refl) as (Hu & Hlen & ds & _ & Hall).
    pose proof (plot_beam_Raise _ _ Hplot) as He.
    split.
    + destruct (nb_total_force (nb w)) as [tf|] eqn:Htf.
      2:{ assert (range 10 <> []) as Hne
            by (unfold range; simpl; discriminate).
          specialize (Hname eq_refl Hne). discriminate Hname. }
      destruct (last (solves evs)) as [[[pb g] out]|] eqn:Hlast.
      2:{ apply last_None in Hlast. rewrite Hlast in Hlen.
          discriminate Hlen. }
      destruct (Forall2_last Hall Hlast) as (d & _ & Hconv & Hget).
      simpl in Hconv, Hget.
      destruct (solves_last_event Hsol Hlast) as (evs0 & Hevs).
      exists evs0, pb, g, out. split; [exact Hevs|].
      rewrite Hconv. split; [exact He|]. right.
      split; [rewrite Hlen; reflexivity|]. split; [eauto|].
      unfold last_iterate in Hu. rewrite Hlast in Hu. now rewrite <- Hu.
    + intros Hs Hnodal. exfalso.
      match type of Hplot with
      | plot_beam_arrays ?V0 _ = _ =>
          destruct (@plot_beam_defined _ _ _ V0 (l_u l)) as (arrays & Hdef)
      end.
      { apply nodal_values_size with (2 := Hnodal).
        exact (Hsize Hs l eq_refl). }
      rewrite Hdef in Hplot. discriminate Hplot.
  - (* the loop raised *)
    intros [= ->].
    assert (evs' = evs) as ->
      by (rewrite Ht in Ht'; now apply app_inv_head in Ht').
    rewrite Ht, drop_app_length. split; [exact Hsol|].
    specialize (Hfail e eq_refl).
    destruct (nb_total_force (nb w)) as [tf|] eqn:Htf.
    + destruct (@binary64_bench_failure D _ _ _ _ _ Htf Hfail)
        as (evs0 & pb & g & out & Hevs & Hout).
      split.
      * exists evs0, pb, g, out. split; [exact Hevs|].
        destruct out as [u|u]; [|exact Hout].
        destruct Hout as (He & Hget). split; [exact He|now left].
      * intros Hs Hnodal.
        destruct (Hsound e Hs Hnodal eq_refl) as (Hv & Hi).
        destruct out as [u|u]; [|now right].
        destruct Hout as ([->| ->] & _); contradiction.
    + unfold bench_failure in Hfail. rewrite Htf in Hfail.
      split; [exact Hfail|]. intros _ _. left. apply Hfail.
Qed.

Section BenchmarkCompletes.
Context {F : Type} `{PyFloat F} `{Dolfin F}.

Lemma bench_loop_complete (V : FunctionSpace) (steps : Z) (l : list Z)
    (loc : bench_locals) (w : world F) (tf q : F) :
  nb_total_force (nb w) = Some tf ->
  py_truediv tf steps = Ok q ->
  Forall (fun i => exists x, py_mul q (i + 1) = Ok x) l ->
  always_converges ->
  nodal_values 3 V (l_u loc) ->
  exists loc', fst (for_each l (bench_step V steps) loc w) = Ok loc'.
Proof.
  intros Htf Hq Hl Hconv. revert loc w Htf.
  induction Hl as [|i l (x & Hx) Hl IH]; intros loc w Htf Hnodal.
  - simpl. eauto.
  - rewrite bench_loop_cons. unfold bench_step_outcome.
    rewrite Htf, Hq, Hx. cbv zeta.
    destruct (Hconv (bench_problem V x) (l_u loc)) as (u & -> & Hlen).
    destruct Hnodal as (Hpos & Hsize).
    destruct (@get_disp_nodal _ _ _ V u get_disp_pos 2%nat)
      as (j & d & _ & _ & _ & Hd);
      [exact Hpos|now rewrite Hlen|lia|].
    change (Z.of_nat 2) with get_disp_component in Hd. rewrite Hd.
    apply IH; [exact Htf|].
    split; [exact Hpos|cbn [l_u]; now rewrite Hlen].
Qed.
End BenchmarkCompletes.

(** X15. When [refine_benchmark] returns.  In double precision, if
    [total_force] is defined, the function space of the new mesh has
    at least one node and three rows of its DOF table for each, and
    the solver converges from every guess to a field of the size of
    the guess, then [refine_benchmark] returns its two lists, of
    eleven entries each. *)
Theorem refine_benchmark_completes (D : Dolfin spec_float) (nx ny nz : Z)
    (w : world spec_float) (tf : spec_float) :
  nb_total_force (nb w) = Some tf ->
  always_converges ->
  let V := VectorFunctionSpace (BoxMesh nx ny nz) "Lagrange" 1 in
  nodal_values 3 V (map (fun _ => of_int 0) (tabulate_dof_coordinates V)) ->
  exists disp pressures,
    fst (refine_benchmark nx ny nz w) = Ok (disp, pressures) /\
    length disp = 11%nat /\ length pressures = 11%nat.
Proof.
  intros Htf Hconv V Hnodal.
  unfold refine_benchmark. rewrite refine_benchmark_eq. cbv zeta.
  match goal with
  | |- context [for_each (range 10) (bench_step ?V 10) ?loc w] =>
      destruct (@bench_loop_complete _ _ _ V 10 (range 10) loc w tf
                  (fdiv tf (of_int 10)) Htf (binary64_truediv_10 tf))
        as (loc' & Hres);
      [ apply List.Forall_forall; intros i Hi; eexists;
        apply (@binary64_mul_small _ i Hi)
      | exact Hconv | exact Hnodal | ];
      destruct (bench_loop V 10 (range 10) loc w)
        as (_ & _ & evs & k & _ & _ & _ & _ & Hok);
      pose proof (fun loc' =>
                    @bench_loop_size _ _ _
                      (always_converges_keeps_size Hconv) V 10
                      (range 10) loc loc' w) as Hsize;
      destruct (for_each (range 10) (bench_step V 10) loc w)
        as [[l|e] w1]
  end; cbn [fst snd l_u] in *; [|discriminate].
  destruct (Hok l eq_refl) as (_ & Hlen & Hp).
  match goal with
  | |- context [plot_beam_arrays ?V0 (l_u l)] =>
      destruct (@plot_beam_defined _ _ _ V0 (l_u l)) as (arrays & ->)
  end.
  { apply nodal_values_size with (2 := Hnodal). exact (Hsize l eq_refl). }
  exists (l_disp l), (l_pressures l).
  split; [reflexivity|]. split; [exact Hlen|].
  rewrite (Hp tf Htf). reflexivity.
Qed.

(** ** More about cell 43 *)

Section PressureChain.
Context {F : Type} `{PyFloat F} `{Dolfin F}.

Lemma solves_cons_print (i n : Z) (x : F) (evs : list (event F)) :
  solves (Print i n x :: evs) = solves evs.
Proof. reflexivity. Qed.

Lemma pressure_loop_chain (steps : Z) (l : list Z) (w : world F) :
  let run := for_each l (pressure_step steps) tt w in
  exists evs,
    trace (snd run) = trace w ++ evs /\
    warm_chain (nb_u (nb w)) (solves evs) /\
    nb_u (nb (snd run)) = last_iterate (nb_u (nb w)) (solves evs) /\
    (fst run = Ok tt ->
       Forall (fun s => converged (snd s) = true) (solves evs)) /\
    (forall e, fst run = Raise e -> pressure_failure steps l w evs e).
Proof.
  revert w. induction l as [|i l IH]; intros w; cbv zeta.
  - simpl. exists []. rewrite app_nil_r.
    split; [reflexivity|]. split; [exact I|]. split; [reflexivity|].
    split; [constructor|discriminate].
  - rewrite pressure_loop_cons. unfold pressure_step_outcome, pressure_failure.
    destruct (nb_total_force (nb w)) as [tf|] eqn:Htf.
    2:{ simpl. exists []. rewrite app_nil_r.
        split; [reflexivity|]. split; [exact I|]. split; [reflexivity|].
        split; [discriminate|]. now intros e [= <-]. }
    destruct (py_truediv tf steps) as [q|e] eqn:Hq.
    2:{ simpl. exists []. rewrite app_nil_r.
        split; [reflexivity|]. split; [exact I|]. split; [reflexivity|].
        split; [discriminate|]. intros e' [= <-]. left. exists i.
        split; [now left|]. split; [|now left].
        apply py_truediv_Raise in Hq. tauto. }
    destruct (py_mul q (i + 1)) as [x|e] eqn:Hx.
    2:{ simpl. exists []. rewrite app_nil_r.
        split; [reflexivity|]. split; [exact I|]. split; [reflexivity|].
        split; [discriminate|]. intros e' [= <-]. left. exists i.
        split; [now left|]. split; [|right; eauto].
        apply py_mul_Raise in Hx. tauto. }
    cbv zeta.
    destruct (newton (problem_of (nb w)) (nb_u (nb w))) as [u|u] eqn:Hn.
    2:{ cbn [iterate fst snd nb trace nb_u with_u].
        eexists [_; _]. split; [reflexivity|].
        rewrite solves_cons_print, solves_cons_solve.
        split; [simpl; auto|]. split; [reflexivity|].
        split; [discriminate|]. intros e' [= <-]. right.
        split; [reflexivity|].
        eexists [_], _, _, _. reflexivity. }
    cbn [iterate]. cbv beta iota.
    match goal with
    | |- context [for_each l _ tt ?w1] => specialize (IH w1)
    end.
    cbv zeta in IH.
    destruct IH as (evs & Ht & Hw & Hu & Hok & Hfail).
    cbn [nb trace nb_u with_u] in Ht, Hw, Hu.
    exists (Print (i + 1) steps x
            :: Solve (problem_of (nb w)) (nb_u (nb w)) (Converged u) :: evs).
    rewrite solves_cons_print, solves_cons_solve.
    split; [rewrite Ht, <- app_assoc; reflexivity|].
    split; [apply warm_chain_cons; [now right|exact Hw]|].
    split; [rewrite last_iterate_cons; exact Hu|].
    split.
    + intros Hres. constructor; [reflexivity|now apply Hok].
    + intros e Hres. specialize (Hfail e Hres).
      unfold pressure_failure in Hfail. cbn [nb] in Hfail.
      change (nb_total_force (with_u u (nb w)))
        with (nb_total_force (nb w)) in Hfail.
      rewrite Htf in Hfail.
      destruct Hfail as [(j & Hj & Hfail)
                        |(-> & evs0 & pb & g & u' & ->)].
      * left. exists j. split; [now right|]. rewrite Hq in Hfail. exact Hfail.
      * right. split; [reflexivity|].
        eexists (_ :: _ :: evs0), pb, g, u'. reflexivity.
Qed.
End PressureChain.

Section Cell43More.
Context {F : Type} `{PyFloat F} `{Dolfin F}.

Lemma cell43_chain (w : world F) :
  let zero := map (fun _ => of_int 0) (nb_u (nb w)) in
  let w0 := World (with_total_force (flit 4 1000) (with_u zero (nb w)))
                  (trace w) in
  exists evs,
    warm_chain zero (solves evs) /\
    nb_u (nb (snd (cell43 w))) = last_iterate zero (solves evs) /\
    Forall (fun e => forall V u, e <> Plot V u) evs /\
    match fst (cell43 w) with
    | Ok _ =>
        events_of cell43 w
          = evs ++ [Plot (nb_V (nb w)) (nb_u (nb (snd (cell43 w))))] /\
        length (solves evs) = 10%nat /\
        Forall (fun s => converged (snd s) = true) (solves evs)
    | Raise e =>
        events_of cell43 w = evs /\
        (pressure_failure 10 (range 10) w0 evs e \/
         length (solves evs) = 10%nat /\
         Forall (fun s => converged (snd s) = true) (solves evs) /\
         plot_beam_arrays (nb_V (nb w)) (nb_u (nb (snd (cell43 w))))
           = Raise e)
    end.
Proof.
  cbv zeta. unfold events_of. rewrite cell43_eq. cbv zeta.
  match goal with
  | |- context [for_each (range 10) _ tt ?w0] =>
      destruct (pressure_loop_chain 10 (range 10) w0)
        as (evs & Ht & Hw & Hu & Hok & Hfail);
      destruct (pressure_loop 10 (range 10) w0)
        as (u' & evs' & k & Hnb & Ht' & _ & _ & Hs & _ & Hk & Hpl)
  end.
  cbn [nb trace nb_u with_u with_total_force] in Ht, Hw, Hu, Ht', Hnb.
  assert (evs' = evs) as ->
    by (rewrite Ht in Ht'; now apply app_inv_head in Ht').
  exists evs. split; [exact Hw|].
  destruct (for_each _ _ _ _) as [[[]|e] w1]; cbn [fst snd nb trace] in *.
  - assert (nb_V (nb w1) = nb_V (nb w)) as HV by (now rewrite Hnb).
    destruct (plot_beam_arrays (nb_V (nb w1)) (nb_u (nb w1)))
      as [arrays|e] eqn:Hplot; cbn [fst snd nb trace].
    + split; [exact Hu|]. split; [exact Hpl|].
      rewrite drop_new_events with (evs := evs) by exact Ht.
      rewrite HV. split; [reflexivity|].
      split; [rewrite Hs, (Hk eq_refl); apply range_length|now apply Hok].
    + split; [exact Hu|]. split; [exact Hpl|].
      rewrite Ht, drop_app_length. split; [reflexivity|]. right.
      split; [rewrite Hs, (Hk eq_refl); apply range_length|].
      split; [now apply Hok|]. now rewrite <- HV.
  - split; [exact Hu|]. split; [exact Hpl|].
    rewrite Ht, drop_app_length. split; [reflexivity|].
    left. now apply Hfail.
Qed.

(** X16. Cell 43 is solved by continuation.  The first solver call
    of cell 43 starts from the zero field with as many entries as [u]
    had, every later one from the field that the call before it
    converged to, and only the last call may have failed.  Afterwards
    [u] holds the field of the last call, converged or not (the zero
    field if there was none).  When the cell completes, it made ten
    solver calls, all converged, and then plotted [u] once, on the
    function space [V] of the notebook. *)
Theorem cell43_warm_start (w : world F) :
  let zero := map (fun _ => of_int 0) (nb_u (nb w)) in
  let after := nb (snd (cell43 w)) in
  exists evs,
    Forall (fun e => forall V u, e <> Plot V u) evs /\
    warm_chain zero (solves evs) /\
    nb_u after = last_iterate zero (solves evs) /\
    (forall e, fst (cell43 w) = Raise e -> events_of cell43 w = evs) /\
    (fst (cell43 w) = Ok tt ->
       events_of cell43 w = evs ++ [Plot (nb_V (nb w)) (nb_u after)] /\
       length (solves evs) = 10%nat /\
       Forall (fun s => converged (snd s) = true) (solves evs)).
Proof.
  cbv zeta. destruct (cell43_chain w) as (evs & Hw & Hu & Hpl & Hcase).
  exists evs. split; [exact Hpl|]. split; [exact Hw|]. split; [exact Hu|].
  destruct (fst (cell43 w)) as [[]|e].
  - split; [discriminate|]. intros _. exact Hcase.
  - split; [|discriminate]. intros e' _. apply Hcase.
Qed.

(** X17. [refine_benchmark] after cell 43.  Cell 43 defines
    [total_force] as 0.004 before its first solve, so also when it
    fails.  A call of [refine_benchmark] made after cell 43 has run,
    completed or not, therefore never raises [NameError], and the
    pressures it applies are, in order, the first of the ten values
    that cell 43 reports on its progress lines. *)
Theorem benchmark_after_cell43 (nx ny nz : Z) (w : world F) :
  let w1 := snd (cell43 w) in
  let reported :=
    map (fun k => fmul (fdiv (flit 4 1000) (of_int 10)) (of_int k))
        (seqZ 1 10) in
  nb_total_force (nb w1) = Some (flit 4 1000) /\
  (forall name, fst (refine_benchmark nx ny nz w1) <> Raise (NameError name)) /\
  (exists k, (k <= 10)%nat /\
     printed (events_of cell43 w) = take k reported) /\
  (exists k, (k <= 10)%nat /\
     applied_pressures (events_of (refine_benchmark nx ny nz) w1)
       = map Some (take k reported)).
Proof.
  cbv zeta.
  destruct (cell43_run w) as (u' & k & Hnb & _ & Hk & _ & Hp & _).
  assert (nb_total_force (nb (snd (cell43 w))) = Some (flit 4 1000)) as Htf
    by (rewrite Hnb; reflexivity).
  split; [exact Htf|].
  split; [|split; [exists k; now split|]].
  - intros name Hname. unfold refine_benchmark in Hname.
    rewrite refine_benchmark_eq in Hname. cbv zeta in Hname.
    match type of Hname with
    | context [for_each (range 10) (bench_step ?V 10) ?loc ?w1] =>
        destruct (bench_loop_chain V 10 (range 10) loc w1)
          as (evs & _ & _ & _ & _ & Hfail);
        destruct (for_each (range 10) (bench_step V 10) loc w1)
          as [[l|e] w2]
    end; cbn [fst snd] in *.
    { destruct (plot_beam_arrays _ (l_u l)) as [arrays|e] eqn:Hplot;
        [discriminate|].
      injection Hname as ->.
      destruct (plot_beam_Raise _ _ Hplot); discriminate. }
    injection Hname as ->. specialize (Hfail _ eq_refl).
    unfold bench_failure in Hfail. rewrite Htf in Hfail.
    destruct Hfail as [(i & _ & [He|He] & _)|(evs0 & pb & g & out & _ & Hout)];
      try discriminate.
    destruct out; [destruct Hout as ([He|He] & _)|]; discriminate.
  - unfold events_of, refine_benchmark. rewrite refine_benchmark_eq. cbv zeta.
    match goal with
    | |- context [for_each (range 10) (bench_step ?V 10) ?loc ?w1] =>
        destruct (bench_loop V 10 (range 10) loc w1)
          as (_ & _ & evs & k' & Ht & Hk' & _ & Happ & _);
        destruct (for_each (range 10) (bench_step V 10) loc w1)
          as [[l|e] w2]
    end; cbn [fst snd trace] in *.
    all: specialize (Happ _ Htf); rewrite range_length in Hk'.
    all: rewrite <- firstn_map, (map_range_succ
           (fun k => Some (fmul (fdiv (flit 4 1000) (of_int 10)) (of_int k))))
           in Happ.
    all: exists k'; split; [exact Hk'|].
    + destruct (plot_beam_arrays _ (l_u l)) as [arrays|e];
        cbn [fst snd trace].
      * rewrite drop_new_events with (evs := evs) by exact Ht.
        unfold applied_pressures. rewrite solves_snoc_plot.
        fold (applied_pressures evs). rewrite Happ.
        now rewrite <- firstn_map, map_map.
      * rewrite Ht, drop_app_length, Happ.
        now rewrite <- firstn_map, map_map.
    + rewrite Ht, drop_app_length, Happ.
      now rewrite <- firstn_map, map_map.
Qed.
End Cell43More.

Lemma binary64_pressure_failure (w0 : world spec_float)
    (evs : list (event spec_float)) (e : exn) (tf : spec_float) :
  nb_total_force (nb w0) = Some tf ->
  pressure_failure 10 (range 10) w0 evs e ->
  e = RuntimeError /\
  exists evs0 pb g u, evs = evs0 ++ [Solve pb g (Diverged u)].
Proof.
  intros Htf. unfold pressure_failure. rewrite Htf.
  intros [(i & Hi & _ & [Hdiv|(q & _ & Hmul)])|Hlast].
  - rewrite binary64_truediv_10 in Hdiv. discriminate.
  - rewrite (@binary64_mul_small q i Hi) in Hmul. discriminate.
  - exact Hlast.
Qed.

(** X18. How cell 43 fails.  In double precision, if cell 43 raises,
    nothing was plotted and [total_force] is 0.004 all the same; and
    either the exception is the solver's [RuntimeError], the last
    thing the cell did was a solver call that diverged and its
    iterate is left in [u]; or all ten solver calls converged and
    the exception is the [ValueError] or [IndexError] of the final
    [plot_beam] on [V] and [u].  When the solver returns fields of
    the size of its guess and [u] held three values for each node of
    [V], [plot_beam] cannot raise and the only exception of the cell
    is the solver's. *)
Theorem cell43_failure (D : Dolfin spec_float) (w : world spec_float)
    (e : exn) :
  fst (cell43 w) = Raise e ->
  let after := nb (snd (cell43 w)) in
  let evs := events_of cell43 w in
  nb_total_force after = Some (flit 4 1000) /\
  Forall (fun ev => forall V u, ev <> Plot V u) evs /\
  ((e = RuntimeError /\
    exists evs0 pb g u,
      evs = evs0 ++ [Solve pb g (Diverged u)] /\ nb_u after = u) \/
   ((e = ValueError \/ e = IndexError) /\
    length (solves evs) = 10%nat /\
    Forall (fun s => converged (snd s) = true) (solves evs) /\
    plot_beam_arrays (nb_V (nb w)) (nb_u after) = Raise e)) /\
  (keeps_size -> nodal_values 3 (nb_V (nb w)) (nb_u (nb w)) ->
   e = RuntimeError).
Proof.
  intros Hres. cbv zeta.
  destruct (cell43_chain w) as (evs & _ & Hu & Hpl & Hcase).
  destruct (cell43_run w) as (u' & k & Hnb & _).
  rewrite Hres in Hcase. destruct Hcase as (Hevs & Hfail). rewrite Hevs.
  split; [rewrite Hnb; reflexivity|]. split; [exact Hpl|].
  destruct Hfail as [Hfail|(Hlen & Hconv & Hplot)].
  - apply binary64_pressure_failure with (tf := flit 4 1000) in Hfail
      as (-> & evs0 & pb & g & u & ->); [|reflexivity].
    split; [|reflexivity]. left. split; [reflexivity|].
    exists evs0, pb, g, u. split; [reflexivity|].
    rewrite Hu, solves_app. simpl.
    unfold last_iterate. now rewrite last_snoc.
  - pose proof (plot_beam_Raise _ _ Hplot) as He.
    split; [right; auto|].
    intros Hsize Hnodal. exfalso.
    assert (length (nb_u (nb (snd (cell43 w)))) = length (nb_u (nb w)))
      as Hsz.
    { rewrite cell43_eq. cbv zeta.
      match goal with
      | |- context [for_each (range 10) _ tt ?w0] =>
          pose proof (pressure_loop_size Hsize 10 (range 10) w0) as Hl;
          destruct (for_each (range 10) (pressure_step 10) tt w0)
            as [[[]|e0] w1]
      end; simpl in Hl.
      - destruct (plot_beam_arrays (nb_V (nb w1)) (nb_u (nb w1))); simpl;
          rewrite Hl; apply length_map.
      - simpl. rewrite Hl. apply length_map. }
    destruct (@plot_beam_defined _ _ _ (nb_V (nb w))
                (nb_u (nb (snd (cell43 w))))) as (arrays & Hdef).
    { now apply nodal_values_size with (u := nb_u (nb w)). }
    rewrite Hdef in Hplot. discriminate Hplot.
Qed.

(** ** [plot_beam] *)


Section PlotBeamNodes.
Context {F : Type} `{PyFloat F} `{Dolfin F}.

(** X19. What [plot_beam] shows.  For a field with three values at
    each node of [V], [plot_beam(V, u)] raises nothing and draws two
    sets of markers of the same size: one marker for each node whose
    y coordinate compares equal to [0.0] and for no other node, in
    node order; the black marker at the (x, z) coordinates of the
    node, the red one at these plus the x and z components of the
    displacement at that node.  The y component of the displacement
    is not used. *)
Theorem plot_beam_face_nodes (V : FunctionSpace) (u : list F) :
  nodal_values 3 V u ->
  let nodes := node_coordinates 3 V in
  let face := np_where (map (fun c => is_zero (snd (fst c))) nodes) in
  (forall j, j ∈ face <->
     exists c, nodes !! j = Some c /\ is_zero (snd (fst c)) = true) /\
  (forall i i' j j', (i < i')%nat ->
     face !! i = Some j -> face !! i' = Some j' -> (j < j')%nat) /\
  exists x0 z0 x1 z1,
    plot_beam_arrays V u = Ok ((x0, z0), (x1, z1)) /\
    length x0 = length face /\ length z0 = length face /\
    length x1 = length face /\ length z1 = length face /\
    forall i j, face !! i = Some j ->
      exists x y z ux uz,
        nodes !! j = Some (x, y, z) /\
        u !! (j * 3)%nat = Some ux /\ u !! (j * 3 + 2)%nat = Some uz /\
        x0 !! i = Some x /\ z0 !! i = Some z /\
        x1 !! i = Some (fadd x ux) /\ z1 !! i = Some (fadd z uz).
Proof. exact (@plot_beam_nodal _ _ _ V u). Qed.
End PlotBeamNodes.

Section PlotBeamErrors.
Context {F : Type} `{PyFloat F} `{Dolfin F}.

Lemma np_add_mismatch (a b : list (list F)) :
  length a <> length b -> length a <> 1%nat -> length b <> 1%nat ->
  np_add a b = Raise ValueError.
Proof.
  intros Hab Ha Hb. unfold np_add.
  destruct (Nat.eqb_spec (length a) (length b)) as [Heq|_]; [contradiction|].
  destruct a as [|ra [|ra' a]]; destruct b as [|rb [|rb' b]];
    simpl in *; congruence.
Qed.

(** X20. When [plot_beam] raises.  [plot_beam(V, u)] raises
    [ValueError] when the number of entries of [u] is not a multiple
    of three, and also when [u] holds three values for each of [m]
    nodes while [V] has another number [n] of nodes, unless [m] or
    [n] is one (numpy then adds the single row to every row of the
    other array). *)
Theorem plot_beam_errors (V : FunctionSpace) (u : list F) :
  ((length u mod 3 <> 0)%nat -> plot_beam_arrays V u = Raise ValueError) /\
  (forall m,
      length u = (3 * m)%nat ->
      m <> length (node_coordinates 3 V) ->
      length (node_coordinates 3 V) <> 1%nat -> m <> 1%nat ->
      plot_beam_arrays V u = Raise ValueError).
Proof.
  split.
  - intros Hmod. unfold plot_beam_arrays.
    now rewrite reshape_ragged by exact Hmod.
  - intros m Hlen Hm Hn Hm1. unfold plot_beam_arrays.
    rewrite reshape_ok with (n := m) by (lia || exact Hlen). simpl.
    rewrite np_add_mismatch; [reflexivity| | |];
      rewrite ?length_map, ?rows_of_length; auto.
Qed.
End PlotBeamErrors.

(** ** The plots of the cells *)

Section PlotsOfCells.
Context {F : Type} `{PyFloat F} `{Dolfin F}.




End PlotsOfCells.

(** ** The properties above on the demonstration frameworks *)

Lemma demo_nodes_distinct : NoDup (@Demo.nodes R exact).
Proof.
  unfold Demo.nodes. simpl.
  repeat (apply NoDup_cons; split);
    try (rewrite ?elem_of_cons, ?elem_of_nil;
         intros Hin; repeat destruct Hin as [Hin|Hin]; try easy;
         injection Hin; intros; lra).
  apply NoDup_nil_2.
Qed.


Lemma demo_brittle_keeps_size {F : Type} `{PyFloat F} (limit : Z) :
  @keeps_size F (Demo.brittle limit).
Proof.
  intros pb guess. simpl. destruct (fgeb _ _); apply length_map.
Qed.

Lemma sample_at_node_witness :
  let bar_V := nb_V (@Demo.notebook0 _ exact []) in
  let bar_Z := nb_Z (@Demo.notebook0 _ exact []) in
  let u := @Demo.field _ exact (1, 5, 9)%Z in
  @get_disp _ _ Demo.robust bar_V u (10, 1 / 2, 1)%R 0 = Ok 9%R /\
  @get_stress _ _ Demo.robust bar_Z (W_neohook 1%R 10%R) u
    (5, 1 / 2, 1 / 2)%R 0 = Ok 5%R.
Proof.
  intros bar_V bar_Z u.
  destruct (@sample_at_node Demo.robust bar_V bar_Z (W_neohook 1%R 10%R) u
              2%nat 1%nat (10, 1 / 2, 1)%R (5, 1 / 2, 1 / 2)%R 0%nat 0%nat)
    as ((x & Hx & Hd) & (y & Hy & Hs)).
  - split; simpl; lia.
  - lia.
  - exact demo_nodes_distinct.
  - reflexivity.
  - split; simpl; lia.
  - lia.
  - exact demo_nodes_distinct.
  - reflexivity.
  - injection Hx as <-. injection Hy as <-. split; [exact Hd|exact Hs].
Defined.

Lemma sample_at_nan_witness :
  let bar_V := nb_V (@Demo.notebook0 _ binary64 []) in
  let bar_Z := nb_Z (@Demo.notebook0 _ binary64 []) in
  let u := @Demo.field _ binary64 (1, 5, 9)%Z in
  let nowhere := (S754_nan, Binary64.of_Z 0, Binary64.of_Z 0) in
  has_nan nowhere = true /\
  @get_disp _ _ Demo.robust bar_V u nowhere 0 = Ok (Binary64.of_Z 1) /\
  @get_stress _ _ Demo.robust bar_Z (W_neohook (of_int 1) (of_int 10)) u
    nowhere 0 = Ok (Binary64.of_Z 1).
Proof.
  intros bar_V bar_Z u nowhere. split; [reflexivity|].
  destruct (@sample_at_nan Demo.robust bar_V bar_Z
              (W_neohook (of_int 1) (of_int 10)) u nowhere 0%nat 0%nat)
    as ((x & Hx & Hd) & (y & Hy & Hs)).
  - reflexivity.
  - split; simpl; lia.
  - lia.
  - split; simpl; lia.
  - lia.
  - injection Hx as <-. injection Hy as <-. split; [exact Hd|exact Hs].
Defined.

Lemma sampler_errors_witness :
  let V := VectorFunctionSpace (BoxMesh 20 2 2) "Lagrange" 1 in
  let here := (Binary64.of_Z 10, Binary64.of_Z 0, Binary64.of_Z 1) in
  @get_disp _ binary64 Hollow.framework V [] here 2 = Raise ValueError /\
  @get_disp _ binary64 Demo.robust V (map Binary64.of_Z [1; 2; 3; 4]%Z) here 2
    = Raise ValueError /\
  @get_disp _ binary64 Demo.robust V (Demo.field (1, 5, 9)%Z) here 3
    = Raise IndexError.
Proof.
  intros V here. split; [|split].
  - apply (proj1 (@sampler_errors _ binary64 Hollow.framework V V
                    W_guccione [] here 2)).
    reflexivity.
  - apply (proj1 (proj2 (@sampler_errors _ binary64 Demo.robust V V
                           W_guccione (map Binary64.of_Z [1; 2; 3; 4]%Z)
                           here 2))).
    + discriminate.
    + simpl. lia.
  - apply (proj1 (proj2 (proj2 (@sampler_errors _ binary64 Demo.robust V V
                                  W_guccione (Demo.field (1, 5, 9)%Z)
                                  here 3)))).
    + split; simpl; lia.
    + lia.
Defined.

Lemma sampler_negative_component_witness :
  let V := VectorFunctionSpace (BoxMesh 20 2 2) "Lagrange" 1 in
  let here := (Binary64.of_Z 10, Binary64.of_Z 0, Binary64.of_Z 1) in
  @get_disp _ binary64 Demo.robust V (Demo.field (1, 5, 9)%Z) here (-3)
    = @get_disp _ binary64 Demo.robust V (Demo.field (1, 5, 9)%Z) here 0.
Proof.
  intros V here.
  apply (proj1 (@sampler_negative_component _ binary64 Demo.robust V V
                  W_guccione (Demo.field (1, 5, 9)%Z) here 0)).
  lia.
Defined.

Lemma node_coordinates_blocks_witness :
  let V := VectorFunctionSpace (BoxMesh 20 2 2) "Lagrange" 1 in
  @node_coordinates _ (@Demo.robust _ binary64) 3 V = Demo.nodes /\
  length (@node_coordinates _ (@Demo.robust _ binary64) 3 V) = 3%nat.
Proof.
  intros V.
  apply (@node_coordinates_blocks _ (@Demo.robust _ binary64) 3 V
           (map (fun c => repeat c 3) Demo.nodes)).
  - lia.
  - repeat constructor.
  - reflexivity.
Defined.

Lemma first_solve_from_zero_witness :
  let w := @Demo.world1 _ binary64 (Demo.field (2, 5, 9)%Z) in
  match solves (events_of (@cell29 _ binary64 Demo.robust 3 (of_int 10)) w)
          !! 0%nat with
  | Some (_, guess, _) => guess = Demo.field (0, 0, 0)%Z
  | None => False
  end.
Proof.
  intros w.
  destruct (solves _ !! 0%nat) as [[[pb guess] out]|] eqn:Hfirst;
    [|vm_compute in Hfirst; discriminate].
  exact (proj1 (@first_solve_from_zero _ binary64 Demo.robust 3 (of_int 10)
                  w pb guess out Hfirst)).
Defined.

Lemma progress_reports_load_witness :
  let w := @Demo.world0 _ binary64 (Demo.field (1, 1, 1)%Z) in
  let evs := events_of (@cell29 _ binary64 (Demo.brittle 3) 10 (of_int 10)) w in
  visited_loads evs = printed evs.
Proof.
  intros w evs.
  apply (proj2 (@progress_reports_load _ binary64 (Demo.brittle 3) 10
                  (of_int 10) w)).
  reflexivity.
Defined.

Lemma plot_shows_last_solve_witness :
  let w := @Demo.world0 _ binary64 (Demo.field (1, 1, 1)%Z) in
  let run := @cell29 _ binary64 Demo.robust 3 (of_int 9) w in
  (1 <= 3)%Z /\ fst run = Ok tt /\
  nb_r (nb (snd run))
    = (Binary64.of_Z 9, Binary64.of_Z 0, Binary64.of_Z 0) /\
  last (events_of (@cell29 _ binary64 Demo.robust 3 (of_int 9)) w)
    = Some (Plot (nb_V (nb (snd run))) (nb_u (nb (snd run)))).
Proof.
  intros w run.
  assert (fst run = Ok tt) as Hres by (vm_compute; reflexivity).
  split; [lia|]. split; [exact Hres|].
  destruct (@plot_shows_last_solve _ binary64 Demo.robust 3 (of_int 9) w)
    as (increment & evs0 & guess & Hdiv & Hr & Hevs); [lia|exact Hres|].
  split.
  - fold run in Hr. rewrite Hr.
    assert (py_truediv (of_int 9) 3 = Ok (Binary64.of_Z 3)) as Hdiv'
      by (vm_compute; reflexivity).
    rewrite Hdiv' in Hdiv. injection Hdiv as <-.
    vm_compute. reflexivity.
  - rewrite Hevs.
    change (evs0 ++ [?a; ?b]) with (evs0 ++ [a] ++ [b]).
    rewrite app_assoc. apply last_snoc.
Defined.

Lemma final_load_is_target_witness :
  nb_r (nb (snd (@cell29 _ exact Demo.robust 2 1%R
                   (Demo.world0 (Demo.field (1, 1, 1)%Z)))))
    = (1%R, 0%R, 0%R) /\
  nb_r (nb (snd (@cell29 _ binary64 Demo.robust 49 (of_int 1)
                   (Demo.world0 (Demo.field (1, 1, 1)%Z)))))
    = (S754_finite false 9007199254740991 (-53),
       S754_zero false, S754_zero false).
Proof.
  split.
  - apply (proj1 final_load_is_target Demo.robust 2%Z 1%R
             (Demo.world0 (Demo.field (1, 1, 1)%Z))).
    + lia.
    + apply cell29_complete with (increment := (1 / IZR 2)%R).
      * apply exact_truediv. lia.
      * apply Forall_forall. reflexivity.
      * apply demo_robust_converges.
      * now apply demo_samplable.
      * split; simpl; lia.
  - apply (proj2 final_load_is_target Demo.robust
             (Demo.world0 (Demo.field (1, 1, 1)%Z))).
    vm_compute. reflexivity.
Defined.

Lemma lists_stay_aligned_witness :
  let w := @Demo.world0 _ binary64 (Demo.field (1, 1, 1)%Z) in
  let run := @cell29 _ binary64 (Demo.brittle 3) 10 (of_int 10) w in
  let evs := events_of (@cell29 _ binary64 (Demo.brittle 3) 10 (of_int 10)) w in
  fst run = Raise RuntimeError /\
  length (solves evs) = 3%nat /\
  length (nb_disp_neo (nb (snd run))) = 3%nat /\
  length (nb_stress_neo (nb (snd run))) = 3%nat.
Proof.
  intros w run evs.
  pose proof (@lists_stay_aligned _ binary64 (Demo.brittle 3) 10 (of_int 10) w
                (demo_brittle_keeps_size 3)) as Hal.
  cbv zeta in Hal.
  assert (py_truediv (of_int 10) 10 = Ok (Binary64.of_Z 1)) as Hdiv
    by (vm_compute; reflexivity).
  rewrite Hdiv in Hal.
  destruct Hal as (Hd & Hs & _).
  { unfold stress_samplable. simpl. split; [lia|].
    intros u Hu. rewrite demo_stress_length, Hu. reflexivity. }
  assert (converged_solves evs = 2%nat) as Hconv by (vm_compute; reflexivity).
  fold evs in Hd, Hs. fold run in Hd, Hs. rewrite Hconv in Hd, Hs.
  split; [vm_compute; reflexivity|]. split; [vm_compute; reflexivity|].
  split; [exact Hd|exact Hs].
Defined.

Lemma refine_benchmark_namespace_witness :
  let w1 := snd (@cell43 _ binary64 Demo.robust
                   (Demo.world0 (Demo.field (1, 1, 1)%Z))) in
  let w2 := World (with_total_force (flit 4 1000)
                     (nb (@Demo.world1 _ binary64 (Demo.field (2, 5, 9)%Z))))
                  [] in
  nb_total_force (nb w1) = nb_total_force (nb w2) /\
  nb_u (nb w1) <> nb_u (nb w2) /\
  fst (@refine_benchmark _ _ Demo.robust 20 2 2 w1)
    = fst (@refine_benchmark _ _ Demo.robust 20 2 2 w2).
Proof.
  intros w1 w2.
  assert (nb_total_force (nb w1) = nb_total_force (nb w2)) as Htf
    by (vm_compute; reflexivity).
  split; [exact Htf|]. split; [vm_compute; discriminate|].
  exact (proj1 (@refine_benchmark_namespace _ _ Demo.robust 20 2 2 w1 w2 Htf)).
Defined.

Lemma refine_benchmark_result_witness :
  let w := World (with_total_force (flit 4 1000)
                    (@Demo.notebook0 _ binary64 (Demo.field (1, 1, 1)%Z)))
                 [] in
  exists disp pressures evs ds,
    fst (@refine_benchmark _ _ Demo.robust 20 2 2 w) = Ok (disp, pressures) /\
    length (solves evs) = 10%nat /\
    disp = Int 0 :: map Float ds /\
    last (events_of (@refine_benchmark _ _ Demo.robust 20 2 2) w)
      = Some (Plot (VectorFunctionSpace (BoxMesh 20 2 2) "Lagrange" 1)
                (last_iterate
                   (map (fun _ => of_int 0)
                      (@tabulate_dof_coordinates _ Demo.robust
                         (VectorFunctionSpace (BoxMesh 20 2 2) "Lagrange" 1)))
                   (solves evs))).
Proof.
  intros w.
  let v := eval vm_compute in (fst (@refine_benchmark _ _ Demo.robust 20 2 2 w))
  in match v with
     | Ok (?d, ?p) =>
         assert (fst (@refine_benchmark _ _ Demo.robust 20 2 2 w) = Ok (d, p))
           as Hres by (vm_compute; reflexivity);
         exists d, p;
         destruct (@refine_benchmark_result _ _ Demo.robust 20 2 2 w d p Hres)
           as (evs & ds & Hevs & _ & Hlen & Hd & _);
         exists evs, ds
     end.
  split; [exact Hres|]. split; [exact Hlen|]. split; [exact Hd|].
  rewrite Hevs. apply last_snoc.
Defined.

Lemma refine_benchmark_failure_witness :
  let w := World (with_total_force (flit 4 1000)
                    (@Demo.notebook0 _ binary64 (Demo.field (1, 1, 1)%Z)))
                 [] in
  fst (@refine_benchmark _ _ (Demo.brittle 0) 20 2 2 w) = Raise RuntimeError /\
  exists evs0 pb g u,
    events_of (@refine_benchmark _ _ (Demo.brittle 0) 20 2 2) w
      = evs0 ++ [Solve pb g (Diverged u)].
Proof.
  intros w.
  assert (fst (@refine_benchmark _ _ (Demo.brittle 0) 20 2 2 w)
          = Raise RuntimeError) as Hres by (vm_compute; reflexivity).
  split; [exact Hres|].
  destruct (@refine_benchmark_failure (Demo.brittle 0) 20 2 2 w RuntimeError
              Hres) as (_ & Hcase & _).
  change (nb_total_force (nb w)) with (Some (@flit _ binary64 4 1000)) in Hcase.
  destruct Hcase as (evs0 & pb & g & out & Hevs & Hout).
  destruct out as [u|u].
  - destruct Hout as ([He|He] & _); discriminate He.
  - exists evs0, pb, g, u. exact Hevs.
Defined.

Lemma refine_benchmark_completes_witness :
  let w := World (with_total_force (flit 4 1000)
                    (@Demo.notebook0 _ binary64 (Demo.field (1, 1, 1)%Z)))
                 [] in
  exists disp pressures,
    fst (@refine_benchmark _ _ Demo.robust 20 2 2 w) = Ok (disp, pressures) /\
    length disp = 11%nat /\ length pressures = 11%nat.
Proof.
  intros w.
  apply (@refine_benchmark_completes Demo.robust 20 2 2 w (flit 4 1000)).
  - reflexivity.
  - apply demo_robust_converges.
  - split; simpl; lia.
Defined.

Lemma cell43_warm_start_witness :
  let w := snd (@cell41 _ binary64
                  (@Demo.world1 _ binary64 (Demo.field (2, 5, 9)%Z))) in
  fst (@cell43 _ _ Demo.robust w) = Ok tt /\
  exists evs,
    warm_chain (Demo.field (0, 0, 0)%Z) (solves evs) /\
    length (solves evs) = 10%nat /\
    events_of (@cell43 _ _ Demo.robust) w
      = evs ++ [Plot (nb_V (nb w)) (nb_u (nb (snd (@cell43 _ _ Demo.robust w))))].
Proof.
  intros w.
  assert (fst (@cell43 _ _ Demo.robust w) = Ok tt) as Hres
    by (vm_compute; reflexivity).
  split; [exact Hres|].
  destruct (@cell43_warm_start _ _ Demo.robust w)
    as (evs & _ & Hw & _ & _ & Hok).
  destruct (Hok Hres) as (Hevs & Hlen & _).
  exists evs. split; [exact Hw|]. split; [exact Hlen|exact Hevs].
Defined.

Lemma cell43_failure_witness :
  let w := snd (@cell41 _ binary64
                  (@Demo.world0 _ binary64 (Demo.field (1, 1, 1)%Z))) in
  fst (@cell43 _ _ (Demo.brittle 0) w) = Raise RuntimeError /\
  nb_total_force (nb (snd (@cell43 _ _ (Demo.brittle 0) w)))
    = Some (flit 4 1000) /\
  exists evs0 pb g,
    events_of (@cell43 _ _ (Demo.brittle 0)) w
      = evs0 ++ [Solve pb g
                   (Diverged (nb_u (nb (snd (@cell43 _ _ (Demo.brittle 0) w)))))].
Proof.
  intros w.
  assert (fst (@cell43 _ _ (Demo.brittle 0) w) = Raise RuntimeError) as Hres
    by (vm_compute; reflexivity).
  split; [exact Hres|].
  destruct (@cell43_failure (Demo.brittle 0) w RuntimeError Hres)
    as (Htf & _ & [(_ & evs0 & pb & g & u & Hevs & Hu)|([He|He] & _)] & _);
    [|discriminate He|discriminate He].
  split; [exact Htf|].
  exists evs0, pb, g. rewrite Hu. exact Hevs.
Defined.

Lemma plot_beam_face_nodes_witness :
  let V := VectorFunctionSpace (BoxMesh 20 2 2) "Lagrange" 1 in
  @nodal_values _ (@Slab.framework _ binary64) 3 V Slab.field /\
  @plot_beam_arrays _ binary64 Slab.framework V Slab.field
    = Ok ((map Binary64.of_Z [0; 5; 10]%Z, map Binary64.of_Z [0; 0; 1]%Z),
          (map Binary64.of_Z [1; 7; 13]%Z, map Binary64.of_Z [-1; -2; -2]%Z)).
Proof.
  intros V.
  assert (@nodal_values _ (@Slab.framework _ binary64) 3 V Slab.field)
    as Hnodal by (split; simpl; lia).
  split; [exact Hnodal|].
  destruct (@plot_beam_face_nodes _ binary64 Slab.framework V Slab.field
              Hnodal) as (_ & _ & x0 & z0 & x1 & z1 & Hres & _).
  rewrite Hres. vm_compute in Hres. injection Hres as <- <- <- <-.
  vm_compute. reflexivity.
Defined.

Lemma plot_beam_errors_witness :
  let V := VectorFunctionSpace (BoxMesh 20 2 2) "Lagrange" 1 in
  @plot_beam_arrays _ binary64 Slab.framework V
     (map Binary64.of_Z [1; 2; 3; 4]%Z) = Raise ValueError /\
  @plot_beam_arrays _ binary64 Slab.framework V (Demo.field (1, 5, 9)%Z)
    = Raise ValueError.
Proof.
  intros V. split.
  - apply (proj1 (@plot_beam_errors _ binary64 Slab.framework V
                    (map Binary64.of_Z [1; 2; 3; 4]%Z))).
    simpl. lia.
  - apply (proj2 (@plot_beam_errors _ binary64 Slab.framework V
                    (Demo.field (1, 5, 9)%Z)) 3%nat).
    + reflexivity.
    + simpl. lia.
    + simpl. lia.
    + lia.
Defined.

(** A field of two values cannot be reshaped to three columns: with a
    negative step count cell 29 gets as far as [plot_beam], whose
    [ValueError] ends the cell, nothing having been plotted. *)
Lemma cell29_plot_raises :
  let w := @Demo.world0 _ binary64 (map Binary64.of_Z [1; 2]%Z) in
  let run := @cell29 _ binary64 Demo.robust (-1) (of_int 10) w in
  fst run = Raise ValueError /\
  nb_disp_neo (nb (snd run)) = [Int 0] /\
  events_of (@cell29 _ binary64 Demo.robust (-1) (of_int 10)) w = [].
Proof. vm_compute. repeat split. Qed.


(** ** The stress plot and the convergence figure *)

Section PlotBeamStressFacts.
Context {F : Type} `{PyFloat F} `{Dolfin F}.

(** X22. The stress plot.  For a field with three values at each node
    of [V] and a projected stress with nine values at each node of
    [Z], [Z] having as many nodes as [V], [plot_beam(V, u, Z, P, c)]
    with [0 <= c < 9] raises nothing, places its markers where
    [plot_beam(V, u)] does, and colours the marker of node [j] with
    component [c] of the projected stress at index [j] of [Z]. *)
Theorem plot_beam_stress_colours (V Z0 : FunctionSpace) (P : energy F)
    (u : list F) (c : nat) :
  nodal_values 3 V u ->
  nodal_values 9 Z0 (project P Z0 u) ->
  length (node_coordinates 9 Z0) = length (node_coordinates 3 V) ->
  (c < 9)%nat ->
  let face := np_where (map (fun c => is_zero (snd (fst c)))
                            (node_coordinates 3 V)) in
  exists markers colours,
    plot_beam_arrays V u = Ok markers /\
    plot_beam_stress V u Z0 P (Z.of_nat c) = Ok (markers, colours) /\
    length colours = length face /\
    forall i j, face !! i = Some j ->
      exists s, project P Z0 u !! (j * 9 + c)%nat = Some s /\
                colours !! i = Some s.
Proof.
  intros HV (HZpos & HZlen) Hsame Hc face.
  destruct (plot_beam_nodal HV)
    as (Hface & _ & x0 & z0 & x1 & z1 & Hres & _).
  fold face in Hface.
  set (P_nodes := rows_of 9 (length (node_coordinates 9 Z0))
                    (project P Z0 u)).
  destruct (np_take_ok (a := P_nodes) (idx := face) (col := c))
    as (colours & Hcol & Hlen & Hall).
  { apply Forall_forall. intros j Hj. apply Hface in Hj as (n & Hn & _).
    unfold P_nodes. rewrite rows_of_length, Hsame.
    now apply lookup_lt_Some in Hn. }
  { eapply Forall_impl; [exact (rows_of_row_length 9 _ _ HZlen)|].
    simpl. intros r ->. exact Hc. }
  exists ((x0, z0), (x1, z1)), colours.
  split; [exact Hres|]. split.
  - unfold plot_beam_arrays in Hres. unfold plot_beam_stress.
    fold (node_coordinates 3 V) in Hres |- *. fold face in Hres |- *.
    destruct (reshape 3 u) as [disp|e]; [|discriminate Hres].
    simpl in Hres |- *.
    destruct (np_add _ disp) as [up|e]; [|discriminate Hres].
    simpl in Hres |- *.
    destruct (np_take _ face 0) as [a0|e]; [|discriminate Hres].
    simpl in Hres |- *.
    destruct (np_take _ face 2) as [b0|e]; [|discriminate Hres].
    simpl in Hres |- *.
    rewrite reshape_ok with (n := length (node_coordinates 9 Z0))
      by (lia || exact HZlen).
    simpl. fold P_nodes.
    destruct (np_take up face 0) as [a1|e]; [|discriminate Hres].
    simpl in Hres |- *.
    destruct (np_take up face 2) as [b1|e]; [|discriminate Hres].
    simpl in Hres |- *. rewrite Hcol. simpl.
    injection Hres as <- <- <- <-. reflexivity.
  - split; [exact Hlen|]. intros i j Hij.
    destruct (Hall i j Hij) as (r & s & Hr & Hs & Hi).
    exists s. split; [|exact Hi].
    assert (j < length (node_coordinates 9 Z0))%nat as Hj.
    { apply lookup_lt_Some in Hr. unfold P_nodes in Hr.
      now rewrite rows_of_length in Hr. }
    unfold P_nodes in Hr. rewrite rows_of_lookup in Hr by exact Hj.
    injection Hr as <-.
    rewrite lookup_take, lookup_drop in Hs.
    destruct (decide (c < 9)%nat) as [_|Hn]; [exact Hs|contradiction].
Qed.
End PlotBeamStressFacts.

Section ConvergencePlot.
Context {F : Type} `{PyFloat F} `{Dolfin F}.

Lemma np_index_last {A} (a : list A) (x : A) :
  last a = Some x -> np_index a (-1) = Ok x.
Proof.
  intros Hlast. apply last_Some in Hlast as [a' ->].
  unfold np_index. rewrite length_app. simpl.
  replace (-1 + Z.of_nat (length a' + 1))%Z with (Z.of_nat (length a'))
    by lia.
  destruct (Z.leb_spec 0 (Z.of_nat (length a'))) as [_|Hneg]; [|lia].
  destruct (Z.ltb_spec (Z.of_nat (length a')) (Z.of_nat (length a' + 1)))
    as [_|Hge]; [|lia].
  simpl. rewrite Nat2Z.id, lookup_app_r, Nat.sub_diag by lia. reflexivity.
Qed.

(** X23. What the convergence figure reads.  When
    [refine_benchmark] returns [disp, pressures], the entry
    [disp[-1]] that cell 51 plots against the number of degrees of
    freedom is what [get_disp] reads off the field that the function
    plotted, the result of its last solve; and [pressures[-1]] is the
    pressure of that solve, [total_force/10*10]. *)
Theorem convergence_plot_reads_tip (nx ny nz : Z) (w : world F)
    (disp pressures : list (number F)) :
  fst (refine_benchmark nx ny nz w) = Ok (disp, pressures) ->
  let V := VectorFunctionSpace (BoxMesh nx ny nz) "Lagrange" 1 in
  exists evs pb guess u d tf,
    events_of (refine_benchmark nx ny nz) w
      = evs ++ [Solve pb guess (Converged u); Plot V u] /\
    get_disp V u get_disp_pos get_disp_component = Ok d /\
    np_index disp (-1) = Ok (Float d) /\
    nb_total_force (nb w) = Some tf /\
    pb_pressure pb = Some (fmul (fdiv tf (of_int 10)) (of_int 10)) /\
    np_index pressures (-1)
      = Ok (Float (fmul (fdiv tf (of_int 10)) (of_int 10))).
Proof.
  unfold events_of, refine_benchmark. rewrite refine_benchmark_eq. cbv zeta.
  match goal with
  | |- context [for_each (range 10) (bench_step ?V 10) ?loc w] =>
      destruct (bench_loop_chain V 10 (range 10) loc w)
        as (evs & Ht & _ & _ & Hok & _);
      destruct (bench_loop V 10 (range 10) loc w)
        as (_ & Hname & evs' & k & Ht' & _ & Hsol & Happ & Hok');
      destruct (for_each (range 10) (bench_step V 10) loc w)
        as [[l|e] w1]
  end; cbn [fst snd trace l_u l_disp l_pressures] in *; [|discriminate].
  destruct (plot_beam_arrays _ (l_u l)) as [arrays|e];
    cbn [fst snd trace] in *; [|discriminate].
  intros [= <- <-].
  assert (evs' = evs) as ->
    by (rewrite Ht in Ht'; now apply app_inv_head in Ht').
  destruct (Hok l eq_refl) as (Hu & Hlen & ds & Hds & Hall).
  destruct (Hok' l eq_refl) as (-> & _ & Hp).
  destruct (nb_total_force (nb w)) as [tf|] eqn:Htf.
  2:{ assert (range 10 <> []) as Hne by (unfold range; simpl; discriminate).
      specialize (Hname eq_refl Hne). discriminate Hname. }
  specialize (Hp tf eq_refl). specialize (Happ tf eq_refl).
  rewrite firstn_all in Happ.
  destruct (last (solves evs)) as [[[pb guess] out]|] eqn:Hlast.
  2:{ apply last_None in Hlast. rewrite Hlast in Hlen. discriminate Hlen. }
  destruct (Forall2_last Hall Hlast) as (d & Hd & Hconv & Hget).
  simpl in Hconv, Hget.
  assert (exists evs0, evs = evs0 ++ [Solve pb guess out]) as (evs0 & ->).
  { clear - Hsol Hlast. induction evs as [|ev evs IH] using rev_ind.
    - discriminate Hlast.
    - apply Forall_app in Hsol as (_ & Hev).
      inversion Hev as [|? ? (pb' & g' & out' & ->) _]; subst.
      rewrite solves_app in Hlast.
      change (solves [Solve pb' g' out']) with [(pb', g', out')] in Hlast.
      rewrite last_snoc in Hlast. injection Hlast as -> -> ->.
      now exists evs. }
  exists evs0, pb, guess, (iterate out), d, tf.
  rewrite drop_new_events with (evs := evs0 ++ [Solve pb guess out])
    by exact Ht.
  rewrite Hu. unfold last_iterate. rewrite Hlast.
  split; [rewrite <- app_assoc, Hconv at 1; reflexivity|].
  split; [exact Hget|]. split.
  { rewrite Hds. apply np_index_last.
    rewrite last_app, fmap_last, Hd. reflexivity. }
  split; [reflexivity|].
  assert (last (range 10) = Some 9%Z) as Hr by reflexivity.
  split.
  - unfold applied_pressures in Happ.
    assert (last (map (fun s => pb_pressure (fst (fst s)))
                    (solves (evs0 ++ [Solve pb guess out])))
            = Some (pb_pressure pb)) as Hlp.
    { rewrite fmap_last, Hlast. reflexivity. }
    rewrite Happ, fmap_last, Hr in Hlp.
    now injection Hlp as <-.
  - rewrite Hp. apply np_index_last.
    rewrite last_app, fmap_last, Hr. reflexivity.
Qed.
End ConvergencePlot.

Lemma plot_beam_stress_colours_witness :
  let V := VectorFunctionSpace (BoxMesh 20 2 2) "Lagrange" 1 in
  let Z0 := TensorFunctionSpace (BoxMesh 20 2 2) "Lagrange" 1 in
  exists markers,
    @plot_beam_arrays _ binary64 Slab.framework V Slab.field = Ok markers /\
    @plot_beam_stress _ binary64 Slab.framework V Slab.field Z0 W_guccione 1
      = Ok (markers, map Binary64.of_Z [1; 2; 3]%Z).
Proof.
  intros V Z0.
  destruct (@plot_beam_stress_colours _ binary64 Slab.framework V Z0
              W_guccione Slab.field 1%nat)
    as (markers & colours & Hm & Hs & _).
  - split; simpl; lia.
  - split; simpl; lia.
  - reflexivity.
  - lia.
  - exists markers. split; [exact Hm|].
    change (Z.of_nat 1) with 1%Z in Hs. rewrite Hs.
    vm_compute in Hs. injection Hs as _ <-. vm_compute. reflexivity.
Defined.

Lemma convergence_plot_reads_tip_witness :
  let w := World (with_total_force (flit 4 1000)
                    (@Demo.notebook0 _ binary64 (Demo.field (1, 1, 1)%Z)))
                 [] in
  exists disp pressures,
    fst (@refine_benchmark _ _ Demo.robust 20 2 2 w) = Ok (disp, pressures) /\
    np_index pressures (-1) = Ok (Float (flit 4 1000)) /\
    exists u d,
      last (events_of (@refine_benchmark _ _ Demo.robust 20 2 2) w)
        = Some (Plot (VectorFunctionSpace (BoxMesh 20 2 2) "Lagrange" 1) u) /\
      @get_disp _ _ Demo.robust
        (VectorFunctionSpace (BoxMesh 20 2 2) "Lagrange" 1) u
        get_disp_pos get_disp_component = Ok d /\
      np_index disp (-1) = Ok (Float d).
Proof.
  intros w.
  let v := eval vm_compute in (fst (@refine_benchmark _ _ Demo.robust 20 2 2 w))
  in match v with
     | Ok (?d, ?p) =>
         assert (fst (@refine_benchmark _ _ Demo.robust 20 2 2 w) = Ok (d, p))
           as Hres by (vm_compute; reflexivity);
         exists d, p;
         destruct (@convergence_plot_reads_tip _ _ Demo.robust 20 2 2 w d p
                     Hres)
           as (evs & pb & guess & u & t & tf & Hevs & Hget & Hd & Htf & _ & Hp)
     end.
  split; [exact Hres|]. split.
  - rewrite Hp. injection Htf as <-. vm_compute. reflexivity.
  - exists u, t. split; [|split; [exact Hget|exact Hd]].
    rewrite Hevs.
    change (evs ++ [?a; ?b]) with (evs ++ [a] ++ [b]).
    rewrite app_assoc. apply last_snoc.
Defined.
